(** * Snapshot manager: batch orchestration engine of [prod/main.py]

    A shallow embedding of the delete pipeline (pre-validation, scope-lock
    guard, deletion, merge, summary), of the retrying command executor and of
    the snapshot-creation worker, with the properties of the specification
    stated over it.

    Modelling conventions.
    - Text is [string]; the byte streams of a child process are taken as
      already decoded (valid UTF-8), and [strip] removes ASCII white space.
    - The cloud CLI is an oracle [shell]: the answer to a command may depend
      on how many commands were run before it, so that a command can fail
      twice and then succeed.
    - Effects are threaded through a state-and-exception monad [M]; the state
      survives an exception, as in Python.
    - Time stamps that prefix log lines are left out of the logged text. *)

From Stdlib Require Import ZArith List String Ascii Lia Permutation.
From stdpp Require Import base gmap strings list fin_maps pretty.

Local Open Scope Z_scope.
Local Open Scope string_scope.
Local Open Scope list_scope.
Local Open Scope stdpp_scope.

(** ** Text primitives of the host language *)

Module Text.

(** [s.split(sep)] for a one-character separator. *)
Fixpoint split_go (sep : ascii) (cur : string) (s : string) : list string :=
  match s with
  | EmptyString => [String.rev cur]
  | String c rest =>
      if Ascii.eqb c sep then String.rev cur :: split_go sep EmptyString rest
      else split_go sep (String c cur) rest
  end.

Definition split (sep : ascii) (s : string) : list string :=
  split_go sep EmptyString s.

(** White space as [str.strip()] sees it on ASCII text:
    TAB, LF, VT, FF, CR, FS, GS, RS, US and the blank. *)
Definition is_space (c : ascii) : bool :=
  let n := nat_of_ascii c in
  ((9 <=? n)%nat && (n <=? 13)%nat) || ((28 <=? n)%nat && (n <=? 32)%nat).

Fixpoint lstrip (s : string) : string :=
  match s with
  | EmptyString => EmptyString
  | String c rest => if is_space c then lstrip rest else s
  end.

Definition strip (s : string) : string :=
  String.rev (lstrip (String.rev (lstrip s))).

Definition startswith (s p : string) : bool := String.prefix p s.

(** Truth value of a string: empty text is falsy. *)
Definition truthy (s : string) : bool :=
  match s with EmptyString => false | _ => true end.

End Text.

Import Text.

(** ** Exceptions, outcomes and the effect monad *)

(** [Exception name text] stands for any exception derived from
    [Exception], with [text] its [str()]; [KeyboardInterrupt] derives from
    [BaseException] only and is not caught by [except Exception]. *)
Inductive pyexn : Type :=
| Exception (name text : string)
| KeyboardInterrupt.

Definition str_exn (e : pyexn) : string :=
  match e with
  | Exception _ text => text
  | KeyboardInterrupt => ""
  end.

Definition is_Exception (e : pyexn) : bool :=
  match e with Exception _ _ => true | KeyboardInterrupt => false end.

Inductive outcome (A : Type) : Type :=
| Ok (a : A)
| Raise (e : pyexn).
Arguments Ok {A} a.
Arguments Raise {A} e.

(** A command is either a shell line or an argument vector. *)
Inductive Command : Type :=
| Shell (line : string)
| Argv (args : list string).

(** What the operating system reports for one child process. *)
Inductive ProcOutcome : Type :=
| Exited (stdout stderr : string) (returncode : Z)
| NotStarted (name text : string).

Inductive Event : Type :=
| Ran (cmd : Command) (out : ProcOutcome)
| Logged (line : string)          (* the detail log of the run *)
| ErrorLogged (line : string)     (* [logging.error] *)
| Slept (delay : Z)
| WroteRid (snapshot_id : string).

Record State : Type := mkState {
  ncalls : nat;          (* child processes started so far *)
  trace : list Event     (* newest event first *)
}.

Definition M (A : Type) : Type := State -> outcome A * State.

Definition ret {A} (a : A) : M A := fun s => (Ok a, s).

Definition raise {A} (e : pyexn) : M A := fun s => (Raise e, s).

Definition bind {A B} (m : M A) (k : A -> M B) : M B :=
  fun s =>
    match m s with
    | (Ok a, s') => k a s'
    | (Raise e, s') => (Raise e, s')
    end.

(** [try: m  except Exception as e: h e] *)
Definition try_except {A} (m : M A) (h : pyexn -> M A) : M A :=
  fun s =>
    match m s with
    | (Raise (Exception name text), s') => h (Exception name text) s'
    | r => r
    end.

Declare Scope py_scope.
Delimit Scope py_scope with py.
Notation "'let*' x ':=' m 'in' k" := (bind m (fun x => k))
  (at level 10, x name, m at level 100, k at level 200) : py_scope.
Notation "m ;; k" := (bind m (fun _ => k))
  (at level 100, k at level 200, right associativity) : py_scope.
Local Open Scope py_scope.

Definition emit (e : Event) : M unit :=
  fun s => (Ok tt, mkState (ncalls s) (e :: trace s)).

(** The environment: the answer of the [n]-th child process to its command. *)
Definition Oracle : Type := nat -> Command -> ProcOutcome.

Definition spawn (shell : Oracle) (cmd : Command) : M ProcOutcome :=
  fun s => (Ok (shell (ncalls s) cmd),
            mkState (S (ncalls s)) (Ran cmd (shell (ncalls s) cmd) :: trace s)).

Definition write_detailed_log (message : string) : M unit := emit (Logged message).

Definition write_snapshot_rid (snapshot_id : string) : M unit :=
  emit (WroteRid snapshot_id).

Definition sleep (delay : Z) : M unit := emit (Slept delay).

Definition logging_error (message : string) : M unit :=
  emit (ErrorLogged message).

(** ** Command executor *)

Section Executor.
Variable shell : Oracle.

(** One pass through the body of the [for attempt in range(max_retries)] loop
    of [run_az_command_async]; [last] holds the [stderr] and [returncode]
    bound by the previous pass, if any. *)
Fixpoint run_az_command_async_loop (command : string) (max_retries delay : Z)
    (attempts : list nat) (last : option (string * Z)) : M (string * string * Z) :=
  match attempts with
  | [] =>
      match last with
      | Some (stderr, returncode) => ret ("", strip stderr, returncode)
      | None => raise (Exception "UnboundLocalError"
                  "cannot access local variable 'stderr' where it is not associated with a value")
      end
  | attempt :: rest =>
      let* p := spawn shell (Shell command) in
      match p with
      | NotStarted name text => raise (Exception name text)
      | Exited stdout stderr returncode =>
          if (returncode =? 0)%Z then ret (strip stdout, strip stderr, returncode)
          else
            write_detailed_log ("Command failed (attempt " +:+ pretty (attempt + 1)%nat
                                +:+ "): " +:+ command) ;;
            write_detailed_log ("Error: " +:+ strip stderr) ;;
            (if (Z.of_nat attempt <? max_retries - 1)%Z
             then write_detailed_log ("Retrying in " +:+ pretty delay +:+ " seconds...") ;;
                  sleep delay
             else ret tt) ;;
            run_az_command_async_loop command max_retries delay rest (Some (stderr, returncode))
      end
  end.

Definition run_az_command_async (command : string) (max_retries delay : Z)
  : M (string * string * Z) :=
  run_az_command_async_loop command max_retries delay
    (seq 0 (Z.to_nat max_retries)) None.

(** The defaults of the signature: [max_retries=3, delay=5]. *)
Definition run_az_command_async_default (command : string) : M (string * string * Z) :=
  run_az_command_async command 3 5.

(** [str(e)] of [CalledProcessError]; the argument vector is rendered
    without escaping. *)
Definition repr_argv (args : list string) : string :=
  "[" +:+ String.concat ", " (map (fun a => "'" +:+ a +:+ "'") args) +:+ "]".

Definition CalledProcessError (args : list string) (returncode : Z) : pyexn :=
  Exception "CalledProcessError"
    ("Command '" +:+ repr_argv args +:+ "' returned non-zero exit status "
     +:+ pretty returncode +:+ ".").

(** What [run_az_command] hands back for a child process: the
    argument-vector form raises on a non-zero exit; the shell form, and a
    process that could not be started, give an ["Error: ..."] text. *)
Definition reply (command : Command) (p : ProcOutcome) : outcome string :=
  match command, p with
  | Argv args, Exited stdout _ returncode =>
      if (returncode =? 0)%Z then Ok (strip stdout)
      else Raise (CalledProcessError args returncode)
  | Shell _, Exited stdout stderr returncode =>
      if negb (returncode =? 0)%Z then Ok ("Error: " +:+ strip stderr)
      else Ok (strip stdout)
  | _, NotStarted _ text => Ok ("Error: " +:+ text)
  end.

Definition run_az_command (command : Command) : M string :=
  let* p := spawn shell command in
  match command, p with
  | Argv args, Exited stdout stderr returncode =>
      if (returncode =? 0)%Z then ret (strip stdout)
      else
        logging_error ("Command failed: " +:+ repr_argv args +:+ ". Error: " +:+ stderr) ;;
        raise (CalledProcessError args returncode)
  | Shell _, Exited stdout stderr returncode =>
      if negb (returncode =? 0)%Z then ret ("Error: " +:+ strip stderr)
      else ret (strip stdout)
  | _, NotStarted _ text =>
      logging_error ("Error in run_az_command: " +:+ text) ;;
      ret ("Error: " +:+ text)
  end.

End Executor.

(** ** Result aggregator *)

(** Payload of an outcome: a snapshot name, or a name with an error text. *)
Inductive Payload : Type :=
| Name (snapshot : string)
| WithError (snapshot error : string).

(** [defaultdict(lambda: defaultdict(list))]:
    grouping key -> outcome tag -> payloads in arrival order. *)
Abbreviation Buckets := (gmap string (list Payload)).
Abbreviation Aggregate := (gmap string (gmap string (list Payload))).

(** [results[key]] and [data[tag]] of the auto-creating dictionaries. *)
Definition buckets_of (results : Aggregate) (key : string) : Buckets :=
  default ∅ (results !! key).

Definition bucket (data : Buckets) (tag : string) : list Payload :=
  default [] (data !! tag).

(** [results[key][tag].append(data)] *)
Definition append_outcome (key tag : string) (data : Payload) (results : Aggregate)
  : Aggregate :=
  <[key := <[tag := bucket (buckets_of results key) tag ++ [data]]>
             (buckets_of results key)]> results.

(** [d.update(data)]: every tag of [data] replaces the tag of [d]. *)
Definition dict_update (d data : Buckets) : Buckets := data ∪ d.

(** The merge at the end of [delete_snapshots]:
    [for subscription, data in deletion_results.items():
         results[subscription].update(data)] *)
Definition merge_results (pre_validation_results deletion_results : Aggregate)
  : Aggregate :=
  map_fold
    (fun subscription data results =>
       <[subscription := dict_update (buckets_of results subscription) data]> results)
    pre_validation_results deletion_results.

(** The four running totals of [print_summary] (the last table row). *)
Record Totals : Type := mkTotals {
  total_valid : nat;
  total_non_existent : nat;
  total_deleted : nat;
  total_failed : nat
}.

Definition print_summary (results : Aggregate) : Totals :=
  map_fold
    (fun (_ : string) (data : Buckets) (t : Totals) =>
       mkTotals (total_valid t + length (bucket data "valid"))
                (total_non_existent t + length (bucket data "non-existent"))
                (total_deleted t + length (bucket data "deleted"))
                (total_failed t + length (bucket data "failed")))
    (mkTotals 0 0 0 0) results.

(** The single number the totals row adds up to. *)
Definition totals_sum (t : Totals) : nat :=
  (total_valid t + total_non_existent t + total_deleted t + total_failed t)%nat.

(** Sum of a weight over the values of a dictionary. *)
Definition map_sum {A} (w : A -> nat) (m : gmap string A) : nat :=
  map_fold (fun (_ : string) (x : A) (n : nat) => (n + w x)%nat) 0%nat m.

(** Number of payloads held under one tag, over all grouping keys. *)
Definition count_tag (tag : string) (results : Aggregate) : nat :=
  map_sum (fun data : Buckets => length (bucket data tag)) results.

(** Number of payloads held in the whole aggregate. *)
Definition aggregate_size (results : Aggregate) : nat :=
  map_sum (map_sum (length (A:=Payload))) results.

(** ** Thread pool *)

(** What [future.result()] will do: return the worker's value or re-raise
    what the worker raised. *)
Abbreviation Future := outcome.

(** [executor.submit(worker, ...)]: the worker runs, whatever it raises is
    kept in the future.  The pool has ten threads; here a worker runs to its
    end when it is submitted, which is one of the schedules of the pool.
    The order of the commands within a pass is therefore that of this
    schedule only, and the statements about the two passes do not speak of
    it. *)
Definition submit {A} (worker : M A) : M (Future A) :=
  fun s => let (r, s') := worker s in (Ok r, s').

Definition future_result {A} (f : Future A) : M A :=
  match f with
  | Ok a => ret a
  | Raise e => raise e
  end.

Fixpoint submit_all {A} (worker : string -> M A) (items : list string)
  : M (list (string * Future A)) :=
  match items with
  | [] => ret []
  | item :: rest =>
      let* f := submit (worker item) in
      let* fs := submit_all worker rest in
      ret ((item, f) :: fs)
  end.

(** ** Delete pipeline *)

(** One entry of [az lock list ... --query '[].{name:name, level:level}']. *)
Record Lock : Type := mkLock { lock_name : string; lock_level : string }.

(** [(subscription_id, resource_group, lock_name)] *)
Abbreviation LockRecord := (string * string * string)%type.

(** [(subscription_name, status, data)] as returned by [process_snapshot]. *)
Abbreviation Classification := (option string * string * Payload)%type.

Section DeletePipeline.
Variable shell : Oracle.

(** [json.loads] on the lock listing: the decoded list, or [None] when the
    text is not JSON. *)
Variable json_loads_locks : string -> option (list Lock).

(** The order in which the pool hands back the submitted futures. *)
Variable as_completed : forall A : Type, list A -> list A.

(** The user's interrupt, if any: the number of deletion futures the main
    thread collects before [KeyboardInterrupt] reaches it. *)
Variable sigint : option nat.

Definition switch_subscription (subscription : string)
    (current_subscription : option string) : M (option string) :=
  if negb (bool_decide (Some subscription = current_subscription)) then
    try_except
      (run_az_command shell (Argv ["az"; "account"; "set"; "--subscription"; subscription]) ;;
       ret (Some subscription))
      (fun e =>
         logging_error ("Failed to switch to subscription " +:+ subscription +:+ ": "
                        +:+ str_exn e) ;;
         raise e)
  else ret current_subscription.

Definition get_resource_groups_from_snapshots (snapshot_ids : list string)
  : gset (string * string) :=
  foldl
    (fun resource_groups snapshot_id =>
       let parts := split "/" snapshot_id in
       if (5 <=? length parts)%nat
       then resource_groups ∪ {[ (nth 2 parts "", nth 4 parts "") ]}
       else resource_groups)
    ∅ snapshot_ids.

Definition lock_delete_command (name resource_group : string) : string :=
  "az lock delete --name " +:+ name +:+ " --resource-group " +:+ resource_group.

Definition lock_create_command (name resource_group : string) : string :=
  "az lock create --name " +:+ name +:+ " --resource-group " +:+ resource_group
  +:+ " --lock-type CanNotDelete".

Definition lock_list_command (resource_group : string) : string :=
  "az lock list --resource-group " +:+ resource_group
  +:+ " --query '[].{name:name, level:level}' -o json".

Fixpoint remove_locks (subscription_id resource_group : string) (locks : list Lock)
    (removed_locks : list LockRecord) : M (list LockRecord) :=
  match locks with
  | [] => ret removed_locks
  | lock :: rest =>
      if String.eqb (lock_level lock) "CanNotDelete" then
        let* result :=
          run_az_command shell (Shell (lock_delete_command (lock_name lock) resource_group)) in
        if negb (startswith result "Error:")
        then remove_locks subscription_id resource_group rest
               (removed_locks ++ [(subscription_id, resource_group, lock_name lock)])
        else remove_locks subscription_id resource_group rest removed_locks
      else remove_locks subscription_id resource_group rest removed_locks
  end.

Fixpoint check_and_remove_scope_locks_loop (resource_groups : list (string * string))
    (current_subscription : option string) (removed_locks : list LockRecord)
  : M (list LockRecord) :=
  match resource_groups with
  | [] => ret removed_locks
  | (subscription_id, resource_group) :: rest =>
      let* current_subscription :=
        switch_subscription subscription_id current_subscription in
      let* listing := run_az_command shell (Shell (lock_list_command resource_group)) in
      match json_loads_locks listing with
      | None => raise (Exception "JSONDecodeError" listing)
      | Some locks =>
          let* removed_locks :=
            remove_locks subscription_id resource_group locks removed_locks in
          check_and_remove_scope_locks_loop rest current_subscription removed_locks
      end
  end.

Definition check_and_remove_scope_locks (resource_groups : gset (string * string))
  : M (list LockRecord) :=
  check_and_remove_scope_locks_loop (elements resource_groups) None [].

Fixpoint restore_scope_locks_loop (removed_locks : list LockRecord)
    (current_subscription : option string) (restored_locks : nat) : M nat :=
  match removed_locks with
  | [] => ret restored_locks
  | (subscription_id, resource_group, lock_name) :: rest =>
      let* current_subscription :=
        switch_subscription subscription_id current_subscription in
      let* result :=
        run_az_command shell (Shell (lock_create_command lock_name resource_group)) in
      if negb (startswith result "Error:")
      then restore_scope_locks_loop rest current_subscription (restored_locks + 1)%nat
      else restore_scope_locks_loop rest current_subscription restored_locks
  end.

Definition restore_scope_locks (removed_locks : list LockRecord) : M nat :=
  restore_scope_locks_loop removed_locks None 0%nat.

Definition check_snapshot_exists (snapshot_id : string) : M bool :=
  let* result := run_az_command shell (Shell ("az snapshot show --ids " +:+ snapshot_id)) in
  ret (negb (startswith result "Error:")).

(** [process_snapshot], with the existence check it calls as a parameter. *)
Definition process_snapshot_with (check : string -> M bool)
    (snapshot_id : string) (subscription_names : gmap string string)
  : M Classification :=
  try_except
    (let parts := split "/" snapshot_id in
     if (length parts <? 9)%nat then
       logging_error ("Invalid snapshot ID format: " +:+ snapshot_id) ;;
       ret (None, "invalid", WithError snapshot_id "Invalid snapshot ID format")
     else
       let subscription_id := nth 2 parts "" in
       let subscription_name :=
         default subscription_id (subscription_names !! subscription_id) in
       let snapshot_name := List.last parts "" in
       let* found := check snapshot_id in
       if negb found then ret (Some subscription_name, "non-existent", Name snapshot_name)
       else ret (Some subscription_name, "valid", Name snapshot_name))
    (fun e =>
       logging_error ("Error processing snapshot " +:+ snapshot_id +:+ ": " +:+ str_exn e) ;;
       ret (None, "error", WithError snapshot_id (str_exn e))).

Definition process_snapshot (snapshot_id : string)
    (subscription_names : gmap string string) : M Classification :=
  process_snapshot_with check_snapshot_exists snapshot_id subscription_names.

Definition delete_snapshot (snapshot_id : string) : M bool :=
  let* result :=
    run_az_command shell (Shell ("az snapshot delete --ids " +:+ snapshot_id)) in
  ret (negb (startswith result "Error:")).

(** Body of the [for future in as_completed(...)] loop of
    [pre_validate_snapshots]. *)
Definition pre_validate_step (item : string * Future Classification)
    (valid_snapshots : list string) (results : Aggregate)
  : M (list string * Aggregate) :=
  try_except
    (let* r := future_result (snd item) in
     let '(subscription_name, status, data) := r in
     match subscription_name with
     | Some name =>
         if truthy name then
           ret (if String.eqb status "valid"
                then valid_snapshots ++ [fst item] else valid_snapshots,
                append_outcome name status data results)
         else ret (valid_snapshots, append_outcome "Unknown" status data results)
     | None => ret (valid_snapshots, append_outcome "Unknown" status data results)
     end)
    (fun e =>
       logging_error ("Error processing future: " +:+ str_exn e) ;;
       ret (valid_snapshots, results)).

Fixpoint pre_validate_loop (completed : list (string * Future Classification))
    (valid_snapshots : list string) (results : Aggregate)
  : M (list string * Aggregate) :=
  match completed with
  | [] => ret (valid_snapshots, results)
  | item :: rest =>
      let* acc := pre_validate_step item valid_snapshots results in
      pre_validate_loop rest (fst acc) (snd acc)
  end.

(** The dispatcher of the pre-validation pass over any per-item worker. *)
Definition pre_validate_dispatch (worker : string -> M Classification)
    (snapshot_ids : list string) : M (list string * Aggregate) :=
  let* futures := submit_all worker snapshot_ids in
  pre_validate_loop (as_completed _ futures) [] ∅.

Definition pre_validate_snapshots (snapshot_ids : list string)
    (subscription_names : gmap string string) : M (list string * Aggregate) :=
  pre_validate_dispatch (fun snapshot_id => process_snapshot snapshot_id subscription_names)
    snapshot_ids.

(** Body of the loop of [delete_valid_snapshots]. *)
Definition delete_step (subscription_names : gmap string string)
    (item : string * Future bool) (results : Aggregate) : M Aggregate :=
  let snapshot_id := fst item in
  try_except
    (let* success := future_result (snd item) in
     let parts := split "/" snapshot_id in
     match parts !! 2%nat with
     | None => raise (Exception "IndexError" "list index out of range")
     | Some subscription_id =>
         let subscription_name :=
           default subscription_id (subscription_names !! subscription_id) in
         let snapshot_name := List.last parts "" in
         if success
         then ret (append_outcome subscription_name "deleted" (Name snapshot_name) results)
         else ret (append_outcome subscription_name "failed"
                     (WithError snapshot_name "Deletion failed") results)
     end)
    (fun e =>
       logging_error ("Error deleting snapshot " +:+ snapshot_id +:+ ": " +:+ str_exn e) ;;
       ret (append_outcome "Unknown" "error" (WithError snapshot_id (str_exn e)) results)).

(** The loop of [delete_valid_snapshots]; [pending] counts the futures the
    main thread still collects before the user's interrupt reaches it. *)
Fixpoint delete_loop (subscription_names : gmap string string) (pending : option nat)
    (completed : list (string * Future bool)) (results : Aggregate) : M Aggregate :=
  match completed with
  | [] => ret results
  | item :: rest =>
      match pending with
      | Some O => raise KeyboardInterrupt
      | _ =>
          let* results := delete_step subscription_names item results in
          delete_loop subscription_names (Nat.pred <$> pending) rest results
      end
  end.

(** The dispatcher of the deletion pass over any per-item worker. *)
Definition delete_dispatch (worker : string -> M bool)
    (valid_snapshots : list string) (subscription_names : gmap string string)
  : M Aggregate :=
  let* futures := submit_all worker valid_snapshots in
  delete_loop subscription_names sigint (as_completed _ futures) ∅.

Definition delete_valid_snapshots (valid_snapshots : list string)
    (subscription_names : gmap string string) : M Aggregate :=
  delete_dispatch delete_snapshot valid_snapshots subscription_names.

(** [delete_snapshots] from the pre-validation on: the identifiers have been
    read and the subscription names fetched. *)
Definition delete_snapshots (snapshot_ids : list string)
    (subscription_names : gmap string string) : M Aggregate :=
  let* pre := pre_validate_snapshots snapshot_ids subscription_names in
  let valid_snapshots := fst pre in
  let pre_validation_results := snd pre in
  match valid_snapshots with
  | [] => ret pre_validation_results
  | _ =>
      let resource_groups := get_resource_groups_from_snapshots valid_snapshots in
      let* removed_locks := check_and_remove_scope_locks resource_groups in
      let* deletion_results := delete_valid_snapshots valid_snapshots subscription_names in
      let* restored_locks := restore_scope_locks removed_locks in
      ret (merge_results pre_validation_results deletion_results)
  end.

End DeletePipeline.

(** ** Snapshot creation *)

(** The clock reading taken when the module is loaded. *)
Record datetime : Type := mkDatetime {
  year : nat; month : nat; day : nat; hour : nat; minute : nat; second : nat
}.

Definition digit_char (n : nat) : ascii := ascii_of_nat (48 + n mod 10).

Definition pad2 (n : nat) : string :=
  String (digit_char (n / 10)) (String (digit_char n) EmptyString).

Definition pad4 (n : nat) : string :=
  String (digit_char (n / 1000)) (String (digit_char (n / 100)) (pad2 n)).

(** [now.strftime('%Y%m%d%H%M%S')] *)
Definition strftime_YmdHMS (now : datetime) : string :=
  pad4 (year now) +:+ pad2 (month now) +:+ pad2 (day now)
  +:+ pad2 (hour now) +:+ pad2 (minute now) +:+ pad2 (second now).

(** What [json.loads] makes of the output of [az snapshot create]. *)
Inductive SnapshotJson : Type :=
| DecodeError                                   (* [json.JSONDecodeError] *)
| JsonObject (dumped : string) (id : option string)
    (* an object; [id] is its ['id'] entry when present and truthy *)
| JsonOther (dumped : string) (type_name : string).
    (* a list, number, text ...: it has no [get] *)

Section CreatePipeline.
Variable shell : Oracle.
Variable json_loads_snapshot : string -> SnapshotJson.
Variable now : datetime.

(** The module-level global [timestamp]. *)
Definition timestamp : string := strftime_YmdHMS now.

Definition snapshot_name_of (chg_number vm_name : string) : string :=
  "RH_" +:+ chg_number +:+ "_" +:+ vm_name +:+ "_" +:+ timestamp.

Definition account_set_command (subscription_id : string) : string :=
  "az account set --subscription " +:+ subscription_id.

Definition disk_id_command (resource_id : string) : string :=
  "az vm show --ids " +:+ resource_id
  +:+ " --query 'storageProfile.osDisk.managedDisk.id' -o tsv".

Definition resource_group_command (resource_id : string) : string :=
  "az vm show --ids " +:+ resource_id +:+ " --query 'resourceGroup' -o tsv".

Definition snapshot_create_command (snapshot_name resource_group disk_id : string)
  : string :=
  "az snapshot create --name " +:+ snapshot_name +:+ " --resource-group "
  +:+ resource_group +:+ " --source " +:+ disk_id.

(** The [try] block after a successful [az snapshot create]. *)
Definition record_snapshot (snapshot_name stdout : string) : M unit :=
  match json_loads_snapshot stdout with
  | DecodeError =>
      write_detailed_log
        "Warning: Could not parse snapshot creation output as JSON. Raw output:" ;;
      write_detailed_log stdout
  | JsonObject dumped (Some snapshot_id) =>
      write_detailed_log dumped ;;
      write_snapshot_rid snapshot_id ;;
      write_detailed_log
        ("Snapshot resource ID added to snap_rid_list.txt: " +:+ snapshot_id)
  | JsonObject dumped None =>
      write_detailed_log dumped ;;
      write_detailed_log
        ("Warning: Could not extract snapshot resource ID for " +:+ snapshot_name)
  | JsonOther dumped type_name =>
      write_detailed_log dumped ;;
      raise (Exception "AttributeError"
               ("'" +:+ type_name +:+ "' object has no attribute 'get'"))
  end.

Definition process_vm (resource_id vm_name chg_number : string) : M (string * string) :=
  write_detailed_log ("Processing VM: " +:+ vm_name) ;;
  write_detailed_log ("Resource ID: " +:+ resource_id) ;;
  match split "/" resource_id !! 2%nat with
  | None => raise (Exception "IndexError" "list index out of range")
  | Some subscription_id =>
      if negb (truthy subscription_id) then
        write_detailed_log ("Failed to get subscription ID for VM: " +:+ vm_name) ;;
        ret (vm_name, "Failed to get subscription ID")
      else
        let* r1 := run_az_command_async_default shell (account_set_command subscription_id) in
        let '(_, stderr, returncode) := r1 in
        if negb (returncode =? 0)%Z then
          write_detailed_log ("Failed to set subscription ID: " +:+ subscription_id) ;;
          write_detailed_log ("Error: " +:+ stderr) ;;
          ret (vm_name, "Failed to set subscription ID")
        else
          write_detailed_log ("Subscription ID: " +:+ subscription_id) ;;
          let* r2 := run_az_command_async_default shell (disk_id_command resource_id) in
          let '(stdout, stderr, returncode) := r2 in
          if negb (returncode =? 0)%Z || negb (truthy stdout) then
            write_detailed_log ("Failed to get disk ID for VM: " +:+ vm_name) ;;
            write_detailed_log ("Error: " +:+ stderr) ;;
            ret (vm_name, "Failed to get disk ID")
          else
            let disk_id := stdout in
            let* r3 :=
              run_az_command_async_default shell (resource_group_command resource_id) in
            let '(stdout, stderr, returncode) := r3 in
            if negb (returncode =? 0)%Z then
              write_detailed_log ("Failed to get resource group for VM: " +:+ vm_name) ;;
              write_detailed_log ("Error: " +:+ stderr) ;;
              ret (vm_name, "Failed to get resource group")
            else
              let resource_group := stdout in
              write_detailed_log ("Resource group name: " +:+ resource_group) ;;
              let snapshot_name := snapshot_name_of chg_number vm_name in
              let* r4 :=
                run_az_command_async_default shell
                  (snapshot_create_command snapshot_name resource_group disk_id) in
              let '(stdout, stderr, returncode) := r4 in
              if negb (returncode =? 0)%Z then
                write_detailed_log ("Failed to create snapshot for VM: " +:+ vm_name) ;;
                write_detailed_log ("Error: " +:+ stderr) ;;
                ret (vm_name, "Failed to create snapshot")
              else
                write_detailed_log ("Snapshot created: " +:+ snapshot_name) ;;
                record_snapshot snapshot_name stdout ;;
                write_detailed_log ("Snapshot created successfully for VM: " +:+ vm_name) ;;
                ret (vm_name, snapshot_name)
  end.

End CreatePipeline.

(** ** Vocabulary of the statements *)

(** The delays slept, the commands run and the identifiers written, as an
    event trace records them (newest first). *)
Fixpoint slept (tr : list Event) : list Z :=
  match tr with
  | [] => []
  | Slept d :: rest => d :: slept rest
  | _ :: rest => slept rest
  end.

Fixpoint commands_run (tr : list Event) : list Command :=
  match tr with
  | [] => []
  | Ran c _ :: rest => c :: commands_run rest
  | _ :: rest => commands_run rest
  end.

(** A child process that ran and left with a non-zero exit code. *)
Definition failed_exit (o : ProcOutcome) : Prop :=
  ∃ out err rc, o = Exited out err rc ∧ rc ≠ 0%Z.

(** A tag that no bucket dictionary of the aggregate holds. *)
Definition tag_absent (tag : string) (results : Aggregate) : Prop :=
  ∀ key data, results !! key = Some data → data !! tag = None.

(** The fault of an identifier is on record: its error payload sits in the
    ["error"] bucket of the ["Unknown"] key. *)
Definition records_fault (results : Aggregate) (snapshot_id text : string) : Prop :=
  WithError snapshot_id text ∈ bucket (buckets_of results "Unknown") "error".

(** The grouping key the pre-validation dispatcher files a classification
    under. *)
Definition classify_key (subscription_name : option string) : string :=
  match subscription_name with
  | Some name => if truthy name then name else "Unknown"
  | None => "Unknown"
  end.

(** Can the dispatcher hand the snapshot over to deletion? *)
Definition deletable (subscription_name : option string) (status : string) : bool :=
  match subscription_name with
  | Some name => truthy name && String.eqb status "valid"
  | None => false
  end.

(** What one collected future does to the accumulators of the
    pre-validation loop. *)
Definition pre_record (item : string * Future Classification)
    (acc : list string * Aggregate) : list string * Aggregate :=
  match item.2 with
  | Ok (subscription_name, status, data) =>
      (if deletable subscription_name status then acc.1 ++ [item.1] else acc.1,
       append_outcome (classify_key subscription_name) status data acc.2)
  | Raise _ => acc
  end.

(** What one collected future does to the aggregate of the deletion loop. *)
Definition delete_record (subscription_names : gmap string string)
    (item : string * Future bool) (results : Aggregate) : Aggregate :=
  let parts := split "/" item.1 in
  match item.2, parts !! 2%nat with
  | Ok success, Some subscription_id =>
      let subscription_name :=
        default subscription_id (subscription_names !! subscription_id) in
      if success
      then append_outcome subscription_name "deleted" (Name (List.last parts "")) results
      else append_outcome subscription_name "failed"
             (WithError (List.last parts "") "Deletion failed") results
  | Ok _, None =>
      append_outcome "Unknown" "error" (WithError item.1 "list index out of range") results
  | Raise e, _ =>
      append_outcome "Unknown" "error" (WithError item.1 (str_exn e)) results
  end.

(** A future that does not hold an interrupt. *)
Definition settled {A} (item : string * Future A) : Prop :=
  item.2 ≠ Raise KeyboardInterrupt.

(** A worker that never raises an interrupt. *)
Definition uninterrupted {A} (worker : string → M A) : Prop :=
  ∀ item s, (worker item s).1 ≠ Raise KeyboardInterrupt.

(** An identifier with too few path segments for a snapshot. *)
Definition malformed (snapshot_id : string) : Prop :=
  (length (split "/" snapshot_id) < 9)%nat.

(** The accumulators of the two dispatch loops after the futures
    [completed], in the order they were collected. *)
Definition pre_fold (completed : list (string * Future Classification))
    (acc : list string * Aggregate) : list string * Aggregate :=
  foldl (λ acc item, pre_record item acc) acc completed.

Definition delete_fold (subscription_names : gmap string string)
    (completed : list (string * Future bool)) (results : Aggregate) : Aggregate :=
  foldl (λ acc item, delete_record subscription_names item acc) results completed.

(** The value a run returned, if it returned. *)
Definition returned {A} (r : outcome A * State) : option A :=
  match r.1 with
  | Ok a => Some a
  | Raise _ => None
  end.

(** The child processes of a trace, with what they reported (newest
    first). *)
Fixpoint ran (tr : list Event) : list (Command * ProcOutcome) :=
  match tr with
  | [] => []
  | Ran c out :: rest => (c, out) :: ran rest
  | _ :: rest => ran rest
  end.

Definition is_lock_create (run : Command * ProcOutcome) : bool :=
  match run.1 with
  | Shell line => startswith line "az lock create"
  | Argv _ => false
  end.

Definition is_lock_delete (run : Command * ProcOutcome) : bool :=
  match run.1 with
  | Shell line => startswith line "az lock delete"
  | Argv _ => false
  end.

(** The lock-create and lock-delete commands of a trace, oldest first. *)
Definition lock_creates (tr : list Event) : list (Command * ProcOutcome) :=
  rev (filter (λ run, is_lock_create run = true) (ran tr)).

Definition lock_deletes (tr : list Event) : list (Command * ProcOutcome) :=
  rev (filter (λ run, is_lock_delete run = true) (ran tr)).

(** Did [run_az_command] hand back an error-tagged result? *)
Definition error_tagged (run : Command * ProcOutcome) : bool :=
  match reply run.1 run.2 with
  | Ok text => startswith text "Error:"
  | Raise _ => true
  end.

(** The command that restores one recorded lock. *)
Definition restore_command (record : LockRecord) : Command :=
  Shell (lock_create_command record.2 record.1.2).

(** The state after the detail log received [lines] (newest first). *)
Definition log_lines (lines : list string) (s : State) : State :=
  mkState (ncalls s) (map Logged lines ++ trace s).

(** A character that is a decimal digit. *)
Definition is_digit (c : ascii) : bool :=
  let n := nat_of_ascii c in (48 <=? n)%nat && (n <=? 57)%nat.


(** ** States of the executor loop *)

Section ExecutorStates.
Variable shell : Oracle.
Variables (command : string) (delay : Z).

(** The state once the child process of an attempt has been started. *)
Definition started (s : State) : State :=
  mkState (S (ncalls s))
    (Ran (Shell command) (shell (ncalls s) (Shell command)) :: trace s).

(** The state after a failed attempt: the two log lines, then the
    announcement and the pause when another attempt follows. *)
Definition after_failure (attempt : nat) (max_retries : Z) (stderr : string)
    (s : State) : State :=
  let logged :=
    Logged ("Error: " +:+ strip stderr)
    :: Logged ("Command failed (attempt " +:+ pretty (attempt + 1)%nat +:+ "): "
               +:+ command)
    :: trace (started s) in
  mkState (S (ncalls s))
    (if (Z.of_nat attempt <? max_retries - 1)%Z
     then Slept delay :: Logged ("Retrying in " +:+ pretty delay +:+ " seconds...")
          :: logged
     else logged).

End ExecutorStates.

(** ** Futures as the two passes produce them *)

(** The three statuses the worker of the pre-validation pass returns. *)
Definition preflight_future (p : string * Future Classification) : Prop :=
  ∃ sub status data,
    p.2 = Ok (sub, status, data)
    ∧ status ∈ ["invalid"; "non-existent"; "valid"]
    ∧ (deletable sub status = true → ¬ malformed p.1).

Definition counted3 (results : Aggregate) : nat :=
  (count_tag "valid" results + count_tag "non-existent" results
   + count_tag "invalid" results)%nat.

(** A deletion future that returned, for a well-formed identifier. *)
Definition deletion_future (p : string * Future bool) : Prop :=
  (∃ success, p.2 = Ok success) ∧ ¬ malformed p.1.

(** ** Concrete scenarios *)

Definition initial_state : State := mkState 0 [].

(** The pool hands the futures back in submission order. *)
Definition in_order : ∀ A : Type, list A → list A := λ _ l, l.

(** An oracle whose first two child processes fail and whose third
    succeeds. *)
Definition fails_twice : Oracle :=
  fun n _ => if (n <? 2)%nat then Exited "" "busy " 1 else Exited " done" "" 0.

(** An oracle for which every command succeeds with a lock listing. *)
Definition all_succeed : Oracle := fun _ _ => Exited "[lock]" "" 0.

(** A lock listing with one deletion-blocking lock. *)
Definition one_lock : string → option (list Lock) :=
  fun _ => Some [mkLock "keep" "CanNotDelete"].

Definition snap_1 : string :=
  "/subscriptions/sub-1/resourceGroups/rg-1/providers/Microsoft.Compute/snapshots/snap-1".

Definition snap_2 : string :=
  "/subscriptions/sub-2/resourceGroups/rg-2/providers/Microsoft.Compute/snapshots/snap-2".

(** An existence check and a worker that fault. *)
Definition faulty_check : string → M bool :=
  fun _ => raise (Exception "RuntimeError" "boom").

Definition faulty_worker : string → M Classification :=
  fun _ => raise (Exception "RuntimeError" "boom").

Definition faulty_delete : string → M bool :=
  fun _ => raise (Exception "RuntimeError" "bang").




(** The clock reading 2024-03-07 09:05:01. *)
Definition a_clock : datetime := mkDatetime 2024 3 7 9 5 1.

(** A JSON library that cannot parse anything. *)
Definition unparsable : string → SnapshotJson := fun _ => DecodeError.

(** An oracle for which every command succeeds with some output. *)
Definition vm_all_succeed : Oracle := fun _ _ => Exited "out" "" 0.

Definition vm_1 : string :=
  "/subscriptions/sub-1/resourceGroups/rg-1/providers/Microsoft.Compute/virtualMachines/vm-1".

(** ** Vocabulary for the command traces *)

(** The commands of the two workers of the delete pipeline. *)
Definition snapshot_show_command (snapshot_id : string) : string :=
  "az snapshot show --ids " +:+ snapshot_id.

Definition snapshot_delete_command (snapshot_id : string) : string :=
  "az snapshot delete --ids " +:+ snapshot_id.

(** The child processes of a trace with what they reported, oldest first. *)
Definition history (tr : list Event) : list (Command * ProcOutcome) := rev (ran tr).

(** Whatever its outcome, [m] only extends the trace, and every child
    process it starts satisfies [Q]. *)
Definition runs_only {A} (Q : Command * ProcOutcome → Prop) (m : M A) : Prop :=
  ∀ s, ∃ new, trace (m s).2 = new ++ trace s ∧ Forall Q (ran new).

(** A shell line that begins with [prefix]. *)
Definition shell_prefix (prefix : string) (run : Command * ProcOutcome) : Prop :=
  ∃ line, run.1 = Shell line ∧ startswith line prefix = true.

Definition is_argv (run : Command * ProcOutcome) : Prop :=
  ∃ args, run.1 = Argv args.

(** The deletion of one of the snapshots [valid_snapshots]. *)
Definition deletes_one_of (valid_snapshots : list string)
    (run : Command * ProcOutcome) : Prop :=
  ∃ snapshot_id,
    snapshot_id ∈ valid_snapshots ∧ run.1 = Shell (snapshot_delete_command snapshot_id).

(** A snapshot whose existence check was run and did not come back
    error-tagged. *)
Definition found_by (tr : list Event) (snapshot_id : string) : Prop :=
  ∃ out,
    (Shell (snapshot_show_command snapshot_id), out) ∈ ran tr
    ∧ error_tagged (Shell (snapshot_show_command snapshot_id), out) = false.

(** What the two lock phases run: subscription switches and [az lock]
    commands. *)
Definition lock_phase_run (run : Command * ProcOutcome) : Prop :=
  is_argv run ∨ shell_prefix "az lock " run.

(** What the lock removal runs: subscription switches, lock listings and
    lock deletions. *)
Definition removal_run (run : Command * ProcOutcome) : Prop :=
  is_argv run ∨ shell_prefix "az lock list" run ∨ shell_prefix "az lock delete" run.

(** A child process whose report is the oracle's answer to its command. *)
Definition answered_by (shell : Oracle) (run : Command * ProcOutcome) : Prop :=
  ∃ n, run.2 = shell n run.1.

(** A lock that a listing of the resource group reported as blocking
    deletion. *)
Definition listed_blocking (json_loads_locks : string → option (list Lock))
    (tr : list Event) (resource_group : string) (lock : Lock) : Prop :=
  ∃ out text locks,
    (Shell (lock_list_command resource_group), out) ∈ ran tr
    ∧ reply (Shell (lock_list_command resource_group)) out = Ok text
    ∧ json_loads_locks text = Some locks
    ∧ lock ∈ locks
    ∧ lock_level lock = "CanNotDelete".

(** ** The batch of [create_snapshots] *)

(** [s.split()]: the fields between runs of white space. *)
Fixpoint split_whitespace_go (cur : string) (s : string) : list string :=
  match s with
  | EmptyString => if truthy cur then [String.rev cur] else []
  | String c rest =>
      if is_space c then
        if truthy cur then String.rev cur :: split_whitespace_go EmptyString rest
        else split_whitespace_go EmptyString rest
      else split_whitespace_go (String c cur) rest
  end.

Definition split_whitespace (s : string) : list string :=
  split_whitespace_go EmptyString s.

(** The classes [except ValueError] catches: [ValueError] and the
    classes the interpreter and the [json] module derive from it. *)
Definition ValueError_classes : list string :=
  ["ValueError"; "JSONDecodeError"; "UnicodeError"; "UnicodeDecodeError";
   "UnicodeEncodeError"; "UnicodeTranslateError"].

Definition is_ValueError (name : string) : bool :=
  bool_decide (name ∈ ValueError_classes).

(** [try: m  except ValueError: h] *)
Definition try_except_ValueError {A} (m : M A) (h : M A) : M A :=
  fun s =>
    match m s with
    | (Raise (Exception name text), s') =>
        if is_ValueError name then h s' else (Raise (Exception name text), s')
    | r => r
    end.

(** [resource_id, vm_name = fields] *)
Definition unpack_pair (fields : list string) : M (string * string) :=
  match fields with
  | [resource_id; vm_name] => ret (resource_id, vm_name)
  | [] | [_] =>
      raise (Exception "ValueError"
               ("not enough values to unpack (expected 2, got "
                +:+ pretty (length fields) +:+ ")"))
  | _ => raise (Exception "ValueError" "too many values to unpack (expected 2)")
  end.

(** The line feed. *)
Definition nl : string := String (ascii_of_nat 10) EmptyString.

(** What is written to the summary file. *)
Definition summary_entries (entries : list (string * string)) : string :=
  foldr (fun entry text => "- " +:+ entry.1 +:+ ": " +:+ entry.2 +:+ nl +:+ text)
    EmptyString entries.

Definition summary_text (total_vms : nat)
    (successful_snapshots failed_snapshots : list (string * string)) : string :=
  "Snapshot Creation Summary" +:+ nl
  +:+ "========================" +:+ nl +:+ nl
  +:+ "Total VMs processed: " +:+ pretty total_vms +:+ nl
  +:+ "Successful snapshots: " +:+ pretty (length successful_snapshots) +:+ nl
  +:+ "Failed snapshots: " +:+ pretty (length failed_snapshots) +:+ nl +:+ nl
  +:+ "Successful snapshots:" +:+ nl
  +:+ summary_entries successful_snapshots
  +:+ nl +:+ "Failed snapshots:" +:+ nl
  +:+ summary_entries failed_snapshots.

Record CreateReport : Type := mkCreateReport {
  total_vms : nat;
  successful_snapshots : list (string * string);
  failed_snapshots : list (string * string);
  summary : string                      (* the text of the summary file *)
}.

Section CreateBatch.
Variable shell : Oracle.
Variable json_loads_snapshot : string → SnapshotJson.
Variable now : datetime.

(** Body of the [for line in vm_list] loop. *)
Definition create_step (chg_number line : string)
    (successful failed : list (string * string))
  : M (list (string * string) * list (string * string)) :=
  try_except_ValueError
    (let* fields := unpack_pair (split_whitespace line) in
     let '(resource_id, vm_name) := fields in
     let* result := process_vm shell json_loads_snapshot now resource_id vm_name chg_number in
     if negb (startswith result.2 "Failed")
     then ret (successful ++ [result], failed)
     else ret (successful, failed ++ [result]))
    (write_detailed_log ("Error: Invalid line format in snapshot_vmlist.txt: " +:+ line) ;;
     ret (successful, failed ++ [(line, "Invalid line format")])).

Fixpoint create_loop (chg_number : string) (vm_list : list string)
    (successful failed : list (string * string))
  : M (list (string * string) * list (string * string)) :=
  match vm_list with
  | [] => ret (successful, failed)
  | line :: rest =>
      let* acc := create_step chg_number line successful failed in
      create_loop chg_number rest acc.1 acc.2
  end.

(** [vm_list]: the stripped lines of the file that are not blank. *)
Definition read_vm_list (lines : list string) : list string :=
  List.filter truthy (map strip lines).

(** [create_snapshots] once the change number has been entered; [vmlist]
    holds the lines of [snapshot_vmlist.txt], or [None] when the file does
    not exist.  The console output, the progress display and the header the
    function puts in the log file before it reads the list are left out. *)
Definition create_snapshots (chg_number : string) (vmlist : option (list string))
  : M (option CreateReport) :=
  match vmlist with
  | None => ret None
  | Some lines =>
      let vm_list := read_vm_list lines in
      let total_vms := length vm_list in
      let* acc := create_loop chg_number vm_list [] [] in
      ret (Some (mkCreateReport total_vms acc.1 acc.2
                   (summary_text total_vms acc.1 acc.2)))
  end.

End CreateBatch.



(** ** Export of the results *)

(** The tags whose buckets hold snapshot names. *)
Definition name_statuses : list string := ["deleted"; "non-existent"; "valid"].

(** [snapshot, error = item] for an item of a bucket: a pair gives its
    two components, a text its characters when it has two of them. *)
Definition unpack_payload (item : Payload) : outcome (string * string) :=
  match item with
  | WithError snapshot error => Ok (snapshot, error)
  | Name (String a (String b EmptyString)) =>
      Ok (String a EmptyString, String b EmptyString)
  | Name text =>
      Raise (Exception "ValueError"
               (if (String.length text <? 2)%nat
                then "not enough values to unpack (expected 2, got "
                     +:+ pretty (String.length text) +:+ ")"
                else "too many values to unpack (expected 2)"))
  end.

(** A row handed to [csvwriter.writerow]; the third cell is the item of
    the bucket as it is, or the first component of a pair. *)
Record CsvRow : Type := mkCsvRow {
  row_subscription : string;
  row_status : string;
  row_snapshot : Payload;
  row_error : string
}.

Definition csv_header : CsvRow := mkCsvRow "Subscription" "Status" (Name "Snapshot") "Error".

(** The rows written, and the exception that ended the export, if any. *)
Abbreviation Export := (list CsvRow * option pyexn)%type.

(** [for snapshot, error in snapshots: csvwriter.writerow(...)] *)
Fixpoint export_pairs (subscription status : string) (snapshots : list Payload)
  : Export :=
  match snapshots with
  | [] => ([], None)
  | item :: rest =>
      match unpack_payload item with
      | Ok (snapshot, error) =>
          let (rows, e) := export_pairs subscription status rest in
          (mkCsvRow subscription status (Name snapshot) error :: rows, e)
      | Raise e => ([], Some e)
      end
  end.

(** Body of [for status, snapshots in data.items()]. *)
Definition export_bucket (subscription status : string) (snapshots : list Payload)
  : Export :=
  if bool_decide (status ∈ name_statuses)
  then (map (fun snapshot => mkCsvRow subscription status snapshot "") snapshots, None)
  else export_pairs subscription status snapshots.

(** A [for] loop over [items] whose body writes rows and may raise. *)
Fixpoint export_each {A} (body : A → Export) (items : list A) : Export :=
  match items with
  | [] => ([], None)
  | item :: rest =>
      match body item with
      | (rows, None) =>
          let (more, e) := export_each body rest in (rows ++ more, e)
      | (rows, Some e) => (rows, Some e)
      end
  end.

(** [export_to_csv] once the file is open: what is written to it, and
    whether the function returned.  The dictionaries are gone through in
    the order of [map_to_list]. *)
Definition export_to_csv (results : Aggregate) : Export :=
  let (rows, e) :=
    export_each
      (fun entry : string * Buckets =>
         export_each
           (fun b : string * list Payload => export_bucket entry.1 b.1 b.2)
           (map_to_list entry.2))
      (map_to_list results) in
  (csv_header :: rows, e).

(** An item as its tag wants it: a name under the three name tags, a pair
    under any other tag. *)
Definition shape_ok (status : string) (item : Payload) : Prop :=
  if bool_decide (status ∈ name_statuses)
  then ∃ snapshot, item = Name snapshot
  else ∃ snapshot error, item = WithError snapshot error.

Definition well_shaped (results : Aggregate) : Prop :=
  ∀ key status item, item ∈ bucket (buckets_of results key) status → shape_ok status item.

(** The row of an item of a well-shaped bucket. *)
Definition row_of (subscription status : string) (item : Payload) : CsvRow :=
  match item with
  | Name snapshot => mkCsvRow subscription status (Name snapshot) ""
  | WithError snapshot error => mkCsvRow subscription status (Name snapshot) error
  end.

(** The rows of the items of an aggregate, in the order of the export. *)
Definition rows_of (results : Aggregate) : list CsvRow :=
  concat (map (fun entry : string * Buckets =>
                 concat (map (fun b : string * list Payload =>
                                map (row_of entry.1 b.1) b.2)
                           (map_to_list entry.2)))
            (map_to_list results)).

(** Reading [data[tag]] of a [defaultdict(list)] creates the bucket when it
    is missing. *)
Definition touch (tag : string) (data : Buckets) : Buckets :=
  <[tag := bucket data tag]> data.

(** The aggregate as [print_summary] and [print_detailed_errors] leave it:
    between them they read the five tags of every subscription. *)
Definition after_reports (results : Aggregate) : Aggregate :=
  (fun data : Buckets =>
     touch "error" (touch "failed" (touch "deleted" (touch "non-existent"
       (touch "valid" data))))) <$> results.

(** ** Snapshot validation *)

(** The values of a snapshot that the validation shows, as texts. *)
Record SnapshotDetails : Type := mkSnapshotDetails {
  details_name : string;
  details_resource_group : string;
  details_time_created : string;
  details_size_gb : string;
  details_state : string
}.

(** What [json.loads] and the five look-ups that follow make of the output
    of [az snapshot show]. *)
Inductive DetailsJson : Type :=
| DetailsDecodeError                          (* [json.JSONDecodeError] *)
| DetailsObject (details : SnapshotDetails)   (* an object with the five keys *)
| DetailsMissingKey (key : string)            (* an object without [key] *)
| DetailsOther (text : string).
    (* a list, number, text ...: the look-up is a [TypeError] *)

(** An entry of [validated_snapshots]: the dictionary has the five values
    exactly when ['exists'] is set. *)
Record SnapshotInfo : Type := mkSnapshotInfo {
  info_id : string;
  info_details : option SnapshotDetails
}.

Definition info_exists (snapshot : SnapshotInfo) : bool :=
  match info_details snapshot with Some _ => true | None => false end.

Definition details_command (snapshot_id : string) : string :=
  "az snapshot show --ids " +:+ snapshot_id
  +:+ " --query '{name:name, resourceGroup:resourceGroup, timeCreated:timeCreated, "
  +:+ "diskSizeGb:diskSizeGb, provisioningState:provisioningState}' -o json".

Record ValidationReport : Type := mkValidationReport {
  total_snapshots : nat;
  validated_snapshots : list SnapshotInfo;
  existing_snapshots : nat;
  missing_snapshots : nat;
  error_log : list string              (* the messages of [log_error] *)
}.

Section Validation.
Variable shell : Oracle.
Variable json_loads_details : string → DetailsJson.

(** Body of the [for snapshot_id in snapshot_ids] loop; [errors] holds the
    messages written to the error log so far. *)
Definition validate_step (snapshot_id : string)
    (validated : list SnapshotInfo) (errors : list string)
  : M (list SnapshotInfo * list string) :=
  let* details := run_az_command shell (Shell (details_command snapshot_id)) in
  if truthy details && negb (startswith details "Error:") then
    match json_loads_details details with
    | DetailsObject found =>
        ret (validated ++ [mkSnapshotInfo snapshot_id (Some found)], errors)
    | DetailsDecodeError =>
        ret (validated ++ [mkSnapshotInfo snapshot_id None],
             errors ++ ["Failed to parse JSON for snapshot: " +:+ snapshot_id])
    | DetailsMissingKey key => raise (Exception "KeyError" ("'" +:+ key +:+ "'"))
    | DetailsOther text => raise (Exception "TypeError" text)
    end
  else ret (validated ++ [mkSnapshotInfo snapshot_id None], errors).

Fixpoint validate_loop (snapshot_ids : list string)
    (validated : list SnapshotInfo) (errors : list string)
  : M (list SnapshotInfo * list string) :=
  match snapshot_ids with
  | [] => ret (validated, errors)
  | snapshot_id :: rest =>
      let* acc := validate_step snapshot_id validated errors in
      validate_loop rest acc.1 acc.2
  end.

(** [validate_snapshots] from the reading of the list on; [snapshot_list]
    holds the lines of the list file, or [None] when the file cannot be
    read.  The console output, the run time and the optional copy of the
    results to a file are left out. *)
Definition validate_snapshots (snapshot_list : option (list string))
  : M (option ValidationReport) :=
  match snapshot_list with
  | None => ret None
  | Some [] => ret None
  | Some snapshot_ids =>
      let total_snapshots := length snapshot_ids in
      let* acc := validate_loop snapshot_ids [] [] in
      let validated_snapshots := acc.1 in
      ret (Some (mkValidationReport total_snapshots validated_snapshots
                   (length (List.filter info_exists validated_snapshots))
                   (length (List.filter (fun s => negb (info_exists s))
                              validated_snapshots))
                   acc.2))
  end.

End Validation.

(** The entry of an identifier after a check that reported [out]. *)
Definition validated_as (json_loads_details : string → DetailsJson)
    (snapshot_id : string) (out : ProcOutcome) (snapshot : SnapshotInfo) : Prop :=
  info_id snapshot = snapshot_id
  ∧ ∀ found,
      info_details snapshot = Some found
      ↔ ∃ text,
          reply (Shell (details_command snapshot_id)) out = Ok text
          ∧ truthy text = true
          ∧ startswith text "Error:" = false
          ∧ json_loads_details text = DetailsObject found.

(** ** Login check and subscription names *)

(** [s.lower()] on ASCII text. *)
Definition lower_char (c : ascii) : ascii :=
  let n := nat_of_ascii c in
  if (65 <=? n)%nat && (n <=? 90)%nat then ascii_of_nat (n + 32) else c.

Fixpoint str_lower (s : string) : string :=
  match s with
  | EmptyString => EmptyString
  | String c rest => String (lower_char c) (str_lower rest)
  end.

(** [needle in s] *)
Fixpoint str_contains (needle s : string) : bool :=
  String.prefix needle s
  || match s with
     | EmptyString => false
     | String _ rest => str_contains needle rest
     end.

(** [try: m  except json.JSONDecodeError: h] *)
Definition try_except_JSONDecodeError {A} (m : M A) (h : M A) : M A :=
  fun s =>
    match m s with
    | (Raise (Exception name text), s') =>
        if String.eqb name "JSONDecodeError" then h s'
        else (Raise (Exception name text), s')
    | r => r
    end.

(** What [json.loads] and the comprehension over its result make of the
    output of [az account list]: the [(id, name)] pairs in the order of the
    listing, or the exception raised on the way. *)
Inductive SubscriptionsJson : Type :=
| SubscriptionsRaise (name text : string)
| Subscriptions (entries : list (string * string)).

Definition account_list_command : string :=
  "az account list --query '[].{id:id, name:name}' -o json".

Section Account.
Variable shell : Oracle.

(** [json.loads(result)] of [check_az_login]: [None] when the text parses,
    or the class and the message of the exception. *)
Variable json_loads_account : string → option (string * string).
Variable json_loads_subscriptions : string → SubscriptionsJson.

Definition json_loads_unit (text : string) : M unit :=
  match json_loads_account text with
  | None => ret tt
  | Some (name, message) => raise (Exception name message)
  end.

Definition check_az_login : M bool :=
  try_except
    (let* result := run_az_command shell (Shell "az account show") in
     if str_contains "az login" (str_lower result) then ret false
     else
       try_except_JSONDecodeError
         (json_loads_unit result ;; ret true)
         (ret false))
    (fun e => ret false).

Definition get_subscription_names : M (gmap string string) :=
  let* result := run_az_command shell (Shell account_list_command) in
  if truthy result && negb (startswith result "Error:") then
    match json_loads_subscriptions result with
    | SubscriptionsRaise name text => raise (Exception name text)
    | Subscriptions entries =>
        ret (foldl (fun (names : gmap string string) (sub : string * string) =>
                      <[sub.1 := sub.2]> names) ∅ entries)
    end
  else ret ∅.

End Account.

(** A child process that gives [run_az_command] nothing to parse: it could
    not be started, left with a non-zero exit code, or printed only white
    space. *)
Definition gave_nothing (out : ProcOutcome) : Prop :=
  match out with
  | Exited stdout _ returncode => returncode ≠ 0%Z ∨ strip stdout = ""
  | NotStarted _ _ => True
  end.

(** The entry of [id] that a dictionary built from [entries] keeps: the
    last one. *)
Definition last_entry (entries : list (string * string)) (id name : string) : Prop :=
  ∃ i, entries !! i = Some (id, name)
       ∧ ∀ j name', (i < j)%nat → entries !! j ≠ Some (id, name').

(** ** The patch of the Azure CLI *)

(** [s.replace(old, new)] for a non-empty [old]: the occurrences of [old]
    are replaced from the left, and the search goes on after each of them;
    [skip] counts the characters of a replaced occurrence still to pass. *)
Fixpoint replace_go (old new : string) (skip : nat) (s : string) : string :=
  match s with
  | EmptyString => EmptyString
  | String c rest =>
      match skip with
      | S k => replace_go old new k rest
      | O =>
          if String.prefix old s
          then new +:+ replace_go old new (String.length old - 1) rest
          else String c (replace_go old new 0 rest)
      end
  end.

Definition str_replace (old new s : string) : string := replace_go old new 0 s.

Definition endswith (s suffix : string) : bool :=
  String.prefix (String.rev suffix) (String.rev s).

(** [os.path.join] on POSIX paths. *)
Definition path_join2 (path part : string) : string :=
  if startswith part "/" then part
  else if negb (truthy path) || endswith path "/" then path +:+ part
  else path +:+ "/" +:+ part.

Definition path_join (path : string) (parts : list string) : string :=
  foldl path_join2 path parts.

Definition old_import : string := "from distutils.sysconfig import get_python_lib".

Definition new_def : string :=
  "import sysconfig" +:+ nl +:+ nl +:+ "def get_python_lib():" +:+ nl
  +:+ "    return sysconfig.get_path('purelib')".

(** The text files of the machine, by path. *)
Abbreviation FileSystem := (gmap string string).

Definition file_to_patch (site_packages : string) : string :=
  path_join site_packages ["azure"; "cli"; "core"; "extension"; "__init__.py"].

(** [patch_azure_cli] for the module search path [sys_path]: what it
    raises, if anything, and the files it leaves.  The faults of the
    search and of the reading are modelled; once the file has been read,
    the writing and the final [print] are taken to succeed, so nothing is
    said here about a run that fails after it has begun to write. *)
Definition patch_azure_cli (sys_path : list string) (files : FileSystem)
  : outcome unit * FileSystem :=
  match List.find (str_contains "site-packages") sys_path with
  | None => (Raise (Exception "StopIteration" ""), files)
  | Some site_packages =>
      match files !! file_to_patch site_packages with
      | None =>
          (Raise (Exception "FileNotFoundError"
                    ("[Errno 2] No such file or directory: '"
                     +:+ file_to_patch site_packages +:+ "'")),
           files)
      | Some content =>
          let patched_content := str_replace old_import new_def content in
          (Ok tt, <[file_to_patch site_packages := patched_content]> files)
      end
  end.

(** The non-empty suffixes of a text. *)
Fixpoint suffixes (s : string) : list string :=
  match s with
  | EmptyString => []
  | String _ rest => s :: suffixes rest
  end.

(** No non-empty suffix of [a] agrees with [b] as far as the shorter of
    the two goes. *)
Definition no_overlap (a b : string) : bool :=
  forallb (fun suffix => negb (String.prefix suffix b) && negb (String.prefix b suffix))
    (suffixes a).

(** ** The delete command as a whole *)

(** What the operator and the file system put into one run of the delete
    command. *)
Record DeleteSession : Type := mkDeleteSession {
  filename_is_file : bool;              (* [os.path.isfile(filename)] *)
  file_lines : outcome (list string);   (* [f.read().splitlines()], or what it raises *)
  proceed_answer : string;              (* asked for more than 100 snapshots *)
  export_answer : string                (* "Do you want to export ...?" *)
}.

Record DeleteReport : Type := mkDeleteReport {
  report_results : Aggregate;
  report_totals : Totals;
  report_export : option (list CsvRow)  (* the rows of the CSV file, when asked for *)
}.

Section DeleteCommand.
Variable shell : Oracle.
Variable json_loads_account : string → option (string * string).
Variable json_loads_subscriptions : string → SubscriptionsJson.
Variable json_loads_locks : string → option (list Lock).
Variable as_completed : ∀ A : Type, list A → list A.
Variable sigint : option nat.

(** The end of the delete command: the two reports, then the export when
    the operator answers [y]. *)
Definition report_and_export (session : DeleteSession) (results : Aggregate)
  : M (option DeleteReport) :=
  let totals := print_summary results in
  let results := after_reports results in
  if String.eqb (str_lower (export_answer session)) "y" then
    match export_to_csv results with
    | (rows, None) => ret (Some (mkDeleteReport results totals (Some rows)))
    | (rows, Some e) => raise e
    end
  else ret (Some (mkDeleteReport results totals None)).

(** [delete_snapshots] as the menu calls it: the checks before the
    pipeline, the pipeline, the reports.  It gives no report when it
    leaves early.  The console output and the run time are left out. *)
Definition delete_snapshots_session (session : DeleteSession) : M (option DeleteReport) :=
  let* logged_in := check_az_login shell json_loads_account in
  if negb logged_in then ret None
  else if negb (filename_is_file session) then ret None
  else
    let* subscription_names := get_subscription_names shell json_loads_subscriptions in
    match file_lines session with
    | Raise (Exception _ _) => ret None
    | Raise KeyboardInterrupt => raise KeyboardInterrupt
    | Ok snapshot_ids =>
        if (100 <? length snapshot_ids)%nat
           && negb (String.eqb (str_lower (proceed_answer session)) "y")
        then ret None
        else
          let* results :=
            delete_snapshots shell json_loads_locks as_completed sigint
              snapshot_ids subscription_names in
          report_and_export session results
    end.

End DeleteCommand.

(** One of the two account commands. *)
Definition account_run (run : Command * ProcOutcome) : Prop :=
  run.1 = Shell "az account show" ∨ run.1 = Shell account_list_command.

(** The checks a session has to pass before a snapshot is looked at. *)
Definition cleared (session : DeleteSession) : Prop :=
  filename_is_file session = true
  ∧ ∃ snapshot_ids,
      file_lines session = Ok snapshot_ids
      ∧ ((length snapshot_ids ≤ 100)%nat ∨ str_lower (proceed_answer session) = "y").

(** ** Vocabulary for the outcomes and the lock guard *)

(** The classifications that the futures of the pre-validation pass
    returned, with their identifiers, in the order they were collected. *)
Definition outcomes_of (completed : list (string * Future Classification))
  : list (string * Classification) :=
  omap (λ p : string * Future Classification,
          match p.2 with
          | Ok c => Some (p.1, c)
          | Raise _ => None
          end) completed.

(** The command that removed one recorded lock. *)
Definition removal_command (record : LockRecord) : Command :=
  Shell (lock_delete_command record.2 record.1.2).

(** The locks that were removed: the lock-delete commands of a trace
    whose reply was not error-tagged, oldest first. *)
Definition confirmed_removals (tr : list Event) : list (Command * ProcOutcome) :=
  filter (λ run, error_tagged run = false) (lock_deletes tr).

(** ** Further scenarios *)

(** An oracle whose child processes all exit with code 1. *)
Definition all_fail : Oracle := fun _ _ => Exited "" "busy " 1.

(** An oracle that cannot start any child process. *)
Definition no_shell : Oracle := fun _ _ => NotStarted "FileNotFoundError" "no shell".

(** A JSON library that rejects every lock listing. *)
Definition no_listing : string → option (list Lock) := fun _ => None.


(** Results with one valid snapshot and one malformed identifier. *)
Definition exported_results : Aggregate :=
  append_outcome "sub-1" "valid" (Name "snap-1")
    (append_outcome "Unknown" "invalid"
       (WithError "not/a/snapshot" "Invalid snapshot ID format") ∅).

(** JSON libraries for the snapshot details: one finds every snapshot, one
    finds objects that lack a key. *)
Definition details_found : string → DetailsJson :=
  fun _ => DetailsObject (mkSnapshotDetails "snap-1" "rg-1" "2024-01-01" "128" "Succeeded").

Definition details_incomplete : string → DetailsJson :=
  fun _ => DetailsMissingKey "diskSizeGb".

(** A JSON library that accepts what is not empty and not error-tagged,
    and a listing of subscriptions with a repeated identifier. *)
Definition strict_json : string → option (string * string) :=
  fun text =>
    if truthy text && negb (startswith text "Error:") then None
    else Some ("JSONDecodeError", "Expecting value").

Definition two_subscriptions : string → SubscriptionsJson :=
  fun _ => Subscriptions [("sub-1", "Old name"); ("sub-2", "Test"); ("sub-1", "Production")].

(** A module search path, and files with an unpatched Azure CLI. *)
Definition python_path : list string :=
  ["/usr/lib/python3"; "/usr/lib/python3/site-packages"; "/opt/site-packages/"].

Definition unpatched_files : FileSystem :=
  {[ "/usr/lib/python3/site-packages/azure/cli/core/extension/__init__.py"
     := "import os" +:+ nl +:+ old_import +:+ nl +:+ old_import +:+ nl ]}.

(** * Properties *)

(** ** The retrying executor *)

Lemma slept_app tr1 tr2 : slept (tr1 ++ tr2) = slept tr1 ++ slept tr2.
Proof.
  induction tr1 as [|e tr1 IH]; [reflexivity|].
  destruct e; simpl; rewrite IH; reflexivity.
Qed.

Lemma commands_run_app tr1 tr2 :
  commands_run (tr1 ++ tr2) = commands_run tr1 ++ commands_run tr2.
Proof.
  induction tr1 as [|e tr1 IH]; [reflexivity|].
  destruct e; simpl; rewrite IH; reflexivity.
Qed.

Lemma repeat_snoc {A} (x : A) n : repeat x n ++ [x] = x :: repeat x n.
Proof. induction n as [|n IH]; simpl; [reflexivity|]. rewrite IH. reflexivity. Qed.

Section ExecutorFacts.
Variable shell : Oracle.
Variables (command : string) (delay : Z).

Lemma loop_unfold attempt rest max_retries last s :
  run_az_command_async_loop shell command max_retries delay (attempt :: rest) last s =
  match shell (ncalls s) (Shell command) with
  | NotStarted name text => (Raise (Exception name text), started shell command s)
  | Exited stdout stderr returncode =>
      if (returncode =? 0)%Z
      then (Ok (strip stdout, strip stderr, returncode), started shell command s)
      else run_az_command_async_loop shell command max_retries delay rest
             (Some (stderr, returncode)) (after_failure shell command delay attempt max_retries stderr s)
  end.
Proof.
  cbn [run_az_command_async_loop]. unfold bind at 1. unfold spawn at 1.
  fold (started shell command s).
  destruct (shell (ncalls s) (Shell command)) as [out err rc|name text]; [|reflexivity].
  destruct (rc =? 0)%Z; [reflexivity|].
  unfold after_failure, bind, write_detailed_log, sleep, emit, ret. cbn [ncalls trace].
  destruct (Z.of_nat attempt <? max_retries - 1)%Z; reflexivity.
Qed.

(** Whatever the child processes do, the loop starts at most one process
    per scheduled attempt, all for the same command, and pauses only for
    [delay]. *)
Lemma loop_bounded max_retries attempts last s :
  ∃ new,
    trace (run_az_command_async_loop shell command max_retries delay attempts last s).2
      = new ++ trace s
    ∧ ncalls (run_az_command_async_loop shell command max_retries delay attempts last s).2
      = (ncalls s + length (commands_run new))%nat
    ∧ (length (commands_run new) ≤ length attempts)%nat
    ∧ Forall (λ d, d = delay) (slept new)
    ∧ Forall (λ c, c = Shell command) (commands_run new).
Proof.
  revert last s. induction attempts as [|attempt rest IH]; intros last s.
  - exists []. cbn [run_az_command_async_loop].
    destruct last as [[err rc]|]; cbn; repeat split; auto; lia.
  - rewrite loop_unfold.
    destruct (shell (ncalls s) (Shell command)) as [out err rc|name text].
    + destruct (rc =? 0)%Z.
      * eexists [Ran (Shell command) _]. cbn.
        repeat split; auto; lia.
      * destruct (IH (Some (err, rc)) (after_failure shell command delay attempt max_retries err s))
          as (new & Htr & Hn & Hlen & Hs & Hc).
        unfold after_failure in *. cbn [ncalls trace] in *.
        destruct (Z.of_nat attempt <? max_retries - 1)%Z.
        -- eexists (new ++ [Slept delay; Logged ("Retrying in " +:+ pretty delay +:+ " seconds...");
                     Logged ("Error: " +:+ strip err);
                     Logged ("Command failed (attempt " +:+ pretty (attempt + 1)%nat +:+ "): "
                             +:+ command);
                     Ran (Shell command) _]).
           rewrite Htr, Hn, slept_app, commands_run_app, <- app_assoc, length_app.
           cbn. repeat split; try lia.
           ++ apply Forall_app; split; auto.
           ++ apply Forall_app; split; auto.
        -- eexists (new ++ [Logged ("Error: " +:+ strip err);
                     Logged ("Command failed (attempt " +:+ pretty (attempt + 1)%nat +:+ "): "
                             +:+ command);
                     Ran (Shell command) _]).
           rewrite Htr, Hn, slept_app, commands_run_app, <- app_assoc, length_app.
           cbn. repeat split; try lia.
           ++ rewrite app_nil_r. auto.
           ++ apply Forall_app; split; auto.
    + eexists [Ran (Shell command) _]. cbn. repeat split; auto; lia.
Qed.

(** First success: after [k] failed attempts the zero exit of attempt [k]
    is returned at once. *)
Lemma loop_first_success len : ∀ a last s k out err,
  (k < len)%nat →
  (∀ j, (j < k)%nat → failed_exit (shell (ncalls s + j)%nat (Shell command))) →
  shell (ncalls s + k)%nat (Shell command) = Exited out err 0 →
  ∃ new,
    run_az_command_async_loop shell command (Z.of_nat (a + len)) delay (seq a len) last s
      = (Ok (strip out, strip err, 0%Z), mkState (ncalls s + k + 1) (new ++ trace s))
    ∧ slept new = repeat delay k
    ∧ commands_run new = repeat (Shell command) (S k).
Proof.
  induction len as [|len IH]; intros a last s k out err Hk Hfail Hok; [lia|].
  cbn [seq]. rewrite loop_unfold.
  destruct k as [|k].
  - rewrite Nat.add_0_r in Hok. rewrite Hok. cbn.
    eexists [Ran (Shell command) _].
    split; [unfold started; do 2 f_equal; lia|].
    split; reflexivity.
  - destruct (Hfail 0%nat) as (o & e & rc & Ho & Hrc); [lia|].
    rewrite Nat.add_0_r in Ho. rewrite Ho.
    destruct (Z.eqb_spec rc 0) as [|_]; [contradiction|].
    replace (Z.of_nat (a + S len)) with (Z.of_nat (S a + len)) by lia.
    destruct (IH (S a) (Some (e, rc))
                (after_failure shell command delay a (Z.of_nat (S a + len)) e s) k out err)
      as (new & Hrun & Hs & Hc).
    + lia.
    + intros j Hj. cbn [after_failure ncalls].
      replace (S (ncalls s) + j)%nat with (ncalls s + S j)%nat by lia.
      apply Hfail. lia.
    + cbn [after_failure ncalls].
      replace (S (ncalls s) + k)%nat with (ncalls s + S k)%nat by lia. exact Hok.
    + rewrite Hrun. unfold after_failure. cbn [ncalls trace].
      assert (Hlt : (Z.of_nat a <? Z.of_nat (S a + len) - 1)%Z = true)
        by (apply Z.ltb_lt; lia).
      rewrite Hlt.
      eexists (new ++ [Slept delay; _; _; _; Ran (Shell command) _]).
      rewrite <- app_assoc, slept_app, commands_run_app, Hs, Hc.
      split; [cbn; f_equal; f_equal; lia|].
      split; cbn; [apply repeat_snoc | f_equal; apply repeat_snoc].
Qed.

(** Exhaustion: when every attempt fails, the last failure is returned. *)
Lemma loop_exhausted len : ∀ a last s out err rc,
  (∀ j, (j < len)%nat → failed_exit (shell (ncalls s + j)%nat (Shell command))) →
  shell (ncalls s + len)%nat (Shell command) = Exited out err rc →
  rc ≠ 0%Z →
  ∃ new,
    run_az_command_async_loop shell command (Z.of_nat (a + S len)) delay
      (seq a (S len)) last s
      = (Ok ("", strip err, rc), mkState (ncalls s + S len) (new ++ trace s))
    ∧ slept new = repeat delay len
    ∧ commands_run new = repeat (Shell command) (S len).
Proof.
  induction len as [|len IH]; intros a last s out err rc Hfail Hlast Hrc.
  - cbn [seq]. rewrite loop_unfold. rewrite Nat.add_0_r in Hlast. rewrite Hlast.
    destruct (Z.eqb_spec rc 0) as [|_]; [contradiction|].
    cbn [run_az_command_async_loop]. unfold after_failure, ret. cbn [ncalls trace].
    assert (Hlt : (Z.of_nat a <? Z.of_nat (a + 1) - 1)%Z = false)
      by (apply Z.ltb_ge; lia).
    rewrite Hlt.
    eexists [_; _; Ran (Shell command) _].
    split; [cbn; f_equal; f_equal; lia|]. split; reflexivity.
  - remember (S len) as len1 eqn:Hlen1.
    cbn [seq]. rewrite loop_unfold.
    destruct (Hfail 0%nat) as (o & e & rc0 & Ho & Hrc0); [lia|].
    rewrite Nat.add_0_r in Ho. rewrite Ho.
    destruct (Z.eqb_spec rc0 0) as [|_]; [contradiction|].
    replace (Z.of_nat (a + S len1)) with (Z.of_nat (S a + len1)) by lia.
    subst len1.
    destruct (IH (S a) (Some (e, rc0))
                (after_failure shell command delay a (Z.of_nat (S a + S len)) e s) out err rc)
      as (new & Hrun & Hs & Hc).
    + intros j Hj. cbn [after_failure ncalls].
      replace (S (ncalls s) + j)%nat with (ncalls s + S j)%nat by lia.
      apply Hfail. lia.
    + cbn [after_failure ncalls].
      replace (S (ncalls s) + len)%nat with (ncalls s + S len)%nat by lia. exact Hlast.
    + exact Hrc.
    + rewrite Hrun. unfold after_failure. cbn [ncalls trace].
      assert (Hlt : (Z.of_nat a <? Z.of_nat (S a + S len) - 1)%Z = true)
        by (apply Z.ltb_lt; lia).
      rewrite Hlt.
      eexists (new ++ [Slept delay; _; _; _; Ran (Shell command) _]).
      rewrite <- app_assoc, slept_app, commands_run_app, Hs, Hc.
      split; [cbn; f_equal; f_equal; lia|].
      split; cbn; [apply repeat_snoc | f_equal; apply repeat_snoc].
Qed.

End ExecutorFacts.

(** C5. With the default arguments the asynchronous executor starts at most
    three child processes, all for the given command, and every pause lasts
    5. The first zero exit code is returned at once with the (stripped)
    stdout and stderr of that attempt, after one pause per failed attempt;
    when all three attempts exit non-zero, the (stripped) stderr and the exit
    code of the third are returned with an empty stdout. Two failures
    followed by a success is the case [k = 2]. *)
Theorem run_az_command_async_default_contract
    (shell : Oracle) (command : string) (s : State) :
  let r := run_az_command_async_default shell command s in
  let attempt j := shell (ncalls s + j)%nat (Shell command) in
  ∃ new,
    trace r.2 = new ++ trace s
    ∧ (length (commands_run new) ≤ 3)%nat
    ∧ Forall (λ c, c = Shell command) (commands_run new)
    ∧ Forall (λ d, d = 5%Z) (slept new)
    ∧ (∀ k out err,
         (k < 3)%nat →
         (∀ j, (j < k)%nat → failed_exit (attempt j)) →
         attempt k = Exited out err 0 →
         r.1 = Ok (strip out, strip err, 0%Z)
         ∧ commands_run new = repeat (Shell command) (S k)
         ∧ slept new = repeat 5%Z k)
    ∧ (∀ out err rc,
         (∀ j, (j < 2)%nat → failed_exit (attempt j)) →
         attempt 2%nat = Exited out err rc →
         rc ≠ 0%Z →
         r.1 = Ok ("", strip err, rc)
         ∧ commands_run new = repeat (Shell command) 3
         ∧ slept new = [5%Z; 5%Z]).
Proof.
  intros r attempt. subst r attempt.
  unfold run_az_command_async_default, run_az_command_async.
  change (seq 0 (Z.to_nat 3)) with (seq 0 3).
  destruct (loop_bounded shell command 5 3 (seq 0 3) None s)
    as (new & Htr & _ & Hlen & Hs & Hc).
  exists new. split; [exact Htr|]. split; [exact Hlen|].
  split; [exact Hc|]. split; [exact Hs|]. split.
  - intros k out err Hk Hfail Hok.
    destruct (loop_first_success shell command 5 3 0 None s k out err Hk Hfail Hok)
      as (new' & Hrun & Hs' & Hc').
    change (Z.of_nat (0 + 3)) with 3%Z in Hrun.
    rewrite Hrun in Htr |- *. cbn [fst snd trace] in Htr |- *.
    apply app_inv_tail in Htr. subst new'. auto.
  - intros out err rc Hfail Hlast Hrc.
    destruct (loop_exhausted shell command 5 2 0 None s out err rc Hfail Hlast Hrc)
      as (new' & Hrun & Hs' & Hc').
    change (Z.of_nat (0 + 3)) with 3%Z in Hrun. change (seq 0 3) with (seq 0 3) in Hrun.
    rewrite Hrun in Htr |- *. cbn [fst snd trace] in Htr |- *.
    apply app_inv_tail in Htr. subst new'. auto.
Qed.

Lemma run_az_command_async_default_contract_witness :
  (run_az_command_async_default fails_twice "az account show" initial_state).1
  = Ok ("done", "", 0%Z).
Proof.
  destruct (run_az_command_async_default_contract fails_twice "az account show"
              initial_state) as (new & _ & _ & _ & _ & Hfirst & _).
  apply (Hfirst 2%nat " done" "").
  - lia.
  - intros j Hj. exists "", "busy ", 1%Z. cbn.
    destruct j as [|[|j]]; [split; [reflexivity|lia] ..| lia].
  - reflexivity.
Defined.

(** ** The aggregate *)

Section AggregateFacts.

Lemma map_sum_empty {A} (w : A → nat) : map_sum w ∅ = 0%nat.
Proof. unfold map_sum. apply map_fold_empty. Qed.

Lemma map_sum_insert_fresh {A} (w : A → nat) (m : gmap string A) k x :
  m !! k = None → map_sum w (<[k:=x]> m) = (map_sum w m + w x)%nat.
Proof.
  intros Hk. unfold map_sum.
  rewrite map_fold_insert_L; [reflexivity| |exact Hk].
  intros. lia.
Qed.

Lemma map_sum_insert {A} (w : A → nat) (m : gmap string A) k x :
  (map_sum w (<[k:=x]> m) + from_option w 0 (m !! k) = map_sum w m + w x)%nat.
Proof.
  destruct (m !! k) as [y|] eqn:Hk; cbn.
  - rewrite <- (insert_delete_eq m k x).
    rewrite <- (insert_delete_id m k y Hk) at 2.
    rewrite !map_sum_insert_fresh by apply lookup_delete_eq. lia.
  - rewrite map_sum_insert_fresh by exact Hk. lia.
Qed.

Lemma map_sum_zero {A} (w : A → nat) (m : gmap string A) :
  (∀ k x, m !! k = Some x → w x = 0%nat) → map_sum w m = 0%nat.
Proof.
  induction m as [|k x m Hk _ IH] using map_first_key_ind; intros Hw.
  - apply map_sum_empty.
  - rewrite map_sum_insert_fresh by exact Hk.
    rewrite IH, (Hw k x).
    + reflexivity.
    + apply lookup_insert_eq.
    + intros k' x' Hk'. apply (Hw k'). rewrite lookup_insert_ne; [exact Hk'|].
      intros ->. congruence.
Qed.

Lemma bucket_empty tag : bucket ∅ tag = [].
Proof. unfold bucket. rewrite lookup_empty. reflexivity. Qed.

Lemma bucket_insert (data : Buckets) tag l tag' :
  bucket (<[tag:=l]> data) tag' = if decide (tag = tag') then l else bucket data tag'.
Proof.
  unfold bucket. rewrite lookup_insert. destruct (decide (tag = tag')); reflexivity.
Qed.

Lemma buckets_of_append key tag d (results : Aggregate) key' :
  buckets_of (append_outcome key tag d results) key' =
  if decide (key = key')
  then <[tag := bucket (buckets_of results key) tag ++ [d]]> (buckets_of results key)
  else buckets_of results key'.
Proof.
  unfold append_outcome. unfold buckets_of at 1. rewrite lookup_insert.
  destruct (decide (key = key')); reflexivity.
Qed.

Lemma bucket_append key tag d (results : Aggregate) key' tag' :
  bucket (buckets_of (append_outcome key tag d results) key') tag' =
  if decide (key = key' ∧ tag = tag')
  then bucket (buckets_of results key) tag ++ [d]
  else bucket (buckets_of results key') tag'.
Proof.
  rewrite buckets_of_append.
  destruct (decide (key = key')) as [->|Hk].
  - rewrite bucket_insert.
    destruct (decide (tag = tag')) as [->|Ht].
    + rewrite decide_True by auto. reflexivity.
    + rewrite decide_False by (intros [_ ?]; contradiction). reflexivity.
  - rewrite decide_False by (intros [? _]; contradiction). reflexivity.
Qed.

(** Appending never removes a payload, and the appended payload is there. *)
Lemma append_outcome_keeps key tag d (results : Aggregate) key' tag' d' :
  d' ∈ bucket (buckets_of results key') tag' →
  d' ∈ bucket (buckets_of (append_outcome key tag d results) key') tag'.
Proof.
  intros Hin. rewrite bucket_append.
  destruct (decide (key = key' ∧ tag = tag')) as [[-> ->]|_]; [|exact Hin].
  apply elem_of_app. left. exact Hin.
Qed.

Lemma append_outcome_adds key tag d (results : Aggregate) :
  d ∈ bucket (buckets_of (append_outcome key tag d results) key) tag.
Proof.
  rewrite bucket_append, decide_True by auto.
  apply elem_of_app. right. apply list_elem_of_singleton. reflexivity.
Qed.

Lemma count_tag_append key tag d (results : Aggregate) tag' :
  count_tag tag' (append_outcome key tag d results) =
  (count_tag tag' results + if decide (tag = tag') then 1 else 0)%nat.
Proof.
  unfold count_tag, append_outcome.
  pose proof (map_sum_insert (λ data : Buckets, length (bucket data tag')) results key
    (<[tag := bucket (buckets_of results key) tag ++ [d]]> (buckets_of results key)))
    as Hsum.
  cbn beta in Hsum. rewrite bucket_insert in Hsum.
  assert (Hold : from_option (λ data : Buckets, length (bucket data tag')) 0%nat
                   (results !! key) = length (bucket (buckets_of results key) tag')).
  { unfold buckets_of. destruct (results !! key); cbn; [reflexivity|].
    rewrite bucket_empty. reflexivity. }
  rewrite Hold in Hsum.
  destruct (decide (tag = tag')) as [->|_].
  - rewrite length_app in Hsum. cbn in Hsum. lia.
  - lia.
Qed.

Lemma aggregate_size_append key tag d (results : Aggregate) :
  aggregate_size (append_outcome key tag d results) = S (aggregate_size results).
Proof.
  unfold aggregate_size, append_outcome.
  pose proof (map_sum_insert (map_sum (length (A:=Payload))) results key
    (<[tag := bucket (buckets_of results key) tag ++ [d]]> (buckets_of results key)))
    as Hout.
  pose proof (map_sum_insert (length (A:=Payload)) (buckets_of results key) tag
    (bucket (buckets_of results key) tag ++ [d])) as Hin.
  assert (Hold : from_option (map_sum (length (A:=Payload))) 0%nat (results !! key)
                 = map_sum (length (A:=Payload)) (buckets_of results key)).
  { unfold buckets_of. destruct (results !! key); cbn; [reflexivity|].
    rewrite map_sum_empty. reflexivity. }
  assert (Hb : from_option (length (A:=Payload)) 0%nat (buckets_of results key !! tag)
               = length (bucket (buckets_of results key) tag)).
  { unfold bucket. destruct (buckets_of results key !! tag); reflexivity. }
  rewrite Hold in Hout. rewrite Hb, length_app in Hin. cbn in Hin. lia.
Qed.

Lemma aggregate_size_empty : aggregate_size ∅ = 0%nat.
Proof. apply map_sum_empty. Qed.

Lemma count_tag_empty tag : count_tag tag ∅ = 0%nat.
Proof. apply map_sum_empty. Qed.

Lemma count_tag_absent tag (results : Aggregate) :
  tag_absent tag results → count_tag tag results = 0%nat.
Proof.
  intros Habs. apply map_sum_zero. intros k data Hk.
  unfold bucket. rewrite (Habs k data Hk). reflexivity.
Qed.

(** The merge, key by key: a key of the deletion aggregate gets the
    deletion buckets laid over the pre-validation ones. *)
Lemma merge_results_lookup (pre del : Aggregate) key :
  merge_results pre del !! key =
  match del !! key with
  | Some data => Some (data ∪ buckets_of pre key)
  | None => pre !! key
  end.
Proof.
  revert key. unfold merge_results.
  apply (map_fold_weak_ind
    (λ (r : Aggregate) (m : Aggregate), ∀ key,
       r !! key = match m !! key with
                  | Some data => Some (data ∪ buckets_of pre key)
                  | None => pre !! key
                  end)).
  - intros key. rewrite lookup_empty. reflexivity.
  - intros i x m r Hi IH key.
    rewrite !lookup_insert. destruct (decide (i = key)) as [->|Hne].
    + unfold dict_update, buckets_of. rewrite IH, Hi. reflexivity.
    + apply IH.
Qed.

Lemma buckets_of_merge (pre del : Aggregate) key :
  buckets_of (merge_results pre del) key =
  buckets_of del key ∪ buckets_of pre key.
Proof.
  unfold buckets_of at 1. rewrite merge_results_lookup.
  unfold buckets_of at 2. destruct (del !! key); cbn; [reflexivity|].
  rewrite (left_id_L ∅ (∪)). reflexivity.
Qed.

(** A bucket of the merged aggregate is the deletion bucket when the
    deletion aggregate has that tag under that key, and the pre-validation
    bucket otherwise. *)
Lemma bucket_merge (pre del : Aggregate) key tag :
  bucket (buckets_of (merge_results pre del) key) tag =
  match buckets_of del key !! tag with
  | Some l => l
  | None => bucket (buckets_of pre key) tag
  end.
Proof.
  rewrite buckets_of_merge. unfold bucket. rewrite lookup_union.
  destruct (buckets_of del key !! tag), (buckets_of pre key !! tag); reflexivity.
Qed.

Lemma count_tag_merge_pre (pre del : Aggregate) tag :
  tag_absent tag del → count_tag tag (merge_results pre del) = count_tag tag pre.
Proof.
  unfold merge_results.
  apply (map_fold_weak_ind
    (λ (r : Aggregate) (m : Aggregate),
       tag_absent tag m → count_tag tag r = count_tag tag pre)).
  - reflexivity.
  - intros i x m r Hi IH Habs.
    assert (Hx : x !! tag = None) by (apply (Habs i); apply lookup_insert_eq).
    assert (Hm : tag_absent tag m).
    { intros k data Hk. apply (Habs k). rewrite lookup_insert_ne; [exact Hk|].
      intros ->. congruence. }
    rewrite <- (IH Hm). unfold count_tag.
    pose proof (map_sum_insert (λ data : Buckets, length (bucket data tag)) r i
                  (dict_update (buckets_of r i) x)) as Hsum.
    cbn beta in Hsum.
    assert (Hold : from_option (λ data : Buckets, length (bucket data tag)) 0%nat (r !! i)
                   = length (bucket (buckets_of r i) tag)).
    { unfold buckets_of. destruct (r !! i); cbn; [reflexivity|].
      rewrite bucket_empty. reflexivity. }
    assert (Hnew : bucket (dict_update (buckets_of r i) x) tag
                   = bucket (buckets_of r i) tag).
    { unfold bucket, dict_update. rewrite lookup_union, Hx.
      destruct (buckets_of r i !! tag); reflexivity. }
    rewrite Hold, Hnew in Hsum. lia.
Qed.

Lemma count_tag_merge_del (pre del : Aggregate) tag :
  tag_absent tag pre → count_tag tag (merge_results pre del) = count_tag tag del.
Proof.
  intros Hpre. unfold merge_results.
  apply (map_fold_weak_ind
    (λ (r : Aggregate) (m : Aggregate),
       (∀ key, m !! key = None → r !! key = pre !! key)
       ∧ count_tag tag r = count_tag tag m)).
  - split; [reflexivity|].
    rewrite count_tag_empty. apply count_tag_absent. exact Hpre.
  - intros i x m r Hi [Hlook IH]. split.
    + intros key Hkey. apply lookup_insert_None in Hkey as [Hkey Hne].
      rewrite lookup_insert_ne by exact Hne. apply Hlook. exact Hkey.
    + unfold count_tag in *.
      rewrite (map_sum_insert_fresh _ m i x Hi).
      pose proof (map_sum_insert (λ data : Buckets, length (bucket data tag)) r i
                    (dict_update (buckets_of r i) x)) as Hsum.
      cbn beta in Hsum.
      assert (Hold : buckets_of r i !! tag = None).
      { unfold buckets_of. rewrite (Hlook i Hi).
        destruct (pre !! i) as [data|] eqn:Hd; cbn; [apply (Hpre i data Hd)|].
        apply lookup_empty. }
      assert (Hzero : from_option (λ data : Buckets, length (bucket data tag)) 0%nat
                        (r !! i) = 0%nat).
      { destruct (r !! i) as [data|] eqn:Hd; cbn; [|reflexivity].
        unfold buckets_of in Hold. rewrite Hd in Hold. cbn in Hold.
        unfold bucket. rewrite Hold. reflexivity. }
      assert (Hnew : bucket (dict_update (buckets_of r i) x) tag = bucket x tag).
      { unfold bucket, dict_update. rewrite lookup_union, Hold.
        destruct (x !! tag); reflexivity. }
      rewrite Hzero, Hnew in Hsum. lia.
Qed.

Lemma print_summary_counts (results : Aggregate) :
  print_summary results =
  mkTotals (count_tag "valid" results) (count_tag "non-existent" results)
           (count_tag "deleted" results) (count_tag "failed" results).
Proof.
  unfold print_summary.
  apply (map_fold_weak_ind
    (λ (t : Totals) (m : Aggregate),
       t = mkTotals (count_tag "valid" m) (count_tag "non-existent" m)
                    (count_tag "deleted" m) (count_tag "failed" m))).
  - rewrite !count_tag_empty. reflexivity.
  - intros i x m t Hi ->. cbn [total_valid total_non_existent total_deleted total_failed].
    unfold count_tag. rewrite !(map_sum_insert_fresh _ m i x Hi). reflexivity.
Qed.

End AggregateFacts.

(** ** The dispatchers *)

Lemma bind_Ok_inv {A B} (m : M A) (k : A → M B) s b s' :
  bind m k s = (Ok b, s') → ∃ a s1, m s = (Ok a, s1) ∧ k a s1 = (Ok b, s').
Proof.
  unfold bind. destruct (m s) as [[a|e] s1]; intros H; [eauto|discriminate].
Qed.

Lemma bind_Ok {A B} (m : M A) (k : A → M B) s a s1 :
  m s = (Ok a, s1) → bind m k s = k a s1.
Proof. intros H. unfold bind. rewrite H. reflexivity. Qed.

Lemma bind_Raise {A B} (m : M A) (k : A → M B) s e s1 :
  m s = (Raise e, s1) → bind m k s = (Raise e, s1).
Proof. intros H. unfold bind. rewrite H. reflexivity. Qed.

Section DispatchFacts.
Variable as_completed : ∀ A : Type, list A → list A.
Hypothesis as_completed_perm : ∀ (A : Type) (l : list A), as_completed A l ≡ₚ l.

(** Every submitted item gets one future, holding what its worker did. *)
Lemma submit_all_spec {A} (worker : string → M A) items : ∀ s,
  ∃ futures s',
    submit_all worker items s = (Ok futures, s')
    ∧ Forall2 (λ item p, p.1 = item ∧ ∃ s0, p.2 = (worker item s0).1) items futures.
Proof.
  induction items as [|item rest IH]; intros s.
  - exists [], s. split; [reflexivity|constructor].
  - cbn [submit_all]. unfold bind at 1, submit at 1.
    destruct (worker item s) as [r s1] eqn:Hw.
    destruct (IH s1) as (futures & s' & Hrest & Hall).
    unfold bind at 1. rewrite Hrest. unfold ret.
    exists ((item, r) :: futures), s'. split; [reflexivity|].
    constructor; [|exact Hall]. split; [reflexivity|].
    exists s. rewrite Hw. reflexivity.
Qed.

Lemma submit_all_settled {A} (worker : string → M A) items s futures s' :
  uninterrupted worker →
  submit_all worker items s = (Ok futures, s') →
  Forall settled futures.
Proof.
  intros Hsafe Hrun.
  destruct (submit_all_spec worker items s) as (futures' & s'' & Hrun' & Hall).
  rewrite Hrun in Hrun'. injection Hrun' as <- <-. clear Hrun.
  induction Hall as [|item p items futures [_ [s0 Hp]] _ IH]; [constructor|].
  constructor; [|exact IH].
  unfold settled. rewrite Hp. apply Hsafe.
Qed.

(** *** Pre-validation *)

Lemma pre_validate_step_spec item valid_snapshots results s :
  settled item →
  ∃ s', pre_validate_step item valid_snapshots results s
        = (Ok (pre_record item (valid_snapshots, results)), s').
Proof.
  destruct item as [snapshot_id [[[sub status] data]|[name text|]]];
    unfold settled, pre_validate_step, pre_record, try_except; cbn; intros Hset.
  - exists s. destruct sub as [n|]; cbn; [|reflexivity].
    destruct (truthy n); cbn; [|reflexivity].
    destruct (String.eqb status "valid"); reflexivity.
  - eexists. reflexivity.
  - contradiction.
Qed.

Lemma pre_validate_loop_spec completed : ∀ valid_snapshots results s,
  Forall settled completed →
  ∃ s', pre_validate_loop completed valid_snapshots results s
        = (Ok (pre_fold completed (valid_snapshots, results)), s').
Proof.
  induction completed as [|item rest IH]; intros valid_snapshots results s Hall.
  - exists s. reflexivity.
  - apply Forall_cons in Hall as [Hitem Hrest].
    destruct (pre_validate_step_spec item valid_snapshots results s Hitem) as [s1 Hstep].
    unfold pre_fold. cbn [pre_validate_loop foldl]. rewrite (bind_Ok _ _ _ _ _ Hstep).
    destruct (pre_record item (valid_snapshots, results)) as [v r].
    apply IH. exact Hrest.
Qed.

(** The pre-validation dispatcher returns whatever Exception its workers
    raise. *)
Lemma pre_validate_dispatch_spec worker snapshot_ids s :
  uninterrupted worker →
  ∃ futures s1 s',
    submit_all worker snapshot_ids s = (Ok futures, s1)
    ∧ Forall2 (λ item p, p.1 = item ∧ ∃ s0, p.2 = (worker item s0).1) snapshot_ids futures
    ∧ pre_validate_dispatch as_completed worker snapshot_ids s
      = (Ok (pre_fold (as_completed _ futures) ([], ∅)), s').
Proof.
  intros Hsafe.
  destruct (submit_all_spec worker snapshot_ids s) as (futures & s1 & Hsub & HF2).
  assert (Hset : Forall settled (as_completed _ futures)).
  { rewrite as_completed_perm. eapply submit_all_settled; eauto. }
  destruct (pre_validate_loop_spec _ [] ∅ s1 Hset) as [s' Hloop].
  exists futures, s1, s'. split; [exact Hsub|]. split; [exact HF2|].
  unfold pre_validate_dispatch. rewrite (bind_Ok _ _ _ _ _ Hsub). exact Hloop.
Qed.

(** *** Deletion *)

Lemma delete_step_spec names item results s :
  settled item →
  ∃ s', delete_step names item results s = (Ok (delete_record names item results), s').
Proof.
  destruct item as [snapshot_id [success|[name text|]]];
    unfold settled, delete_step, delete_record, try_except;
    cbn [fst snd future_result bind ret raise]; intros Hset.
  - destruct (split "/" snapshot_id !! 2%nat) as [sub|].
    + exists s. destruct success; reflexivity.
    + eexists. reflexivity.
  - eexists. reflexivity.
  - contradiction.
Qed.

Lemma delete_loop_spec names completed : ∀ results s,
  Forall settled completed →
  ∃ s', delete_loop names None completed results s
        = (Ok (delete_fold names completed results), s').
Proof.
  induction completed as [|item rest IH]; intros results s Hall.
  - exists s. reflexivity.
  - apply Forall_cons in Hall as [Hitem Hrest].
    destruct (delete_step_spec names item results s Hitem) as [s1 Hstep].
    unfold delete_fold. cbn [delete_loop foldl fmap option_fmap option_map].
    rewrite (bind_Ok _ _ _ _ _ Hstep). apply IH. exact Hrest.
Qed.

Lemma delete_dispatch_spec worker valid_snapshots names s :
  uninterrupted worker →
  ∃ futures s1 s',
    submit_all worker valid_snapshots s = (Ok futures, s1)
    ∧ Forall2 (λ item p, p.1 = item ∧ ∃ s0, p.2 = (worker item s0).1)
        valid_snapshots futures
    ∧ delete_dispatch as_completed None worker valid_snapshots names s
      = (Ok (delete_fold names (as_completed _ futures) ∅), s').
Proof.
  intros Hsafe.
  destruct (submit_all_spec worker valid_snapshots s) as (futures & s1 & Hsub & HF2).
  assert (Hset : Forall settled (as_completed _ futures)).
  { rewrite as_completed_perm. eapply submit_all_settled; eauto. }
  destruct (delete_loop_spec names _ ∅ s1 Hset) as [s' Hloop].
  exists futures, s1, s'. split; [exact Hsub|]. split; [exact HF2|].
  unfold delete_dispatch. rewrite (bind_Ok _ _ _ _ _ Hsub). exact Hloop.
Qed.

End DispatchFacts.

(** ** The workers of the delete pipeline *)

Section WorkerFacts.
Variable shell : Oracle.

(** The shell form of [run_az_command] never raises: it starts one child
    process and returns what [reply] makes of it. *)
Lemma run_az_command_shell line s :
  ∃ text s',
    run_az_command shell (Shell line) s = (Ok text, s')
    ∧ reply (Shell line) (shell (ncalls s) (Shell line)) = Ok text
    ∧ ncalls s' = S (ncalls s)
    ∧ ∃ logged, trace s' = logged ++ Ran (Shell line) (shell (ncalls s) (Shell line)) :: trace s
                ∧ commands_run logged = [].
Proof.
  unfold run_az_command, bind, spawn, reply.
  destruct (shell (ncalls s) (Shell line)) as [out err rc|name text].
  - destruct (negb (rc =? 0)%Z); eexists _, _; (split; [reflexivity|]);
      (split; [reflexivity|]); (split; [reflexivity|]); exists []; split; reflexivity.
  - eexists _, _. split; [reflexivity|]. split; [reflexivity|]. split; [reflexivity|].
    eexists [_]. split; reflexivity.
Qed.

Lemma check_snapshot_exists_returns snapshot_id s :
  ∃ found s', check_snapshot_exists shell snapshot_id s = (Ok found, s').
Proof.
  unfold check_snapshot_exists.
  destruct (run_az_command_shell ("az snapshot show --ids " +:+ snapshot_id) s)
    as (text & s' & Hrun & _).
  rewrite (bind_Ok _ _ _ _ _ Hrun). eexists _, _. reflexivity.
Qed.

Lemma delete_snapshot_returns snapshot_id s :
  ∃ success s', delete_snapshot shell snapshot_id s = (Ok success, s').
Proof.
  unfold delete_snapshot.
  destruct (run_az_command_shell ("az snapshot delete --ids " +:+ snapshot_id) s)
    as (text & s' & Hrun & _).
  rewrite (bind_Ok _ _ _ _ _ Hrun). eexists _, _. reflexivity.
Qed.

Lemma delete_snapshot_uninterrupted : uninterrupted (delete_snapshot shell).
Proof.
  intros item s. destruct (delete_snapshot_returns item s) as (b & s' & ->). discriminate.
Qed.

(** A malformed identifier is classified without any command being run. *)
Lemma process_snapshot_with_malformed check snapshot_id names s :
  malformed snapshot_id →
  process_snapshot_with check snapshot_id names s
  = (Ok (None, "invalid", WithError snapshot_id "Invalid snapshot ID format"),
     mkState (ncalls s)
       (ErrorLogged ("Invalid snapshot ID format: " +:+ snapshot_id) :: trace s)).
Proof.
  unfold malformed. intros Hlen. unfold process_snapshot_with, try_except.
  apply Nat.ltb_lt in Hlen. rewrite Hlen. reflexivity.
Qed.

(** A well-formed identifier is classified by the existence check; an
    Exception of the check becomes the error classification. *)
Lemma process_snapshot_with_wellformed check snapshot_id names s :
  ¬ malformed snapshot_id →
  let parts := split "/" snapshot_id in
  let subscription_name := default (nth 2 parts "") (names !! nth 2 parts "") in
  process_snapshot_with check snapshot_id names s =
  match check snapshot_id s with
  | (Ok true, s') => (Ok (Some subscription_name, "valid", Name (List.last parts "")), s')
  | (Ok false, s') =>
      (Ok (Some subscription_name, "non-existent", Name (List.last parts "")), s')
  | (Raise (Exception name text), s') =>
      (Ok (None, "error", WithError snapshot_id text),
       mkState (ncalls s')
         (ErrorLogged ("Error processing snapshot " +:+ snapshot_id +:+ ": " +:+ text)
          :: trace s'))
  | (Raise KeyboardInterrupt, s') => (Raise KeyboardInterrupt, s')
  end.
Proof.
  unfold malformed. intros Hlen. cbn zeta.
  unfold process_snapshot_with, try_except.
  assert (Hge : (length (split "/" snapshot_id) <? 9)%nat = false)
    by (apply Nat.ltb_ge; lia).
  rewrite Hge. unfold bind.
  destruct (check snapshot_id s) as [[[|]|[name text|]] s']; reflexivity.
Qed.

(** The statuses a classification can carry. *)
Lemma process_snapshot_with_status check snapshot_id names s :
  match (process_snapshot_with check snapshot_id names s).1 with
  | Ok (subscription_name, status, _) =>
      status ∈ ["invalid"; "non-existent"; "valid"; "error"]
      ∧ (deletable subscription_name status = true → ¬ malformed snapshot_id)
  | Raise e => e = KeyboardInterrupt
  end.
Proof.
  destruct (decide (malformed snapshot_id)) as [Hbad|Hgood].
  - rewrite process_snapshot_with_malformed by exact Hbad. cbn.
    split; [set_solver|discriminate].
  - rewrite process_snapshot_with_wellformed by exact Hgood.
    destruct (check snapshot_id s) as [[[|]|[name text|]] s']; cbn;
      try (split; [set_solver|auto]); reflexivity.
Qed.

Lemma process_snapshot_returns snapshot_id names s :
  ∃ subscription_name status data s',
    process_snapshot shell snapshot_id names s = (Ok (subscription_name, status, data), s')
    ∧ status ∈ ["invalid"; "non-existent"; "valid"]
    ∧ (deletable subscription_name status = true → ¬ malformed snapshot_id).
Proof.
  unfold process_snapshot.
  destruct (decide (malformed snapshot_id)) as [Hbad|Hgood].
  - rewrite process_snapshot_with_malformed by exact Hbad.
    eexists _, _, _, _. split; [reflexivity|]. split; [set_solver|discriminate].
  - rewrite process_snapshot_with_wellformed by exact Hgood.
    destruct (check_snapshot_exists_returns snapshot_id s) as ([|] & s' & ->);
      eexists _, _, _, _; (split; [reflexivity|]); (split; [set_solver|auto]).
Qed.

Lemma process_snapshot_uninterrupted names :
  uninterrupted (λ snapshot_id, process_snapshot shell snapshot_id names).
Proof.
  intros item s.
  destruct (process_snapshot_returns item names s) as (a & b & c & s' & -> & _).
  discriminate.
Qed.

End WorkerFacts.

(** ** What the dispatch loops accumulate *)

Section FoldFacts.

Lemma tag_absent_empty tag : tag_absent tag ∅.
Proof. intros key data H. rewrite lookup_empty in H. discriminate. Qed.

Lemma tag_absent_append tag key status d (results : Aggregate) :
  tag_absent tag results → status ≠ tag →
  tag_absent tag (append_outcome key status d results).
Proof.
  intros Habs Hne key' data. unfold append_outcome. rewrite lookup_insert.
  destruct (decide (key = key')) as [->|_]; [|apply Habs].
  intros [= <-]. rewrite lookup_insert_ne by exact Hne.
  unfold buckets_of. destruct (results !! key') as [old|] eqn:Hold; cbn.
  - apply (Habs key' old Hold).
  - apply lookup_empty.
Qed.

Lemma futures_of_items {A} (worker : string → M A) items futures :
  Forall2 (λ item p, p.1 = item ∧ ∃ s0, p.2 = (worker item s0).1) items futures →
  Forall (λ p, p.1 ∈ items ∧ ∃ s0, p.2 = (worker p.1 s0).1) futures.
Proof.
  intros Hall.
  induction Hall as [|item p items futures [<- [s0 Hp]] _ IH]; constructor.
  - split; [apply list_elem_of_here|]. exists s0. exact Hp.
  - eapply Forall_impl; [exact IH|]. cbn. intros q [Hq Hs].
    split; [apply list_elem_of_further; exact Hq|exact Hs].
Qed.

Lemma future_of_item {A} (worker : string → M A) items futures item :
  Forall2 (λ item p, p.1 = item ∧ ∃ s0, p.2 = (worker item s0).1) items futures →
  item ∈ items →
  ∃ s0, (item, (worker item s0).1) ∈ futures.
Proof.
  intros Hall Hin.
  induction Hall as [|item' p items futures [Hfst [s0 Hp]] _ IH].
  - apply elem_of_nil in Hin. contradiction.
  - apply elem_of_cons in Hin as [->|Hin].
    + exists s0. destruct p as [i f]. cbn in *. subst. apply list_elem_of_here.
    + destruct (IH Hin) as [s1 H1]. exists s1. apply list_elem_of_further. exact H1.
Qed.

(** *** Pre-validation *)

Lemma pre_record_keeps item acc key tag d :
  d ∈ bucket (buckets_of acc.2 key) tag →
  d ∈ bucket (buckets_of (pre_record item acc).2 key) tag.
Proof.
  unfold pre_record. destruct item.2 as [[[sub status] data]|e]; cbn; [|auto].
  apply append_outcome_keeps.
Qed.

Lemma pre_fold_keeps completed : ∀ acc key tag d,
  d ∈ bucket (buckets_of acc.2 key) tag →
  d ∈ bucket (buckets_of (pre_fold completed acc).2 key) tag.
Proof.
  induction completed as [|item rest IH]; intros acc key tag d Hin; [exact Hin|].
  apply (IH (pre_record item acc)). apply pre_record_keeps. exact Hin.
Qed.

(** Every classification a future returns is filed, under the key the
    dispatcher derives from it. *)
Lemma pre_fold_records completed : ∀ acc item sub status data,
  item ∈ completed → item.2 = Ok (sub, status, data) →
  data ∈ bucket (buckets_of (pre_fold completed acc).2 (classify_key sub)) status.
Proof.
  induction completed as [|item' rest IH]; intros acc item sub status data Hin Hok.
  - apply elem_of_nil in Hin. contradiction.
  - apply elem_of_cons in Hin as [<-|Hin].
    + apply (pre_fold_keeps rest (pre_record item acc)).
      unfold pre_record. rewrite Hok. cbn. apply append_outcome_adds.
    + apply (IH (pre_record item' acc) item); assumption.
Qed.

(** Only a future that returned a ["valid"] classification under a truthy
    name puts its identifier on the deletion list. *)
Lemma pre_fold_valid completed : ∀ acc snapshot_id,
  snapshot_id ∈ (pre_fold completed acc).1 →
  snapshot_id ∈ acc.1
  ∨ ∃ sub status data,
      (snapshot_id, Ok (sub, status, data)) ∈ completed ∧ deletable sub status = true.
Proof.
  induction completed as [|item rest IH]; intros acc snapshot_id Hin; [left; exact Hin|].
  destruct (IH (pre_record item acc) snapshot_id Hin) as [Hacc|(sub & st & d & Hm & Hd)].
  - unfold pre_record in Hacc. destruct item as [i [[[sub status] data]|e]]; cbn in Hacc.
    + destruct (deletable sub status) eqn:Hd; [|left; exact Hacc].
      apply elem_of_app in Hacc as [Hacc|Hi]; [left; exact Hacc|].
      apply list_elem_of_singleton in Hi as ->.
      right. exists sub, status, data. split; [apply list_elem_of_here|exact Hd].
    + left. exact Hacc.
  - right. exists sub, st, d. split; [apply list_elem_of_further; exact Hm|exact Hd].
Qed.

Lemma pre_fold_size completed : ∀ acc,
  Forall (λ p, ∃ c, p.2 = Ok c) completed →
  aggregate_size (pre_fold completed acc).2
  = (aggregate_size acc.2 + length completed)%nat.
Proof.
  induction completed as [|item rest IH]; intros acc Hall; [cbn; lia|].
  apply Forall_cons in Hall as [[c Hc] Hrest].
  change (pre_fold (item :: rest) acc) with (pre_fold rest (pre_record item acc)).
  rewrite (IH _ Hrest). unfold pre_record. rewrite Hc.
  destruct c as [[sub status] data]. cbn [snd length].
  rewrite aggregate_size_append. lia.
Qed.

Lemma deletable_valid sub status : deletable sub status = true → status = "valid".
Proof.
  unfold deletable. destruct sub as [n|]; [|discriminate].
  intros H. apply andb_true_iff in H as [_ H]. apply String.eqb_eq. exact H.
Qed.

Lemma pre_fold_counts completed : ∀ acc,
  Forall preflight_future completed →
  counted3 (pre_fold completed acc).2 = (counted3 acc.2 + length completed)%nat
  ∧ (length (pre_fold completed acc).1 + count_tag "valid" acc.2
     ≤ length acc.1 + count_tag "valid" (pre_fold completed acc).2)%nat
  ∧ (Forall (λ i, ¬ malformed i) acc.1 →
     Forall (λ i, ¬ malformed i) (pre_fold completed acc).1)
  ∧ (∀ tag, tag ∉ ["invalid"; "non-existent"; "valid"] →
     tag_absent tag acc.2 → tag_absent tag (pre_fold completed acc).2).
Proof.
  induction completed as [|item rest IH]; intros acc Hall.
  - cbn. repeat split; auto; lia.
  - apply Forall_cons in Hall as [(sub & status & data & Hok & Hst & Hdel) Hrest].
    change (pre_fold (item :: rest) acc) with (pre_fold rest (pre_record item acc)).
    destruct (IH (pre_record item acc) Hrest) as (Hc & Hv & Hm & Ht).
    assert (Hrec : pre_record item acc
                   = (if deletable sub status then acc.1 ++ [item.1] else acc.1,
                      append_outcome (classify_key sub) status data acc.2))
      by (unfold pre_record; rewrite Hok; reflexivity).
    rewrite Hrec in Hc, Hv, Hm, Ht |- *. cbn [fst snd] in Hc, Hv, Hm, Ht |- *.
    unfold counted3 in *. rewrite !count_tag_append in Hc.
    rewrite count_tag_append in Hv.
    split; [|split; [|split]].
    + cbn [length].
      assert (Hone : ((if decide (status = "valid") then 1 else 0)
                      + (if decide (status = "non-existent") then 1 else 0)
                      + (if decide (status = "invalid") then 1 else 0) = 1)%nat).
      { repeat (apply elem_of_cons in Hst as [->|Hst]); [reflexivity..|].
        apply elem_of_nil in Hst. contradiction. }
      lia.
    + destruct (deletable sub status) eqn:Hd.
      * pose proof (deletable_valid _ _ Hd) as ->.
        rewrite decide_True in Hv by reflexivity.
        rewrite length_app in Hv. cbn [length] in Hv. lia.
      * destruct (decide (status = "valid")); lia.
    + intros Hacc. apply Hm. destruct (deletable sub status) eqn:Hd; [|exact Hacc].
      apply Forall_app. split; [exact Hacc|]. constructor; [auto|constructor].
    + intros tag Htag Habs. apply (Ht tag Htag). apply tag_absent_append; [exact Habs|].
      intros ->. contradiction.
Qed.

(** *** Deletion *)

Lemma delete_record_keeps names item (results : Aggregate) key tag d :
  d ∈ bucket (buckets_of results key) tag →
  d ∈ bucket (buckets_of (delete_record names item results) key) tag.
Proof.
  unfold delete_record.
  destruct item.2 as [[|]|e], (split "/" item.1 !! 2%nat); apply append_outcome_keeps.
Qed.

Lemma delete_fold_keeps names completed : ∀ (results : Aggregate) key tag d,
  d ∈ bucket (buckets_of results key) tag →
  d ∈ bucket (buckets_of (delete_fold names completed results) key) tag.
Proof.
  induction completed as [|item rest IH]; intros results key tag d Hin; [exact Hin|].
  apply (IH (delete_record names item results)). apply delete_record_keeps. exact Hin.
Qed.

(** Every fault a deletion future holds is on record. *)
Lemma delete_fold_faults names completed : ∀ (results : Aggregate) snapshot_id e,
  (snapshot_id, Raise e) ∈ completed →
  records_fault (delete_fold names completed results) snapshot_id (str_exn e).
Proof.
  unfold records_fault.
  induction completed as [|item rest IH]; intros results snapshot_id e Hin.
  - apply elem_of_nil in Hin. contradiction.
  - apply elem_of_cons in Hin as [<-|Hin].
    + apply (delete_fold_keeps names rest).
      unfold delete_record. cbn [fst snd].
      destruct (split "/" snapshot_id !! 2%nat); apply append_outcome_adds.
    + apply (IH (delete_record names item results)). exact Hin.
Qed.

Lemma delete_fold_size names completed : ∀ (results : Aggregate),
  aggregate_size (delete_fold names completed results)
  = (aggregate_size results + length completed)%nat.
Proof.
  induction completed as [|item rest IH]; intros results; [cbn; lia|].
  change (delete_fold names (item :: rest) results)
    with (delete_fold names rest (delete_record names item results)).
  rewrite IH. unfold delete_record. cbn [length].
  destruct item.2 as [[|]|e], (split "/" item.1 !! 2%nat);
    rewrite aggregate_size_append; lia.
Qed.

Lemma wellformed_subscription snapshot_id :
  ¬ malformed snapshot_id → is_Some (split "/" snapshot_id !! 2%nat).
Proof. unfold malformed. intros H. apply lookup_lt_is_Some. lia. Qed.

Lemma delete_fold_counts names completed : ∀ (results : Aggregate),
  Forall deletion_future completed →
  (count_tag "deleted" (delete_fold names completed results)
   + count_tag "failed" (delete_fold names completed results)
   = count_tag "deleted" results + count_tag "failed" results + length completed)%nat
  ∧ (∀ tag, tag ∉ ["deleted"; "failed"] →
     tag_absent tag results → tag_absent tag (delete_fold names completed results)).
Proof.
  induction completed as [|item rest IH]; intros results Hall.
  - cbn. split; [lia|auto].
  - apply Forall_cons in Hall as [[[success Hok] Hwf] Hrest].
    change (delete_fold names (item :: rest) results)
      with (delete_fold names rest (delete_record names item results)).
    destruct (IH (delete_record names item results) Hrest) as [Hc Ht].
    destruct (wellformed_subscription _ Hwf) as [sub Hsub].
    unfold delete_record in Hc, Ht |- *. rewrite Hok, Hsub in Hc, Ht |- *.
    split.
    + cbn [length]. destruct success; rewrite !count_tag_append in Hc;
        repeat case_decide; try congruence; lia.
    + intros tag Htag Habs. apply (Ht tag Htag).
      destruct success; (apply tag_absent_append; [exact Habs|]); intros <-;
        apply Htag; set_solver.
Qed.

End FoldFacts.

(** ** The pre-flight worker *)

(** C10. [process_snapshot] always returns one classification, whose status
    is one of the four tags. For any existence check put in its place, the
    only thing that can come out of the worker uncaught is an interrupt, and
    an Exception raised by the check on a well-formed identifier becomes the
    error classification carrying the identifier and the exception text. *)
Theorem process_snapshot_total
    (shell : Oracle) (snapshot_id : string) (names : gmap string string) (s : State) :
  (∃ subscription_name status data s',
     process_snapshot shell snapshot_id names s = (Ok (subscription_name, status, data), s')
     ∧ status ∈ ["invalid"; "non-existent"; "valid"; "error"])
  ∧ (∀ check : string → M bool,
       match (process_snapshot_with check snapshot_id names s).1 with
       | Ok (_, status, _) => status ∈ ["invalid"; "non-existent"; "valid"; "error"]
       | Raise e => e = KeyboardInterrupt
       end)
  ∧ (∀ (check : string → M bool) name text s1,
       ¬ malformed snapshot_id →
       check snapshot_id s = (Raise (Exception name text), s1) →
       (process_snapshot_with check snapshot_id names s).1
       = Ok (None, "error", WithError snapshot_id text)).
Proof.
  split; [|split].
  - destruct (process_snapshot_returns shell snapshot_id names s)
      as (sub & status & data & s' & Hrun & Hst & _).
    exists sub, status, data, s'. split; [exact Hrun|]. set_solver.
  - intros check.
    pose proof (process_snapshot_with_status check snapshot_id names s) as H.
    destruct (process_snapshot_with check snapshot_id names s).1 as [[[sub status] data]|e];
      [apply H|exact H].
  - intros check name text s1 Hwf Hcheck.
    rewrite process_snapshot_with_wellformed by exact Hwf. rewrite Hcheck. reflexivity.
Qed.

Lemma process_snapshot_total_witness :
  (process_snapshot_with faulty_check snap_1 ∅ initial_state).1
  = Ok (None, "error", WithError snap_1 "boom").
Proof.
  destruct (process_snapshot_total all_succeed snap_1 ∅ initial_state) as (_ & _ & Hfault).
  apply (Hfault faulty_check "RuntimeError" "boom" initial_state).
  - unfold malformed. vm_compute. lia.
  - reflexivity.
Defined.

(** C6. An identifier with fewer than nine path segments is classified
    ["invalid"] by the pre-flight worker, which returns normally and runs
    no command; in a batch, its payload is filed under the ["Unknown"] key,
    the dispatcher returns, and the identifier is not handed to deletion. *)
Theorem malformed_snapshot_id_is_invalid
    (shell : Oracle) (as_completed : ∀ A : Type, list A → list A)
    (snapshot_id : string) (names : gmap string string) :
  malformed snapshot_id →
  (∀ s,
     process_snapshot shell snapshot_id names s
     = (Ok (None, "invalid", WithError snapshot_id "Invalid snapshot ID format"),
        mkState (ncalls s)
          (ErrorLogged ("Invalid snapshot ID format: " +:+ snapshot_id) :: trace s)))
  ∧ ((∀ (A : Type) (l : list A), as_completed A l ≡ₚ l) →
     ∀ snapshot_ids s,
       snapshot_id ∈ snapshot_ids →
       ∃ valid_snapshots results s',
         pre_validate_snapshots shell as_completed snapshot_ids names s
         = (Ok (valid_snapshots, results), s')
         ∧ WithError snapshot_id "Invalid snapshot ID format"
           ∈ bucket (buckets_of results "Unknown") "invalid"
         ∧ snapshot_id ∉ valid_snapshots).
Proof.
  intros Hbad. split.
  - intros s. apply process_snapshot_with_malformed. exact Hbad.
  - intros Hperm snapshot_ids s Hin.
    destruct (pre_validate_dispatch_spec as_completed Hperm
                (λ i, process_snapshot shell i names) snapshot_ids s
                (process_snapshot_uninterrupted shell names))
      as (futures & s1 & s' & _ & HF2 & Hrun).
    unfold pre_validate_snapshots. rewrite Hrun.
    destruct (pre_fold (as_completed _ futures) ([], ∅)) as [valid results] eqn:Hfold.
    exists valid, results, s'. split; [reflexivity|]. split.
    + destruct (future_of_item _ _ _ _ HF2 Hin) as [s0 Hfut].
      cbn beta in Hfut. unfold process_snapshot in Hfut.
      rewrite process_snapshot_with_malformed in Hfut by exact Hbad. cbn [fst] in Hfut.
      rewrite <- (Hperm _ futures) in Hfut.
      pose proof (pre_fold_records _ ([], ∅) _ None "invalid" _ Hfut eq_refl) as Hrec.
      rewrite Hfold in Hrec. exact Hrec.
    + intros Hvalid.
      pose proof (pre_fold_valid (as_completed _ futures) ([], ∅) snapshot_id) as Hv.
      rewrite Hfold in Hv. destruct (Hv Hvalid) as [Hnil|(sub & st & d & Hm & Hd)].
      * apply elem_of_nil in Hnil. exact Hnil.
      * rewrite (Hperm _ futures) in Hm.
        pose proof (futures_of_items _ _ _ HF2) as Hall.
        rewrite Forall_forall in Hall. destruct (Hall _ Hm) as [_ [s0 Hs0]].
        cbn [fst snd] in Hs0.
        pose proof (process_snapshot_with_status (check_snapshot_exists shell)
                      snapshot_id names s0) as Hst.
        unfold process_snapshot in Hs0. rewrite <- Hs0 in Hst.
        destruct Hst as [_ Hwf]. exact (Hwf Hd Hbad).
Qed.

Lemma malformed_snapshot_id_is_invalid_witness :
  process_snapshot all_succeed "not/a/snapshot" ∅ initial_state
  = (Ok (None, "invalid", WithError "not/a/snapshot" "Invalid snapshot ID format"),
     mkState 0 [ErrorLogged "Invalid snapshot ID format: not/a/snapshot"]).
Proof.
  refine (proj1 (malformed_snapshot_id_is_invalid all_succeed in_order
                   "not/a/snapshot" ∅ _) initial_state).
  unfold malformed. vm_compute. lia.
Defined.

(** ** Faults at the dispatch boundary *)

Lemma process_snapshot_with_uninterrupted check names :
  uninterrupted check →
  uninterrupted (λ snapshot_id, process_snapshot_with check snapshot_id names).
Proof.
  intros Hsafe item s. cbn beta.
  destruct (decide (malformed item)) as [Hbad|Hgood].
  - rewrite process_snapshot_with_malformed by exact Hbad. discriminate.
  - rewrite process_snapshot_with_wellformed by exact Hgood.
    pose proof (Hsafe item s) as Hs.
    destruct (check item s) as [[[|]|[name text|]] s']; cbn in *;
      try discriminate. contradiction.
Qed.

(** C3, as the code has it. Neither dispatcher re-raises an Exception of a
    worker. The deletion dispatcher files every fault of a future under
    ["Unknown"]/["error"] with the identifier and the fault text. The
    pre-validation dispatcher files the classifications its futures return;
    the error outcome of that pass is made by the worker [process_snapshot],
    which turns an Exception of its own body into the error classification
    with the identifier and the text. *)
Theorem dispatchers_contain_worker_faults
    (as_completed : ∀ A : Type, list A → list A) :
  (∀ (A : Type) (l : list A), as_completed A l ≡ₚ l) →
  (∀ (worker : string → M bool) snapshot_ids names s,
     uninterrupted worker →
     ∃ futures s1 results s',
       submit_all worker snapshot_ids s = (Ok futures, s1)
       ∧ delete_dispatch as_completed None worker snapshot_ids names s = (Ok results, s')
       ∧ ∀ snapshot_id e,
           (snapshot_id, Raise e) ∈ futures →
           records_fault results snapshot_id (str_exn e))
  ∧ (∀ (worker : string → M Classification) snapshot_ids s,
       uninterrupted worker →
       ∃ acc s', pre_validate_dispatch as_completed worker snapshot_ids s = (Ok acc, s'))
  ∧ (∀ (check : string → M bool) snapshot_ids names s,
       uninterrupted check →
       ∃ futures s1 valid_snapshots results s',
         submit_all (λ i, process_snapshot_with check i names) snapshot_ids s
         = (Ok futures, s1)
         ∧ pre_validate_dispatch as_completed
             (λ i, process_snapshot_with check i names) snapshot_ids s
           = (Ok (valid_snapshots, results), s')
         ∧ (∀ snapshot_id text,
              (snapshot_id, Ok (None, "error", WithError snapshot_id text)) ∈ futures →
              records_fault results snapshot_id text)
         ∧ (∀ snapshot_id s0 name text s0',
              ¬ malformed snapshot_id →
              check snapshot_id s0 = (Raise (Exception name text), s0') →
              (process_snapshot_with check snapshot_id names s0).1
              = Ok (None, "error", WithError snapshot_id text))).
Proof.
  intros Hperm. split; [|split].
  - intros worker snapshot_ids names s Hsafe.
    destruct (delete_dispatch_spec as_completed Hperm worker snapshot_ids names s Hsafe)
      as (futures & s1 & s' & Hsub & _ & Hrun).
    exists futures, s1, (delete_fold names (as_completed _ futures) ∅), s'.
    split; [exact Hsub|]. split; [exact Hrun|].
    intros snapshot_id e Hin. apply delete_fold_faults.
    rewrite (Hperm _ futures). exact Hin.
  - intros worker snapshot_ids s Hsafe.
    destruct (pre_validate_dispatch_spec as_completed Hperm worker snapshot_ids s Hsafe)
      as (futures & s1 & s' & _ & _ & Hrun).
    eexists _, s'. exact Hrun.
  - intros check snapshot_ids names s Hsafe.
    destruct (pre_validate_dispatch_spec as_completed Hperm
                (λ i, process_snapshot_with check i names) snapshot_ids s
                (process_snapshot_with_uninterrupted check names Hsafe))
      as (futures & s1 & s' & Hsub & _ & Hrun).
    destruct (pre_fold (as_completed _ futures) ([], ∅)) as [valid results] eqn:Hfold.
    exists futures, s1, valid, results, s'.
    split; [exact Hsub|]. split; [exact Hrun|]. split.
    + intros snapshot_id text Hin. rewrite <- (Hperm _ futures) in Hin.
      pose proof (pre_fold_records _ ([], ∅) _ None "error" _ Hin eq_refl) as Hrec.
      rewrite Hfold in Hrec. exact Hrec.
    + intros snapshot_id s0 name text s0' Hwf Hcheck.
      rewrite process_snapshot_with_wellformed by exact Hwf. rewrite Hcheck. reflexivity.
Qed.

Lemma dispatchers_contain_worker_faults_witness :
  ∃ futures s1 results s',
    submit_all faulty_delete [snap_2] initial_state = (Ok futures, s1)
    ∧ delete_dispatch in_order None faulty_delete [snap_2] ∅ initial_state
      = (Ok results, s')
    ∧ ∀ snapshot_id e,
        (snapshot_id, Raise e) ∈ futures → records_fault results snapshot_id (str_exn e).
Proof.
  destruct (dispatchers_contain_worker_faults in_order) as (Hdel & _ & _).
  - intros A l. reflexivity.
  - apply Hdel. intros item s. discriminate.
Defined.

(** C3 as stated fails for the pre-validation dispatcher: the worker
    invocation for [snap_1] raises, the dispatcher returns, and the
    aggregate holds no outcome at all for that identifier. *)
Lemma pre_validation_drops_worker_fault :
  (faulty_worker snap_1 initial_state).1 = Raise (Exception "RuntimeError" "boom")
  ∧ ∃ valid_snapshots results s',
      pre_validate_dispatch in_order faulty_worker [snap_1] initial_state
      = (Ok (valid_snapshots, results), s')
      ∧ aggregate_size results = 0%nat
      ∧ ¬ records_fault results snap_1 "boom".
Proof.
  split; [reflexivity|].
  exists [], ∅, (mkState 0 [ErrorLogged "Error processing future: boom"]).
  split; [reflexivity|]. split; [apply aggregate_size_empty|].
  unfold records_fault, buckets_of. rewrite lookup_empty. cbn.
  rewrite bucket_empty. apply not_elem_of_nil.
Qed.

(** ** The totals row *)

Section Totals.
Variable shell : Oracle.
Variable json_loads_locks : string → option (list Lock).
Variable as_completed : ∀ A : Type, list A → list A.
Hypothesis as_completed_perm : ∀ (A : Type) (l : list A), as_completed A l ≡ₚ l.

(** Pre-validation files exactly one outcome per identifier, under one of
    three tags, and hands over only well-formed identifiers. *)
Lemma pre_validate_snapshots_spec snapshot_ids names s :
  ∃ valid_snapshots results s',
    pre_validate_snapshots shell as_completed snapshot_ids names s
    = (Ok (valid_snapshots, results), s')
    ∧ aggregate_size results = length snapshot_ids
    ∧ counted3 results = length snapshot_ids
    ∧ (length valid_snapshots ≤ count_tag "valid" results)%nat
    ∧ Forall (λ i, ¬ malformed i) valid_snapshots
    ∧ tag_absent "deleted" results
    ∧ tag_absent "failed" results.
Proof.
  destruct (pre_validate_dispatch_spec as_completed as_completed_perm
              (λ i, process_snapshot shell i names) snapshot_ids s
              (process_snapshot_uninterrupted shell names))
    as (futures & s1 & s' & _ & HF2 & Hrun).
  assert (Hpre : Forall preflight_future (as_completed _ futures)).
  { rewrite as_completed_perm.
    eapply Forall_impl; [exact (futures_of_items _ _ _ HF2)|].
    cbn beta. intros [i f] [_ [s0 Hf]]. cbn [fst snd] in Hf.
    destruct (process_snapshot_returns shell i names s0)
      as (sub & status & data & s0' & Hret & Hst & Hdel).
    rewrite Hret in Hf. exists sub, status, data. cbn [fst snd]. auto. }
  assert (Hok : Forall (λ p : string * Future Classification, ∃ c, p.2 = Ok c)
                  (as_completed _ futures)).
  { eapply Forall_impl; [exact Hpre|].
    intros p (sub & status & data & Hp & _). eauto. }
  assert (Hlen : length (as_completed _ futures) = length snapshot_ids).
  { rewrite as_completed_perm. symmetry. eapply Forall2_length. exact HF2. }
  pose proof (pre_fold_size _ ([], ∅) Hok) as Hsize.
  destruct (pre_fold_counts _ ([], ∅) Hpre) as (Hc & Hv & Hm & Ht).
  unfold pre_validate_snapshots. rewrite Hrun.
  destruct (pre_fold (as_completed _ futures) ([], ∅)) as [valid results].
  cbn [fst snd] in *.
  exists valid, results, s'. split; [reflexivity|].
  rewrite aggregate_size_empty in Hsize. unfold counted3 in Hc at 2.
  repeat rewrite count_tag_empty in Hc. rewrite count_tag_empty in Hv.
  cbn [length] in Hv.
  split; [lia|]. split; [lia|]. split; [lia|].
  split; [apply Hm; constructor|].
  split; apply Ht; try apply tag_absent_empty;
    intros Hin; repeat (apply elem_of_cons in Hin as [Hin|Hin]; [discriminate Hin|]);
    apply elem_of_nil in Hin; exact Hin.
Qed.

(** Deletion files exactly one outcome per snapshot it is given; for
    well-formed identifiers that outcome is ["deleted"] or ["failed"]. *)
Lemma delete_valid_snapshots_spec valid_snapshots names s :
  Forall (λ i, ¬ malformed i) valid_snapshots →
  ∃ results s',
    delete_valid_snapshots shell as_completed None valid_snapshots names s
    = (Ok results, s')
    ∧ aggregate_size results = length valid_snapshots
    ∧ (count_tag "deleted" results + count_tag "failed" results
       = length valid_snapshots)%nat
    ∧ tag_absent "valid" results
    ∧ tag_absent "non-existent" results.
Proof.
  intros Hwf.
  destruct (delete_dispatch_spec as_completed as_completed_perm
              (delete_snapshot shell) valid_snapshots names s
              (delete_snapshot_uninterrupted shell))
    as (futures & s1 & s' & _ & HF2 & Hrun).
  assert (Hdel : Forall deletion_future (as_completed _ futures)).
  { rewrite as_completed_perm.
    eapply Forall_impl; [exact (futures_of_items _ _ _ HF2)|].
    cbn beta. intros [i f] [Hi [s0 Hf]]. cbn [fst snd] in Hi, Hf.
    destruct (delete_snapshot_returns shell i s0) as (b & s0' & Hret).
    rewrite Hret in Hf. split; cbn [fst snd]; [eauto|].
    rewrite Forall_forall in Hwf. apply Hwf. exact Hi. }
  assert (Hlen : length (as_completed _ futures) = length valid_snapshots).
  { rewrite as_completed_perm. symmetry. eapply Forall2_length. exact HF2. }
  pose proof (delete_fold_size names (as_completed _ futures) ∅) as Hsize.
  destruct (delete_fold_counts names _ ∅ Hdel) as [Hc Ht].
  unfold delete_valid_snapshots. rewrite Hrun.
  eexists _, s'. split; [reflexivity|].
  rewrite aggregate_size_empty in Hsize. repeat rewrite count_tag_empty in Hc.
  split; [lia|]. split; [lia|].
  split; apply Ht; try apply tag_absent_empty;
    intros Hin; repeat (apply elem_of_cons in Hin as [Hin|Hin]; [discriminate Hin|]);
    apply elem_of_nil in Hin; exact Hin.
Qed.

(** The totals row of a merged aggregate reads the first two columns from
    the pre-validation pass and the last two from the deletion pass. *)
Lemma print_summary_merge (pre del : Aggregate) :
  tag_absent "deleted" pre → tag_absent "failed" pre →
  tag_absent "valid" del → tag_absent "non-existent" del →
  print_summary (merge_results pre del)
  = mkTotals (count_tag "valid" pre) (count_tag "non-existent" pre)
             (count_tag "deleted" del) (count_tag "failed" del).
Proof.
  intros Hd Hf Hv Hn. rewrite print_summary_counts.
  rewrite (count_tag_merge_pre pre del "valid" Hv).
  rewrite (count_tag_merge_pre pre del "non-existent" Hn).
  rewrite (count_tag_merge_del pre del "deleted" Hd).
  rewrite (count_tag_merge_del pre del "failed" Hf).
  reflexivity.
Qed.

End Totals.

Lemma returned_Ok {A} (r : outcome A * State) (a : A) :
  returned r = Some a → ∃ s', r = (Ok a, s').
Proof.
  unfold returned. destruct r as [[a'|e] s']; cbn; intros [= <-]. eauto.
Qed.

(** ** The lock guard *)

Lemma ran_app tr1 tr2 : ran (tr1 ++ tr2) = ran tr1 ++ ran tr2.
Proof.
  induction tr1 as [|e tr1 IH]; [reflexivity|].
  destruct e; cbn; rewrite IH; reflexivity.
Qed.

Section LockFacts.
Variable shell : Oracle.
Variable json_loads_locks : string → option (list Lock).

(** One shell command through [run_az_command]: one child process, whose
    reply is returned. *)
Lemma run_az_command_shell_ran line s :
  ∃ text new,
    run_az_command shell (Shell line) s
    = (Ok text, mkState (S (ncalls s)) (new ++ trace s))
    ∧ ran new = [(Shell line, shell (ncalls s) (Shell line))]
    ∧ reply (Shell line) (shell (ncalls s) (Shell line)) = Ok text.
Proof.
  unfold run_az_command, bind, spawn, reply.
  destruct (shell (ncalls s) (Shell line)) as [out err rc|name text].
  - destruct (negb (rc =? 0)%Z); eexists _, [_]; (split; [reflexivity|]);
      split; reflexivity.
  - eexists _, [_; _]. split; [reflexivity|]. split; reflexivity.
Qed.

Lemma run_az_command_argv_ran args s :
  ∃ r new,
    run_az_command shell (Argv args) s = (r, mkState (S (ncalls s)) (new ++ trace s))
    ∧ ran new = [(Argv args, shell (ncalls s) (Argv args))].
Proof.
  unfold run_az_command, bind, spawn. cbv beta.
  destruct (shell (ncalls s) (Argv args)) as [out err rc|name text].
  - destruct (rc =? 0)%Z.
    + eexists _, [_]. split; reflexivity.
    + eexists _, [_; _]. split; reflexivity.
  - eexists _, [_; _]. split; reflexivity.
Qed.

(** A subscription switch runs argument-vector commands only. *)
Lemma switch_subscription_ran subscription current s :
  ∃ new,
    trace (switch_subscription shell subscription current s).2 = new ++ trace s
    ∧ Forall (λ run : Command * ProcOutcome, ∃ args, run.1 = Argv args) (ran new).
Proof.
  unfold switch_subscription.
  destruct (negb (bool_decide (Some subscription = current))).
  - destruct (run_az_command_argv_ran
                ["az"; "account"; "set"; "--subscription"; subscription] s)
      as (r & new & Hrun & Hran).
    unfold try_except, bind. rewrite Hrun.
    destruct r as [text|[name text|]].
    + exists new. split; [reflexivity|]. rewrite Hran. repeat constructor. eauto.
    + eexists (_ :: new). split; [reflexivity|]. cbn [ran]. rewrite Hran.
      repeat constructor. eauto.
    + exists new. split; [reflexivity|]. rewrite Hran. repeat constructor. eauto.
  - exists []. split; [reflexivity|constructor].
Qed.

Lemma filter_argv_nil (P : Command * ProcOutcome → bool) (l : list (Command * ProcOutcome)) :
  (∀ args out, P (Argv args, out) = false) →
  Forall (λ run : Command * ProcOutcome, ∃ args, run.1 = Argv args) l →
  filter (λ run, P run = true) l = [].
Proof.
  intros HP Hall. induction Hall as [|[c out] l [args Hc] _ IH]; [reflexivity|].
  cbn in Hc. subst c. rewrite filter_cons_False; [exact IH|].
  rewrite HP. discriminate.
Qed.

Lemma is_lock_create_restore (record : LockRecord) out :
  is_lock_create (restore_command record, out) = true.
Proof. reflexivity. Qed.

Lemma is_lock_delete_remove name resource_group out :
  is_lock_delete (Shell (lock_delete_command name resource_group), out) = true.
Proof. reflexivity. Qed.

(** The restoration loop: when it returns, it has run one lock-create
    command per record, in order, and counted those whose reply is not
    error-tagged. *)
Lemma restore_scope_locks_loop_spec removed : ∀ current restored s n s',
  restore_scope_locks_loop shell removed current restored s = (Ok n, s') →
  ∃ new,
    trace s' = new ++ trace s
    ∧ map fst (lock_creates new) = map restore_command removed
    ∧ n = (restored
           + length (filter (λ run, error_tagged run = false) (lock_creates new)))%nat.
Proof.
  induction removed as [|[[sub rg] name] rest IH]; intros current restored s n s' Hrun.
  - injection Hrun as <- <-. exists []. cbn. split; [reflexivity|]. split; [reflexivity|lia].
  - cbn [restore_scope_locks_loop] in Hrun.
    apply bind_Ok_inv in Hrun as (current' & s1 & Hsw & Hrun).
    destruct (switch_subscription_ran sub current s) as (new1 & Htr1 & Hargv).
    rewrite Hsw in Htr1. cbn [snd] in Htr1.
    destruct (run_az_command_shell_ran (lock_create_command name rg) s1)
      as (text & new2 & Hcmd & Hran2 & Hreply).
    rewrite (bind_Ok _ _ _ _ _ Hcmd) in Hrun.
    set (s2 := mkState (S (ncalls s1)) (new2 ++ trace s1)) in *.
    assert (Hcreates : ∀ new3,
              lock_creates (new3 ++ new2 ++ new1)
              = (Shell (lock_create_command name rg),
                 shell (ncalls s1) (Shell (lock_create_command name rg)))
                :: lock_creates new3).
    { intros new3. unfold lock_creates. rewrite !ran_app, !filter_app, Hran2.
      rewrite (filter_argv_nil is_lock_create (ran new1)) by (auto; reflexivity).
      rewrite app_nil_r, rev_app_distr. reflexivity. }
    destruct (negb (startswith text "Error:")) eqn:Herr;
      destruct (IH _ _ _ _ _ Hrun) as (new3 & Htr3 & Hcmds & Hn);
      exists (new3 ++ new2 ++ new1);
      (split; [rewrite Htr3; unfold s2; cbn [trace]; rewrite Htr1, <- !app_assoc;
               reflexivity|]);
      rewrite Hcreates; cbn [map fst]; rewrite Hcmds;
      (split; [reflexivity|]).
    + rewrite filter_cons_True.
      * cbn [length]. lia.
      * unfold error_tagged. cbn [fst snd]. rewrite Hreply.
        apply negb_true_iff. exact Herr.
    + rewrite filter_cons_False.
      * lia.
      * unfold error_tagged. cbn [fst snd]. rewrite Hreply.
        apply negb_false_iff in Herr. rewrite Herr. discriminate.
Qed.




(** Removal of the locks of one resource group: a record is appended only
    for a lock-delete command whose reply is not error-tagged. *)
Lemma remove_locks_spec sub rg locks : ∀ removed s removed' s',
  remove_locks shell sub rg locks removed s = (Ok removed', s') →
  ∃ new,
    trace s' = new ++ trace s
    ∧ ∀ record, record ∈ removed' →
        record ∈ removed
        ∨ ∃ out, (Shell (lock_delete_command record.2 record.1.2), out) ∈ lock_deletes new
                 ∧ error_tagged (Shell (lock_delete_command record.2 record.1.2), out)
                   = false.
Proof.
  induction locks as [|lock rest IH]; intros removed s removed' s' Hrun.
  - injection Hrun as <- <-. exists []. split; [reflexivity|]. auto.
  - cbn [remove_locks] in Hrun.
    destruct (String.eqb (lock_level lock) "CanNotDelete").
    + destruct (run_az_command_shell_ran (lock_delete_command (lock_name lock) rg) s)
        as (text & new1 & Hcmd & Hran1 & Hreply).
      rewrite (bind_Ok _ _ _ _ _ Hcmd) in Hrun.
      assert (Hdel : ∀ new2, lock_deletes (new2 ++ new1)
                = (Shell (lock_delete_command (lock_name lock) rg),
                   shell (ncalls s) (Shell (lock_delete_command (lock_name lock) rg)))
                  :: lock_deletes new2).
      { intros new2. unfold lock_deletes. rewrite ran_app, filter_app, Hran1.
        rewrite rev_app_distr. reflexivity. }
      destruct (negb (startswith text "Error:")) eqn:Herr;
        destruct (IH _ _ _ _ Hrun) as (new2 & Htr2 & Hrec);
        exists (new2 ++ new1);
        (split; [rewrite Htr2; cbn [trace]; rewrite <- app_assoc; reflexivity|]);
        intros record Hin; rewrite Hdel;
        destruct (Hrec record Hin) as [Hold|(out & Hout & Hok)].
      * apply elem_of_app in Hold as [Hold|Hnew]; [left; exact Hold|].
        apply list_elem_of_singleton in Hnew as ->. right.
        eexists. split; [apply list_elem_of_here|].
        unfold error_tagged. cbn [fst snd]. rewrite Hreply.
        apply negb_true_iff. exact Herr.
      * right. exists out. split; [apply list_elem_of_further; exact Hout|exact Hok].
      * left. exact Hold.
      * right. exists out. split; [apply list_elem_of_further; exact Hout|exact Hok].
    + destruct (IH _ _ _ _ Hrun) as (new & Htr & Hrec). exists new. auto.
Qed.

Lemma lock_deletes_app_r new2 new1 run :
  run ∈ lock_deletes new2 → run ∈ lock_deletes (new2 ++ new1).
Proof.
  unfold lock_deletes. rewrite ran_app, filter_app, rev_app_distr.
  intros H. apply elem_of_app. right. exact H.
Qed.

Lemma lock_deletes_app_l new2 new1 run :
  run ∈ lock_deletes new1 → run ∈ lock_deletes (new2 ++ new1).
Proof.
  unfold lock_deletes. rewrite ran_app, filter_app, rev_app_distr.
  intros H. apply elem_of_app. left. exact H.
Qed.

Lemma check_and_remove_scope_locks_loop_spec resource_groups :
  ∀ current removed s removed' s',
  check_and_remove_scope_locks_loop shell json_loads_locks resource_groups current
    removed s = (Ok removed', s') →
  ∃ new,
    trace s' = new ++ trace s
    ∧ ∀ record, record ∈ removed' →
        record ∈ removed
        ∨ ∃ out, (Shell (lock_delete_command record.2 record.1.2), out) ∈ lock_deletes new
                 ∧ error_tagged (Shell (lock_delete_command record.2 record.1.2), out)
                   = false.
Proof.
  induction resource_groups as [|[sub rg] rest IH]; intros current removed s removed' s' Hrun.
  - injection Hrun as <- <-. exists []. split; [reflexivity|]. auto.
  - cbn [check_and_remove_scope_locks_loop] in Hrun.
    apply bind_Ok_inv in Hrun as (current' & s1 & Hsw & Hrun).
    destruct (switch_subscription_ran sub current s) as (new1 & Htr1 & _).
    rewrite Hsw in Htr1. cbn [snd] in Htr1.
    destruct (run_az_command_shell_ran (lock_list_command rg) s1)
      as (text & new2 & Hcmd & _ & _).
    rewrite (bind_Ok _ _ _ _ _ Hcmd) in Hrun.
    destruct (json_loads_locks text) as [locks|]; [|discriminate Hrun].
    apply bind_Ok_inv in Hrun as (removed1 & s3 & Hrm & Hrun).
    destruct (remove_locks_spec _ _ _ _ _ _ _ Hrm) as (new3 & Htr3 & Hrec3).
    destruct (IH _ _ _ _ _ Hrun) as (new4 & Htr4 & Hrec4).
    exists (new4 ++ new3 ++ new2 ++ new1). split.
    + rewrite Htr4, Htr3. cbn [trace]. rewrite Htr1, <- !app_assoc. reflexivity.
    + intros record Hin.
      destruct (Hrec4 record Hin) as [Hold|(out & Hout & Hok)].
      * destruct (Hrec3 record Hold) as [Hold'|(out & Hout & Hok)]; [left; exact Hold'|].
        right. exists out. split; [|exact Hok].
        apply lock_deletes_app_l. apply lock_deletes_app_r. exact Hout.
      * right. exists out. split; [|exact Hok]. apply lock_deletes_app_r. exact Hout.
Qed.

End LockFacts.

Lemma filter_all {A} (P : A → Prop) `{∀ x, Decision (P x)} (l : list A) :
  Forall P l → filter P l = l.
Proof.
  intros Hall. induction Hall as [|x l Hx _ IH]; [reflexivity|].
  rewrite filter_cons_True by exact Hx. rewrite IH. reflexivity.
Qed.

(** ** The creation worker *)

Section CreateFacts.
Variable shell : Oracle.
Variable json_loads_snapshot : string → SnapshotJson.
Variable now : datetime.

Lemma log_bind {A} (message : string) (k : M A) s :
  (write_detailed_log message ;; k)%py s = k (log_lines [message] s).
Proof. reflexivity. Qed.

Lemma ran_log_lines lines s : ran (trace (log_lines lines s)) = ran (trace s).
Proof.
  unfold log_lines. cbn [trace]. rewrite ran_app.
  induction lines as [|l lines IH]; [reflexivity|exact IH].
Qed.

(** [record_snapshot] starts no process; it fails only on JSON that is
    not an object. *)
Lemma record_snapshot_spec snapshot_name stdout s :
  ∃ lines,
    (record_snapshot json_loads_snapshot snapshot_name stdout s).2
    = mkState (ncalls s) (lines ++ trace s)
    ∧ ran lines = []
    ∧ (json_loads_snapshot stdout = DecodeError →
       (record_snapshot json_loads_snapshot snapshot_name stdout s).1 = Ok tt).
Proof.
  unfold record_snapshot.
  destruct (json_loads_snapshot stdout) as [|dumped [snapshot_id|]|dumped type_name].
  - eexists [_; _]. split; [reflexivity|]. split; reflexivity.
  - eexists [_; _; _]. split; [reflexivity|]. split; [reflexivity|discriminate].
  - eexists [_; _]. split; [reflexivity|]. split; [reflexivity|discriminate].
  - eexists [_]. split; [reflexivity|]. split; [reflexivity|discriminate].
Qed.

End CreateFacts.

(** C8. For a VM whose resource path names a subscription, [process_vm]
    stops at the first stage whose command fails (after the retries of the
    executor) and returns the VM name with the description of that stage;
    no child process is started after the failed stage. When the
    snapshot-create command succeeds and its output is not JSON, the worker
    returns the VM name with the snapshot name, and the detail log receives
    the warning and the raw output. *)
Theorem process_vm_short_circuits
    (shell : Oracle) (json_loads_snapshot : string → SnapshotJson) (now : datetime)
    (resource_id vm_name chg_number subscription_id : string) (s : State) :
  split "/" resource_id !! 2%nat = Some subscription_id →
  truthy subscription_id = true →
  let exec := run_az_command_async_default shell in
  let run := process_vm shell json_loads_snapshot now resource_id vm_name chg_number s in
  ∀ o1 e1 rc1 s1,
    exec (account_set_command subscription_id)
      (log_lines ["Resource ID: " +:+ resource_id; "Processing VM: " +:+ vm_name] s)
    = (Ok (o1, e1, rc1), s1) →
    (rc1 ≠ 0%Z →
     run.1 = Ok (vm_name, "Failed to set subscription ID")
     ∧ ran (trace run.2) = ran (trace s1))
    ∧ (rc1 = 0%Z →
       ∀ o2 e2 rc2 s2,
         exec (disk_id_command resource_id)
           (log_lines ["Subscription ID: " +:+ subscription_id] s1)
         = (Ok (o2, e2, rc2), s2) →
         (rc2 ≠ 0%Z ∨ o2 = "" →
          run.1 = Ok (vm_name, "Failed to get disk ID")
          ∧ ran (trace run.2) = ran (trace s2))
         ∧ (rc2 = 0%Z → o2 ≠ "" →
            ∀ o3 e3 rc3 s3,
              exec (resource_group_command resource_id) s2 = (Ok (o3, e3, rc3), s3) →
              (rc3 ≠ 0%Z →
               run.1 = Ok (vm_name, "Failed to get resource group")
               ∧ ran (trace run.2) = ran (trace s3))
              ∧ (rc3 = 0%Z →
                 ∀ o4 e4 rc4 s4,
                   exec (snapshot_create_command
                           (snapshot_name_of now chg_number vm_name) o3 o2)
                     (log_lines ["Resource group name: " +:+ o3] s3)
                   = (Ok (o4, e4, rc4), s4) →
                   (rc4 ≠ 0%Z →
                    run.1 = Ok (vm_name, "Failed to create snapshot")
                    ∧ ran (trace run.2) = ran (trace s4))
                   ∧ (rc4 = 0%Z →
                      json_loads_snapshot o4 = DecodeError →
                      run.1 = Ok (vm_name, snapshot_name_of now chg_number vm_name)
                      ∧ ran (trace run.2) = ran (trace s4)
                      ∧ run.2
                        = log_lines
                            ["Snapshot created successfully for VM: " +:+ vm_name;
                             o4;
                             "Warning: Could not parse snapshot creation output as JSON. Raw output:";
                             "Snapshot created: "
                             +:+ snapshot_name_of now chg_number vm_name] s4)))).
Proof.
  intros Hsplit Hsub exec run. subst exec run.
  unfold process_vm. rewrite !log_bind. rewrite Hsplit, Hsub. cbn [negb].
  intros o1 e1 rc1 s1 H1.
  change (log_lines ["Resource ID: " +:+ resource_id]
            (log_lines ["Processing VM: " +:+ vm_name] s))
    with (log_lines ["Resource ID: " +:+ resource_id; "Processing VM: " +:+ vm_name] s).
  rewrite (bind_Ok _ _ _ _ _ H1). split.
  { intros Hrc. apply Z.eqb_neq in Hrc. rewrite Hrc. cbn [negb].
    rewrite !log_bind. unfold ret. cbn [fst snd]. rewrite !ran_log_lines. auto. }
  intros ->. cbn [Z.eqb negb]. rewrite log_bind.
  intros o2 e2 rc2 s2 H2. rewrite (bind_Ok _ _ _ _ _ H2). split.
  { intros Hfail.
    assert (Hcond : negb (rc2 =? 0)%Z || negb (truthy o2) = true).
    { destruct Hfail as [Hrc| ->].
      - apply Z.eqb_neq in Hrc. rewrite Hrc. reflexivity.
      - apply orb_true_r. }
    rewrite Hcond. rewrite !log_bind. unfold ret. cbn [fst snd].
    rewrite !ran_log_lines. auto. }
  intros -> Ho2.
  assert (Htruthy : truthy o2 = true) by (destruct o2; [contradiction|reflexivity]).
  rewrite Htruthy. cbn [Z.eqb negb orb].
  intros o3 e3 rc3 s3 H3. rewrite (bind_Ok _ _ _ _ _ H3). split.
  { intros Hrc. apply Z.eqb_neq in Hrc. rewrite Hrc. cbn [negb].
    rewrite !log_bind. unfold ret. cbn [fst snd]. rewrite !ran_log_lines. auto. }
  intros ->. cbn [Z.eqb negb]. rewrite log_bind.
  intros o4 e4 rc4 s4 H4. rewrite (bind_Ok _ _ _ _ _ H4). split.
  { intros Hrc. apply Z.eqb_neq in Hrc. rewrite Hrc. cbn [negb].
    rewrite !log_bind. unfold ret. cbn [fst snd]. rewrite !ran_log_lines. auto. }
  intros -> Hjson. cbn [Z.eqb negb]. rewrite log_bind.
  unfold record_snapshot. rewrite Hjson.
  split; [reflexivity|]. split; reflexivity.
Qed.

Lemma process_vm_short_circuits_witness :
  (process_vm vm_all_succeed unparsable a_clock vm_1 "vm-1" "CHG1" initial_state).1
  = Ok ("vm-1", snapshot_name_of a_clock "CHG1" "vm-1").
Proof.
  pose proof (process_vm_short_circuits vm_all_succeed unparsable a_clock vm_1
                "vm-1" "CHG1" "sub-1" initial_state eq_refl eq_refl) as H.
  cbv zeta in H.
  destruct (H "out" "" 0%Z _ eq_refl) as [_ H1].
  destruct (H1 eq_refl "out" "" 0%Z _ eq_refl) as [_ H2].
  destruct (H2 eq_refl ltac:(discriminate) "out" "" 0%Z _ eq_refl) as [_ H3].
  destruct (H3 eq_refl "out" "" 0%Z _ eq_refl) as [_ H4].
  exact (proj1 (H4 eq_refl eq_refl)).
Defined.

(** ** The snapshot name *)

Lemma is_digit_digit_char n : is_digit (digit_char n) = true.
Proof.
  unfold is_digit, digit_char.
  rewrite nat_ascii_embedding.
  - pose proof (Nat.mod_upper_bound n 10 ltac:(lia)) as Hlt.
    apply andb_true_iff. split; apply Nat.leb_le; lia.
  - pose proof (Nat.mod_upper_bound n 10 ltac:(lia)) as Hlt. lia.
Qed.

(** C9, as the code has it. The name [process_vm] gives the snapshot, and
    returns on success, is the fixed prefix ["RH_"] followed by the change
    number, the VM name and the time stamp of the run, joined by
    underscores; the time stamp depends on the clock reading of the run
    only and is fourteen decimal digits. *)
Theorem process_vm_snapshot_name
    (shell : Oracle) (json_loads_snapshot : string → SnapshotJson) (now : datetime)
    (resource_id vm_name chg_number : string) (s : State) (vm status : string) :
  (process_vm shell json_loads_snapshot now resource_id vm_name chg_number s).1
  = Ok (vm, status) →
  startswith status "Failed" = false →
  vm = vm_name
  ∧ status = "RH_" +:+ chg_number +:+ "_" +:+ vm_name +:+ "_" +:+ strftime_YmdHMS now
  ∧ String.length (strftime_YmdHMS now) = 14%nat
  ∧ forallb is_digit (list_ascii_of_string (strftime_YmdHMS now)) = true.
Proof.
  intros Hrun Hok.
  assert (Hname : vm = vm_name ∧ status = snapshot_name_of now chg_number vm_name).
  { unfold process_vm in Hrun. rewrite !log_bind in Hrun.
    destruct (split "/" resource_id !! 2%nat) as [sub|]; [|discriminate Hrun].
    destruct (negb (truthy sub)).
    { rewrite log_bind in Hrun. injection Hrun as <- <-. discriminate Hok. }
    unfold bind at 1 in Hrun.
    destruct (run_az_command_async_default shell _ _) as [[[[o1 e1] rc1]|ex] s1];
      [|discriminate Hrun].
    destruct (negb (rc1 =? 0)%Z).
    { rewrite !log_bind in Hrun. injection Hrun as <- <-. discriminate Hok. }
    rewrite log_bind in Hrun. unfold bind at 1 in Hrun.
    destruct (run_az_command_async_default shell _ _) as [[[[o2 e2] rc2]|ex] s2];
      [|discriminate Hrun].
    destruct (negb (rc2 =? 0)%Z || negb (truthy o2)).
    { rewrite !log_bind in Hrun. injection Hrun as <- <-. discriminate Hok. }
    unfold bind at 1 in Hrun.
    destruct (run_az_command_async_default shell _ _) as [[[[o3 e3] rc3]|ex] s3];
      [|discriminate Hrun].
    destruct (negb (rc3 =? 0)%Z).
    { rewrite !log_bind in Hrun. injection Hrun as <- <-. discriminate Hok. }
    rewrite log_bind in Hrun. unfold bind at 1 in Hrun.
    destruct (run_az_command_async_default shell _ _) as [[[[o4 e4] rc4]|ex] s4];
      [|discriminate Hrun].
    destruct (negb (rc4 =? 0)%Z).
    { rewrite !log_bind in Hrun. injection Hrun as <- <-. discriminate Hok. }
    rewrite log_bind in Hrun. unfold bind at 1 in Hrun.
    destruct (record_snapshot json_loads_snapshot _ _ _) as [[[]|ex] s5];
      [|discriminate Hrun].
    rewrite log_bind in Hrun. injection Hrun as <- <-. auto. }
  destruct Hname as [-> ->].
  split; [reflexivity|]. split; [reflexivity|]. split; [reflexivity|].
  unfold strftime_YmdHMS, pad4, pad2.
  cbv [String.append list_ascii_of_string forallb].
  rewrite !is_digit_digit_char. reflexivity.
Qed.

Lemma process_vm_snapshot_name_witness :
  "vm-1" = "vm-1"
  ∧ snapshot_name_of a_clock "CHG1" "vm-1"
    = "RH_" +:+ "CHG1" +:+ "_" +:+ "vm-1" +:+ "_" +:+ strftime_YmdHMS a_clock
  ∧ String.length (strftime_YmdHMS a_clock) = 14%nat
  ∧ forallb is_digit (list_ascii_of_string (strftime_YmdHMS a_clock)) = true.
Proof.
  apply (process_vm_snapshot_name vm_all_succeed unparsable a_clock vm_1 "vm-1" "CHG1"
           initial_state).
  - vm_compute. reflexivity.
  - vm_compute. reflexivity.
Defined.

(** C9 as stated fails: the name is not the change number, VM name and
    time stamp alone. *)
Lemma snapshot_name_has_prefix :
  (process_vm vm_all_succeed unparsable a_clock vm_1 "vm-1" "CHG1" initial_state).1
  = Ok ("vm-1", "RH_CHG1_vm-1_20240307090501")
  ∧ timestamp a_clock = "20240307090501"
  ∧ "RH_CHG1_vm-1_20240307090501" ≠ "CHG1" +:+ "_" +:+ "vm-1" +:+ "_" +:+ timestamp a_clock.
Proof.
  split; [vm_compute; reflexivity|]. split; [vm_compute; reflexivity|].
  vm_compute. discriminate.
Qed.

(** * Further properties of the command executor *)

Section ExecutorMore.
Variable shell : Oracle.
Variables (command : string) (delay : Z).

(** A child process that cannot be started ends the loop at once. *)
Lemma loop_not_started len : ∀ a last s k name text,
  (k < len)%nat →
  (∀ j, (j < k)%nat → failed_exit (shell (ncalls s + j)%nat (Shell command))) →
  shell (ncalls s + k)%nat (Shell command) = NotStarted name text →
  ∃ new,
    run_az_command_async_loop shell command (Z.of_nat (a + len)) delay (seq a len) last s
      = (Raise (Exception name text), mkState (ncalls s + k + 1) (new ++ trace s))
    ∧ slept new = repeat delay k
    ∧ commands_run new = repeat (Shell command) (S k).
Proof.
  induction len as [|len IH]; intros a last s k name text Hk Hfail Hno; [lia|].
  cbn [seq]. rewrite loop_unfold.
  destruct k as [|k].
  - rewrite Nat.add_0_r in Hno. rewrite Hno. cbn.
    eexists [Ran (Shell command) _].
    split; [unfold started; do 2 f_equal; lia|].
    split; reflexivity.
  - destruct (Hfail 0%nat) as (o & e & rc & Ho & Hrc); [lia|].
    rewrite Nat.add_0_r in Ho. rewrite Ho.
    destruct (Z.eqb_spec rc 0) as [|_]; [contradiction|].
    replace (Z.of_nat (a + S len)) with (Z.of_nat (S a + len)) by lia.
    destruct (IH (S a) (Some (e, rc))
                (after_failure shell command delay a (Z.of_nat (S a + len)) e s) k name text)
      as (new & Hrun & Hs & Hc).
    + lia.
    + intros j Hj. cbn [after_failure ncalls].
      replace (S (ncalls s) + j)%nat with (ncalls s + S j)%nat by lia.
      apply Hfail. lia.
    + cbn [after_failure ncalls].
      replace (S (ncalls s) + k)%nat with (ncalls s + S k)%nat by lia. exact Hno.
    + rewrite Hrun. unfold after_failure. cbn [ncalls trace].
      assert (Hlt : (Z.of_nat a <? Z.of_nat (S a + len) - 1)%Z = true)
        by (apply Z.ltb_lt; lia).
      rewrite Hlt.
      eexists (new ++ [Slept delay; _; _; _; Ran (Shell command) _]).
      rewrite <- app_assoc, slept_app, commands_run_app, Hs, Hc.
      split; [cbn; f_equal; f_equal; lia|].
      split; cbn; [apply repeat_snoc | f_equal; apply repeat_snoc].
Qed.

End ExecutorMore.

(** X1. For any positive number of attempts and any delay, the
    asynchronous executor starts at most [max_retries] child processes and
    pauses for [delay] only.  After [k] failed attempts a zero exit code is
    returned at once, after [k] pauses; when all attempts exit non-zero the
    stderr and exit code of the last one are returned, and there is no
    pause after the last attempt. *)
Theorem run_az_command_async_retries
    (shell : Oracle) (command : string) (max_retries delay : Z) (s : State) :
  (0 < max_retries)%Z →
  let n := Z.to_nat max_retries in
  let r := run_az_command_async shell command max_retries delay s in
  let attempt j := shell (ncalls s + j)%nat (Shell command) in
  ∃ new,
    trace r.2 = new ++ trace s
    ∧ (length (commands_run new) ≤ n)%nat
    ∧ Forall (λ c, c = Shell command) (commands_run new)
    ∧ Forall (λ d, d = delay) (slept new)
    ∧ (∀ k out err,
         (k < n)%nat →
         (∀ j, (j < k)%nat → failed_exit (attempt j)) →
         attempt k = Exited out err 0 →
         r.1 = Ok (strip out, strip err, 0%Z)
         ∧ commands_run new = repeat (Shell command) (S k)
         ∧ slept new = repeat delay k)
    ∧ (∀ out err rc,
         (∀ j, (j < n - 1)%nat → failed_exit (attempt j)) →
         attempt (n - 1)%nat = Exited out err rc →
         rc ≠ 0%Z →
         r.1 = Ok ("", strip err, rc)
         ∧ commands_run new = repeat (Shell command) n
         ∧ slept new = repeat delay (n - 1)).
Proof.
  intros Hpos n r attempt. subst r attempt.
  unfold run_az_command_async. fold n.
  assert (Hmax : max_retries = Z.of_nat (0 + n)) by (subst n; lia).
  destruct (loop_bounded shell command delay max_retries (seq 0 n) None s)
    as (new & Htr & _ & Hlen & Hs & Hc).
  rewrite length_seq in Hlen.
  exists new. split; [exact Htr|]. split; [exact Hlen|].
  split; [exact Hc|]. split; [exact Hs|]. split.
  - intros k out err Hk Hfail Hok.
    destruct (loop_first_success shell command delay n 0 None s k out err Hk Hfail Hok)
      as (new' & Hrun & Hs' & Hc').
    rewrite <- Hmax in Hrun.
    rewrite Hrun in Htr |- *. cbn [fst snd trace] in Htr |- *.
    apply app_inv_tail in Htr. subst new'. auto.
  - intros out err rc Hfail Hlast Hrc.
    assert (Hn : n = S (n - 1)) by (subst n; lia).
    destruct (loop_exhausted shell command delay (n - 1) 0 None s out err rc Hfail Hlast Hrc)
      as (new' & Hrun & Hs' & Hc').
    rewrite <- Hn, <- Hmax in Hrun.
    rewrite Hrun in Htr |- *. cbn [fst snd trace] in Htr |- *.
    apply app_inv_tail in Htr. subst new'.
    split; [reflexivity|]. split; [|exact Hs'].
    rewrite Hc'. rewrite <- Hn. reflexivity.
Qed.

Lemma run_az_command_async_retries_witness :
  (run_az_command_async all_fail "az account show" 2 7 initial_state).1
  = Ok ("", "busy", 1%Z).
Proof.
  destruct (run_az_command_async_retries all_fail "az account show" 2 7 initial_state)
    as (new & _ & _ & _ & _ & _ & Hlast); [lia|].
  apply (Hlast "" "busy " 1%Z).
  - intros j Hj. exists "", "busy ", 1%Z. split; [reflexivity|lia].
  - reflexivity.
  - lia.
Defined.

(** X2. With no attempt to make ([max_retries <= 0]) the executor starts
    no child process and fails on the unbound [stderr] of its last line. *)
Theorem run_az_command_async_no_attempt
    (shell : Oracle) (command : string) (max_retries delay : Z) (s : State) :
  (max_retries ≤ 0)%Z →
  ∃ text,
    run_az_command_async shell command max_retries delay s
    = (Raise (Exception "UnboundLocalError" text), s).
Proof.
  intros Hle. unfold run_az_command_async.
  replace (Z.to_nat max_retries) with 0%nat by lia.
  eexists. reflexivity.
Qed.

Lemma run_az_command_async_no_attempt_witness :
  ∃ text,
    run_az_command_async all_fail "az account show" 0 5 initial_state
    = (Raise (Exception "UnboundLocalError" text), initial_state).
Proof.
  apply (run_az_command_async_no_attempt all_fail "az account show" 0 5 initial_state).
  lia.
Defined.

(** X3. A child process that cannot be started is not retried: after [k]
    failed attempts, the exception of attempt [k] leaves the executor at
    once, whatever the number of attempts left. *)
Theorem run_az_command_async_spawn_failure
    (shell : Oracle) (command : string) (max_retries delay : Z) (s : State)
    (k : nat) (name text : string) :
  (Z.of_nat k < max_retries)%Z →
  (∀ j, (j < k)%nat → failed_exit (shell (ncalls s + j)%nat (Shell command))) →
  shell (ncalls s + k)%nat (Shell command) = NotStarted name text →
  let r := run_az_command_async shell command max_retries delay s in
  ∃ new,
    r = (Raise (Exception name text), mkState (ncalls s + k + 1) (new ++ trace s))
    ∧ commands_run new = repeat (Shell command) (S k)
    ∧ slept new = repeat delay k.
Proof.
  intros Hk Hfail Hno r. subst r. unfold run_az_command_async.
  assert (Hmax : max_retries = Z.of_nat (0 + Z.to_nat max_retries)) by lia.
  destruct (loop_not_started shell command delay (Z.to_nat max_retries) 0 None s k name text)
    as (new & Hrun & Hs & Hc); [lia|exact Hfail|exact Hno|].
  rewrite <- Hmax in Hrun. exists new. auto.
Qed.

Lemma run_az_command_async_spawn_failure_witness :
  ∃ new,
    run_az_command_async no_shell "az account show" 3 5 initial_state
    = (Raise (Exception "FileNotFoundError" "no shell"), mkState 1 (new ++ []))
    ∧ commands_run new = [Shell "az account show"]
    ∧ slept new = [].
Proof.
  apply (run_az_command_async_spawn_failure no_shell "az account show" 3 5 initial_state
           0 "FileNotFoundError" "no shell").
  - lia.
  - intros j Hj. lia.
  - reflexivity.
Defined.

(** * Resource groups and scope locks *)

Lemma resource_groups_fold ids : ∀ (acc : gset (string * string)) sub rg,
  (sub, rg) ∈ foldl
    (λ resource_groups snapshot_id,
       let parts := split "/" snapshot_id in
       if (5 <=? length parts)%nat
       then resource_groups ∪ {[ (nth 2 parts "", nth 4 parts "") ]}
       else resource_groups) acc ids
  ↔ (sub, rg) ∈ acc
    ∨ ∃ snapshot_id,
        snapshot_id ∈ ids
        ∧ (5 ≤ length (split "/" snapshot_id))%nat
        ∧ split "/" snapshot_id !! 2%nat = Some sub
        ∧ split "/" snapshot_id !! 4%nat = Some rg.
Proof.
  induction ids as [|i ids IH]; intros acc sub rg.
  - cbn. split; [auto|]. intros [H|(x & Hx & _)]; [exact H|].
    apply elem_of_nil in Hx. contradiction.
  - cbn [foldl]. rewrite IH. clear IH. cbv zeta.
    destruct (Nat.leb_spec 5 (length (split "/" i))) as [Hlen|Hlen].
    + destruct (lookup_lt_is_Some_2 (split "/" i) 2%nat ltac:(lia)) as [p2 H2].
      destruct (lookup_lt_is_Some_2 (split "/" i) 4%nat ltac:(lia)) as [p4 H4].
      rewrite !nth_lookup, H2, H4. cbn [default from_option]. unfold id.
      rewrite elem_of_union, elem_of_singleton. split.
      * intros [[H|H]|(x & Hx & Hrest)].
        -- auto.
        -- injection H as -> ->. right. exists i.
           split; [apply list_elem_of_here|]. auto.
        -- right. exists x. split; [apply list_elem_of_further; exact Hx|exact Hrest].
      * intros [H|(x & Hx & Hl & Hx2 & Hx4)]; [auto|].
        apply elem_of_cons in Hx as [->|Hx].
        -- left. right. congruence.
        -- right. exists x. auto.
    + split.
      * intros [H|(x & Hx & Hrest)]; [auto|].
        right. exists x. split; [apply list_elem_of_further; exact Hx|exact Hrest].
      * intros [H|(x & Hx & Hl & Hrest)]; [auto|].
        apply elem_of_cons in Hx as [->|Hx]; [lia|].
        right. exists x. auto.
Qed.

(** X4. The resource groups of a list of identifiers are exactly the
    pairs of third and fifth path segment of the identifiers that have at
    least five segments; shorter identifiers contribute nothing, and a pair
    that occurs more than once is kept once. *)
Theorem get_resource_groups_from_snapshots_spec
    (snapshot_ids : list string) (subscription_id resource_group : string) :
  (subscription_id, resource_group) ∈ get_resource_groups_from_snapshots snapshot_ids
  ↔ ∃ snapshot_id,
      snapshot_id ∈ snapshot_ids
      ∧ (5 ≤ length (split "/" snapshot_id))%nat
      ∧ split "/" snapshot_id !! 2%nat = Some subscription_id
      ∧ split "/" snapshot_id !! 4%nat = Some resource_group.
Proof.
  unfold get_resource_groups_from_snapshots. rewrite resource_groups_fold.
  split; [|auto]. intros [H|H]; [|exact H].
  apply elem_of_empty in H. contradiction.
Qed.

(** * What the pipelines run *)

(** ** Composition of trace facts *)

Lemma runs_only_ret {A} Q (a : A) : runs_only Q (ret a).
Proof. intros s. exists []. split; [reflexivity|constructor]. Qed.

Lemma runs_only_raise {A} Q e : runs_only Q (@raise A e).
Proof. intros s. exists []. split; [reflexivity|constructor]. Qed.

Lemma runs_only_logging_error Q message : runs_only Q (logging_error message).
Proof. intros s. exists [ErrorLogged message]. split; [reflexivity|constructor]. Qed.

Lemma runs_only_write_detailed_log Q message : runs_only Q (write_detailed_log message).
Proof. intros s. exists [Logged message]. split; [reflexivity|constructor]. Qed.

Lemma runs_only_write_snapshot_rid Q rid : runs_only Q (write_snapshot_rid rid).
Proof. intros s. exists [WroteRid rid]. split; [reflexivity|constructor]. Qed.

Lemma runs_only_sleep Q delay : runs_only Q (sleep delay).
Proof. intros s. exists [Slept delay]. split; [reflexivity|constructor]. Qed.

Lemma runs_only_spawn Q shell cmd :
  (∀ n, Q (cmd, shell n cmd)) → runs_only Q (spawn shell cmd).
Proof.
  intros HQ s. exists [Ran cmd (shell (ncalls s) cmd)].
  split; [reflexivity|]. repeat constructor. apply HQ.
Qed.

Lemma runs_only_bind {A B} Q (m : M A) (k : A → M B) :
  runs_only Q m → (∀ a, runs_only Q (k a)) → runs_only Q (bind m k).
Proof.
  intros Hm Hk s. unfold bind.
  destruct (Hm s) as (new1 & Htr1 & HQ1).
  destruct (m s) as [[a|e] s1]; cbn [snd] in Htr1.
  - destruct (Hk a s1) as (new2 & Htr2 & HQ2).
    exists (new2 ++ new1). split.
    + rewrite Htr2, Htr1, app_assoc. reflexivity.
    + rewrite ran_app. apply Forall_app. auto.
  - exists new1. auto.
Qed.

Lemma runs_only_try_except {A} Q (m : M A) (h : pyexn → M A) :
  runs_only Q m → (∀ e, runs_only Q (h e)) → runs_only Q (try_except m h).
Proof.
  intros Hm Hh s. unfold try_except.
  destruct (Hm s) as (new1 & Htr1 & HQ1).
  destruct (m s) as [[a|[name text|]] s1]; cbn [snd] in Htr1.
  - exists new1. auto.
  - destruct (Hh (Exception name text) s1) as (new2 & Htr2 & HQ2).
    exists (new2 ++ new1). split.
    + rewrite Htr2, Htr1, app_assoc. reflexivity.
    + rewrite ran_app. apply Forall_app. auto.
  - exists new1. auto.
Qed.

Lemma runs_only_mono {A} (Q Q' : Command * ProcOutcome → Prop) (m : M A) :
  (∀ run, Q run → Q' run) → runs_only Q m → runs_only Q' m.
Proof.
  intros Himp Hm s. destruct (Hm s) as (new & Htr & HQ).
  exists new. split; [exact Htr|]. eapply Forall_impl; eauto.
Qed.

Lemma runs_only_run_az_command Q shell cmd :
  (∀ n, Q (cmd, shell n cmd)) → runs_only Q (run_az_command shell cmd).
Proof.
  intros HQ. unfold run_az_command.
  apply runs_only_bind; [apply runs_only_spawn; exact HQ|].
  intros [out err rc|name text]; destruct cmd as [line|args].
  - destruct (negb (rc =? 0)%Z); apply runs_only_ret.
  - destruct (rc =? 0)%Z; [apply runs_only_ret|].
    apply runs_only_bind; [apply runs_only_logging_error|].
    intros _. apply runs_only_raise.
  - apply runs_only_bind; [apply runs_only_logging_error|]. intros _. apply runs_only_ret.
  - apply runs_only_bind; [apply runs_only_logging_error|]. intros _. apply runs_only_ret.
Qed.

Lemma runs_only_future_result {A} Q (f : Future A) : runs_only Q (future_result f).
Proof. destruct f; [apply runs_only_ret|apply runs_only_raise]. Qed.

Lemma runs_only_submit {A} Q (worker : M A) : runs_only Q worker → runs_only Q (submit worker).
Proof.
  intros Hw s. unfold submit. destruct (Hw s) as (new & Htr & HQ).
  destruct (worker s) as [r s']. exists new. auto.
Qed.

Lemma runs_only_submit_all {A} Q (worker : string → M A) items :
  (∀ item, item ∈ items → runs_only Q (worker item)) →
  runs_only Q (submit_all worker items).
Proof.
  induction items as [|item rest IH]; intros Hw; [apply runs_only_ret|].
  cbn [submit_all]. apply runs_only_bind.
  - apply runs_only_submit. apply Hw. apply list_elem_of_here.
  - intros f. apply runs_only_bind.
    + apply IH. intros i Hi. apply Hw. apply list_elem_of_further. exact Hi.
    + intros fs. apply runs_only_ret.
Qed.

(** ** The phases of the delete pipeline *)

Section PhaseRuns.
Variable shell : Oracle.
Variable json_loads_locks : string → option (list Lock).
Variable as_completed : ∀ A : Type, list A → list A.
Variable sigint : option nat.

Lemma runs_only_switch_subscription subscription current :
  runs_only is_argv (switch_subscription shell subscription current).
Proof.
  unfold switch_subscription.
  destruct (negb (bool_decide (Some subscription = current))); [|apply runs_only_ret].
  apply runs_only_try_except.
  - apply runs_only_bind.
    + apply runs_only_run_az_command. intros n. eexists. reflexivity.
    + intros _. apply runs_only_ret.
  - intros e. apply runs_only_bind; [apply runs_only_logging_error|].
    intros _. apply runs_only_raise.
Qed.

Lemma runs_only_shell_prefix prefix line :
  startswith line prefix = true →
  runs_only (shell_prefix prefix) (run_az_command shell (Shell line)).
Proof.
  intros Hp. apply runs_only_run_az_command. intros n. exists line. auto.
Qed.

(** The pre-validation loop and the deletion loop start no process. *)
Lemma runs_only_pre_validate_loop Q completed : ∀ valid_snapshots results,
  runs_only Q (pre_validate_loop completed valid_snapshots results).
Proof.
  induction completed as [|item rest IH]; intros valid_snapshots results;
    [apply runs_only_ret|].
  cbn [pre_validate_loop]. apply runs_only_bind; [|intros acc; apply IH].
  unfold pre_validate_step. apply runs_only_try_except.
  - apply runs_only_bind; [apply runs_only_future_result|].
    intros [[[name|] status] data]; [|apply runs_only_ret].
    destruct (truthy name); apply runs_only_ret.
  - intros e. apply runs_only_bind; [apply runs_only_logging_error|].
    intros _. apply runs_only_ret.
Qed.

Lemma runs_only_delete_loop Q names completed : ∀ pending results,
  runs_only Q (delete_loop names pending completed results).
Proof.
  induction completed as [|item rest IH]; intros pending results; [apply runs_only_ret|].
  cbn [delete_loop].
  assert (Hstep : runs_only Q
            (let* results := delete_step names item results in
             delete_loop names (Nat.pred <$> pending) rest results)).
  { apply runs_only_bind; [|intros acc; apply IH].
    unfold delete_step. apply runs_only_try_except.
    - apply runs_only_bind; [apply runs_only_future_result|].
      intros success. cbv zeta.
      destruct (split "/" item.1 !! 2%nat); [|apply runs_only_raise].
      destruct success; apply runs_only_ret.
    - intros e. apply runs_only_bind; [apply runs_only_logging_error|].
      intros _. apply runs_only_ret. }
  destruct pending as [[|n]|]; [apply runs_only_raise|exact Hstep|exact Hstep].
Qed.

(** The lock phases run subscription switches and [az lock] commands. *)
Lemma runs_only_remove_locks sub rg locks : ∀ removed,
  runs_only (shell_prefix "az lock ") (remove_locks shell sub rg locks removed).
Proof.
  induction locks as [|lock rest IH]; intros removed; [apply runs_only_ret|].
  cbn [remove_locks]. destruct (String.eqb (lock_level lock) "CanNotDelete"); [|apply IH].
  apply runs_only_bind; [apply runs_only_shell_prefix; reflexivity|].
  intros result. destruct (negb (startswith result "Error:")); apply IH.
Qed.

Lemma runs_only_check_and_remove_scope_locks_loop resource_groups :
  ∀ current removed,
    runs_only lock_phase_run
      (check_and_remove_scope_locks_loop shell json_loads_locks resource_groups
         current removed).
Proof.
  induction resource_groups as [|[sub rg] rest IH]; intros current removed;
    [apply runs_only_ret|].
  cbn [check_and_remove_scope_locks_loop]. apply runs_only_bind.
  { eapply runs_only_mono; [|apply runs_only_switch_subscription].
    intros run H. left. exact H. }
  intros current'. apply runs_only_bind.
  { eapply runs_only_mono; [|apply (runs_only_shell_prefix "az lock "); reflexivity].
    intros run H. right. exact H. }
  intros listing. destruct (json_loads_locks listing) as [locks|]; [|apply runs_only_raise].
  apply runs_only_bind; [|intros removed'; apply IH].
  eapply runs_only_mono; [|apply runs_only_remove_locks]. intros run H. right. exact H.
Qed.

Lemma runs_only_restore_scope_locks_loop removed : ∀ current restored,
  runs_only lock_phase_run (restore_scope_locks_loop shell removed current restored).
Proof.
  induction removed as [|[[sub rg] name] rest IH]; intros current restored;
    [apply runs_only_ret|].
  cbn [restore_scope_locks_loop]. apply runs_only_bind.
  { eapply runs_only_mono; [|apply runs_only_switch_subscription].
    intros run H. left. exact H. }
  intros current'. apply runs_only_bind.
  { eapply runs_only_mono; [|apply (runs_only_shell_prefix "az lock "); reflexivity].
    intros run H. right. exact H. }
  intros result. destruct (negb (startswith result "Error:")); apply IH.
Qed.

End PhaseRuns.

(** ** The existence checks of the pre-validation pass *)

Lemma found_by_app_l new2 new1 snapshot_id :
  found_by new1 snapshot_id → found_by (new2 ++ new1) snapshot_id.
Proof.
  intros (out & Hin & Hok). exists out. split; [|exact Hok].
  rewrite ran_app. apply elem_of_app. right. exact Hin.
Qed.

Lemma found_by_app_r new2 new1 snapshot_id :
  found_by new2 snapshot_id → found_by (new2 ++ new1) snapshot_id.
Proof.
  intros (out & Hin & Hok). exists out. split; [|exact Hok].
  rewrite ran_app. apply elem_of_app. left. exact Hin.
Qed.

Lemma runs_only_nothing {A} (m : M A) s :
  runs_only (λ _, False) m → ran (trace (m s).2) = ran (trace s).
Proof.
  intros Hm. destruct (Hm s) as (new & Htr & HQ). rewrite Htr, ran_app.
  destruct (ran new) as [|run rest]; [reflexivity|].
  apply Forall_cons in HQ as [[] _].
Qed.

Section PreValidationRuns.
Variable shell : Oracle.
Variable as_completed : ∀ A : Type, list A → list A.
Hypothesis as_completed_perm : ∀ (A : Type) (l : list A), as_completed A l ≡ₚ l.

(** One worker call: no command for a malformed identifier, one existence
    check otherwise, and ["valid"] only when the check was not error-tagged. *)
Lemma process_snapshot_run snapshot_id names s :
  ∃ c s' new,
    process_snapshot shell snapshot_id names s = (Ok c, s')
    ∧ trace s' = new ++ trace s
    ∧ map fst (ran new)
      = (if decide (malformed snapshot_id) then []
         else [Shell (snapshot_show_command snapshot_id)])
    ∧ (∀ name data, c = (Some name, "valid", data) →
       ¬ malformed snapshot_id ∧ found_by new snapshot_id).
Proof.
  unfold process_snapshot.
  destruct (decide (malformed snapshot_id)) as [Hbad|Hgood].
  - rewrite process_snapshot_with_malformed by exact Hbad.
    eexists _, _, [_]. split; [reflexivity|]. split; [reflexivity|].
    split; [reflexivity|]. intros name data H. discriminate H.
  - rewrite process_snapshot_with_wellformed by exact Hgood.
    unfold check_snapshot_exists.
    destruct (run_az_command_shell_ran shell ("az snapshot show --ids " +:+ snapshot_id) s)
      as (text & new & Hrun & Hran & Hreply).
    rewrite (bind_Ok _ _ _ _ _ Hrun). unfold ret.
    destruct (negb (startswith text "Error:")) eqn:Herr;
      eexists _, _, new; (split; [reflexivity|]); (split; [reflexivity|]);
      (split; [rewrite Hran; reflexivity|]); intros name data H; [|discriminate H].
    split; [exact Hgood|]. eexists. rewrite Hran.
    split; [apply list_elem_of_here|].
    unfold error_tagged, snapshot_show_command. cbn [fst snd]. rewrite Hreply.
    apply negb_true_iff. exact Herr.
Qed.

Lemma submit_all_process_snapshot names snapshot_ids : ∀ s,
  ∃ futures s' new,
    submit_all (λ i, process_snapshot shell i names) snapshot_ids s = (Ok futures, s')
    ∧ trace s' = new ++ trace s
    ∧ map fst (ran new)
      ≡ₚ map (λ i, Shell (snapshot_show_command i))
           (filter (λ i, ¬ malformed i) snapshot_ids)
    ∧ Forall (λ p : string * Future Classification,
                p.1 ∈ snapshot_ids
                ∧ ∀ name data, p.2 = Ok (Some name, "valid", data) →
                    ¬ malformed p.1 ∧ found_by new p.1) futures.
Proof.
  induction snapshot_ids as [|i rest IH]; intros s.
  - exists [], s, []. split; [reflexivity|]. split; [reflexivity|].
    split; [reflexivity|constructor].
  - cbn [submit_all]. unfold bind at 1, submit at 1.
    destruct (process_snapshot_run i names s) as (c & s1 & new1 & Hrun1 & Htr1 & Hcmd1 & Hv1).
    rewrite Hrun1.
    destruct (IH s1) as (futures & s2 & new2 & Hrun2 & Htr2 & Hcmd2 & Hall).
    rewrite (bind_Ok _ _ _ _ _ Hrun2). unfold ret.
    exists ((i, Ok c) :: futures), s2, (new2 ++ new1).
    split; [reflexivity|].
    split; [rewrite Htr2, Htr1, app_assoc; reflexivity|].
    split.
    + rewrite ran_app, map_app, Hcmd2, Hcmd1.
      destruct (decide (malformed i)) as [Hbad|Hgood].
      * rewrite filter_cons_False by (intros H; exact (H Hbad)).
        rewrite app_nil_r. reflexivity.
      * rewrite filter_cons_True by exact Hgood. cbn [map].
        symmetry. apply Permutation_cons_append.
    + constructor.
      * cbn [fst snd]. split; [apply list_elem_of_here|].
        intros name data H. injection H as ->.
        destruct (Hv1 name data eq_refl) as [Hwf Hfound].
        split; [exact Hwf|]. apply found_by_app_l. exact Hfound.
      * eapply Forall_impl; [exact Hall|].
        intros p [Hin Hv]. split; [apply list_elem_of_further; exact Hin|].
        intros name data H. destruct (Hv name data H) as [Hwf Hfound].
        split; [exact Hwf|]. apply found_by_app_r. exact Hfound.
Qed.

Lemma pre_validate_snapshots_run snapshot_ids names s :
  ∃ valid_snapshots results s' new,
    pre_validate_snapshots shell as_completed snapshot_ids names s
    = (Ok (valid_snapshots, results), s')
    ∧ trace s' = new ++ trace s
    ∧ map fst (ran new)
      ≡ₚ map (λ i, Shell (snapshot_show_command i))
           (filter (λ i, ¬ malformed i) snapshot_ids)
    ∧ ∀ snapshot_id,
        snapshot_id ∈ valid_snapshots →
        snapshot_id ∈ snapshot_ids ∧ ¬ malformed snapshot_id ∧ found_by new snapshot_id.
Proof.
  destruct (submit_all_process_snapshot names snapshot_ids s)
    as (futures & s1 & new1 & Hsub & Htr1 & Hcmd & Hall).
  assert (Hset : Forall settled (as_completed _ futures)).
  { rewrite as_completed_perm.
    eapply (submit_all_settled (λ i, process_snapshot shell i names)); [|exact Hsub].
    apply process_snapshot_uninterrupted. }
  destruct (pre_validate_loop_spec _ [] ∅ s1 Hset) as [s' Hloop].
  pose proof (runs_only_pre_validate_loop (λ _, False) (as_completed _ futures) [] ∅ s1)
    as (new2 & Htr2 & HQ2).
  rewrite Hloop in Htr2. cbn [snd] in Htr2.
  assert (Hran2 : ran new2 = []).
  { destruct (ran new2) as [|run l]; [reflexivity|]. apply Forall_cons in HQ2 as [[] _]. }
  unfold pre_validate_snapshots, pre_validate_dispatch.
  rewrite (bind_Ok _ _ _ _ _ Hsub), Hloop.
  destruct (pre_fold (as_completed _ futures) ([], ∅)) as [valid results] eqn:Hfold.
  exists valid, results, s', (new2 ++ new1).
  split; [reflexivity|].
  split; [rewrite Htr2, Htr1, app_assoc; reflexivity|].
  split.
  - rewrite ran_app, Hran2. exact Hcmd.
  - intros x Hx.
    assert (Hx' : x ∈ (pre_fold (as_completed _ futures) ([], ∅)).1)
      by (rewrite Hfold; exact Hx).
    apply pre_fold_valid in Hx' as [Hx'|(sub & status & data & Hin & Hdel)].
    { apply elem_of_nil in Hx'. contradiction. }
    rewrite as_completed_perm in Hin.
    rewrite Forall_forall in Hall. destruct (Hall _ Hin) as [Hids Hv].
    cbn [fst snd] in Hids, Hv.
    pose proof (deletable_valid _ _ Hdel) as ->.
    destruct sub as [name|]; [|discriminate Hdel].
    destruct (Hv name data eq_refl) as [Hwf Hfound].
    split; [exact Hids|]. split; [exact Hwf|]. apply found_by_app_l. exact Hfound.
Qed.

End PreValidationRuns.

(** X5. The pre-validation pass always returns.  The commands it runs
    are one existence check for each identifier of the input that has at
    least nine path segments, as many times as the identifier occurs, in
    whatever order the pool takes them, and no other command; every
    identifier it hands over to deletion comes from the input, is
    well-formed, and had an existence check whose reply was not
    error-tagged. *)
Theorem pre_validation_checks
    (shell : Oracle) (as_completed : ∀ A : Type, list A → list A)
    (snapshot_ids : list string) (names : gmap string string) (s : State) :
  (∀ (A : Type) (l : list A), as_completed A l ≡ₚ l) →
  ∃ valid_snapshots results s' new,
    pre_validate_snapshots shell as_completed snapshot_ids names s
    = (Ok (valid_snapshots, results), s')
    ∧ trace s' = new ++ trace s
    ∧ map fst (ran new)
      ≡ₚ map (λ i, Shell (snapshot_show_command i))
           (filter (λ i, ¬ malformed i) snapshot_ids)
    ∧ ∀ snapshot_id,
        snapshot_id ∈ valid_snapshots →
        snapshot_id ∈ snapshot_ids ∧ ¬ malformed snapshot_id ∧ found_by new snapshot_id.
Proof.
  intros Hperm. apply pre_validate_snapshots_run. exact Hperm.
Qed.

Lemma pre_validation_checks_witness :
  ∃ valid_snapshots results s' new,
    pre_validate_snapshots all_succeed in_order [snap_1; "not/a/snapshot"] ∅ initial_state
    = (Ok (valid_snapshots, results), s')
    ∧ trace s' = new ++ trace initial_state
    ∧ map fst (ran new)
      ≡ₚ map (λ i, Shell (snapshot_show_command i))
           (filter (λ i, ¬ malformed i) [snap_1; "not/a/snapshot"])
    ∧ ∀ snapshot_id,
        snapshot_id ∈ valid_snapshots →
        snapshot_id ∈ [snap_1; "not/a/snapshot"] ∧ ¬ malformed snapshot_id
        ∧ found_by new snapshot_id.
Proof.
  apply (pre_validation_checks all_succeed in_order [snap_1; "not/a/snapshot"] ∅
           initial_state).
  intros A l. reflexivity.
Defined.

(** ** What the delete pipeline deletes *)

Lemma append_inj_l (p a b : string) : p +:+ a = p +:+ b → a = b.
Proof.
  induction p as [|c p IH]; intros H; [exact H|].
  change (String c (p +:+ a) = String c (p +:+ b)) in H.
  injection H as H. apply IH. exact H.
Qed.

Section DeleteRuns.
Variable shell : Oracle.
Variable json_loads_locks : string → option (list Lock).
Variable as_completed : ∀ A : Type, list A → list A.
Variable sigint : option nat.

Lemma runs_only_delete_valid_snapshots valid_snapshots names :
  runs_only (deletes_one_of valid_snapshots)
    (delete_valid_snapshots shell as_completed sigint valid_snapshots names).
Proof.
  unfold delete_valid_snapshots, delete_dispatch. apply runs_only_bind.
  - apply runs_only_submit_all. intros item Hin. unfold delete_snapshot.
    apply runs_only_bind; [|intros result; apply runs_only_ret].
    apply runs_only_run_az_command. intros n. exists item. split; [exact Hin|reflexivity].
  - intros futures. apply runs_only_delete_loop.
Qed.

(** After the pre-validation, the pipeline runs subscription switches,
    [az lock] commands and deletions of the valid snapshots only. *)
Lemma runs_only_after_pre_validation valid_snapshots names
    (pre_validation_results : Aggregate) :
  runs_only (λ run, lock_phase_run run ∨ deletes_one_of valid_snapshots run)
    (let* removed_locks :=
       check_and_remove_scope_locks shell json_loads_locks
         (get_resource_groups_from_snapshots valid_snapshots) in
     let* deletion_results :=
       delete_valid_snapshots shell as_completed sigint valid_snapshots names in
     let* restored_locks := restore_scope_locks shell removed_locks in
     ret (merge_results pre_validation_results deletion_results)).
Proof.
  apply runs_only_bind.
  { eapply runs_only_mono; [|apply runs_only_check_and_remove_scope_locks_loop].
    intros run H. left. exact H. }
  intros removed. apply runs_only_bind.
  { eapply runs_only_mono; [|apply runs_only_delete_valid_snapshots].
    intros run H. right. exact H. }
  intros deletion_results. apply runs_only_bind; [|intros n; apply runs_only_ret].
  eapply runs_only_mono; [|apply runs_only_restore_scope_locks_loop].
  intros run H. left. exact H.
Qed.

End DeleteRuns.

(** X6. Whatever its outcome, the delete pipeline deletes only what it
    checked first.  Its commands are those of the pre-validation pass, the
    existence checks of the well-formed identifiers in whatever order the
    pool takes them, followed by those of the later phases; every
    [az snapshot delete] command among the latter is for an identifier of
    the input that has at least nine path segments and whose existence
    check in the pre-validation pass was not error-tagged. *)
Theorem delete_snapshots_deletes_only_found
    (shell : Oracle) (json_loads_locks : string → option (list Lock))
    (as_completed : ∀ A : Type, list A → list A) (sigint : option nat)
    (snapshot_ids : list string) (names : gmap string string) (s : State) :
  (∀ (A : Type) (l : list A), as_completed A l ≡ₚ l) →
  ∃ checks later,
    trace (delete_snapshots shell json_loads_locks as_completed sigint
             snapshot_ids names s).2 = later ++ checks ++ trace s
    ∧ map fst (ran checks)
      ≡ₚ map (λ i, Shell (snapshot_show_command i))
           (filter (λ i, ¬ malformed i) snapshot_ids)
    ∧ ∀ snapshot_id out,
        (Shell (snapshot_delete_command snapshot_id), out) ∈ ran later →
        snapshot_id ∈ snapshot_ids
        ∧ ¬ malformed snapshot_id
        ∧ found_by checks snapshot_id.
Proof.
  intros Hperm.
  destruct (pre_validate_snapshots_run shell as_completed Hperm snapshot_ids names s)
    as (valid & pre & s1 & checks & Hpre & Htr1 & Hcmd & Hvalid).
  unfold delete_snapshots. rewrite (bind_Ok _ _ _ _ _ Hpre). cbn [fst snd].
  destruct valid as [|v valid'] eqn:Hv.
  { exists checks, []. split; [exact Htr1|]. split; [exact Hcmd|].
    intros x out Hin. apply elem_of_nil in Hin. contradiction. }
  rewrite <- Hv in *. clear Hv.
  destruct (runs_only_after_pre_validation shell json_loads_locks as_completed sigint
              valid names pre s1) as (later & Htr2 & HQ).
  exists checks, later. split; [rewrite Htr2, Htr1; reflexivity|].
  split; [exact Hcmd|].
  intros x out Hin. rewrite Forall_forall in HQ.
  destruct (HQ _ Hin) as [[[args Hargv]|(line & Hline & Hp)]|(x' & Hx' & Hline)];
    cbn [fst] in *.
  - discriminate Hargv.
  - injection Hline as <-. discriminate Hp.
  - injection Hline as Hline. apply append_inj_l in Hline as ->.
    apply Hvalid. exact Hx'.
Qed.

Lemma delete_snapshots_deletes_only_found_witness :
  ∃ checks later,
    trace (delete_snapshots all_succeed one_lock in_order None [snap_1] ∅
             initial_state).2 = later ++ checks ++ trace initial_state
    ∧ map fst (ran checks)
      ≡ₚ map (λ i, Shell (snapshot_show_command i))
           (filter (λ i, ¬ malformed i) [snap_1])
    ∧ ∀ snapshot_id out,
        (Shell (snapshot_delete_command snapshot_id), out) ∈ ran later →
        snapshot_id ∈ [snap_1]
        ∧ ¬ malformed snapshot_id
        ∧ found_by checks snapshot_id.
Proof.
  apply (delete_snapshots_deletes_only_found all_succeed one_lock in_order None
           [snap_1] ∅ initial_state).
  intros A l. reflexivity.
Defined.

(** ** When the pipeline stops short *)

Section StopsShort.
Variable shell : Oracle.
Variable json_loads_locks : string → option (list Lock).
Variable as_completed : ∀ A : Type, list A → list A.
Variable sigint : option nat.

Lemma remove_locks_returns sub rg locks : ∀ removed s,
  ∃ removed' s', remove_locks shell sub rg locks removed s = (Ok removed', s').
Proof.
  induction locks as [|lock rest IH]; intros removed s; [eexists _, _; reflexivity|].
  cbn [remove_locks]. destruct (String.eqb (lock_level lock) "CanNotDelete"); [|apply IH].
  destruct (run_az_command_shell_ran shell (lock_delete_command (lock_name lock) rg) s)
    as (text & new & Hcmd & _).
  rewrite (bind_Ok _ _ _ _ _ Hcmd).
  destruct (negb (startswith text "Error:")); apply IH.
Qed.

Lemma runs_only_removal_remove_locks sub rg locks : ∀ removed,
  runs_only removal_run (remove_locks shell sub rg locks removed).
Proof.
  induction locks as [|lock rest IH]; intros removed; [apply runs_only_ret|].
  cbn [remove_locks]. destruct (String.eqb (lock_level lock) "CanNotDelete"); [|apply IH].
  apply runs_only_bind.
  { eapply runs_only_mono;
      [|apply (runs_only_shell_prefix shell "az lock delete"); reflexivity].
    intros run H. right. right. exact H. }
  intros result. destruct (negb (startswith result "Error:")); apply IH.
Qed.

Lemma runs_only_removal resource_groups : ∀ current removed,
  runs_only removal_run
    (check_and_remove_scope_locks_loop shell json_loads_locks resource_groups
       current removed).
Proof.
  induction resource_groups as [|[sub rg] rest IH]; intros current removed;
    [apply runs_only_ret|].
  cbn [check_and_remove_scope_locks_loop]. apply runs_only_bind.
  { eapply runs_only_mono; [|apply runs_only_switch_subscription].
    intros run H. left. exact H. }
  intros current'. apply runs_only_bind.
  { eapply runs_only_mono;
      [|apply (runs_only_shell_prefix shell "az lock list"); reflexivity].
    intros run H. right. left. exact H. }
  intros listing. destruct (json_loads_locks listing) as [locks|]; [|apply runs_only_raise].
  apply runs_only_bind; [|intros removed'; apply IH].
  apply runs_only_removal_remove_locks.
Qed.

(** A resource group whose lock listing is never parsable. *)
Lemma removal_raises resource_groups sub rg :
  (∀ n text,
     reply (Shell (lock_list_command rg)) (shell n (Shell (lock_list_command rg)))
     = Ok text →
     json_loads_locks text = None) →
  (sub, rg) ∈ resource_groups →
  ∀ current removed s,
    ∃ e s2,
      check_and_remove_scope_locks_loop shell json_loads_locks resource_groups
        current removed s = (Raise e, s2).
Proof.
  intros Hbad.
  induction resource_groups as [|[sub' rg'] rest IH]; intros Hin current removed s.
  { apply elem_of_nil in Hin. contradiction. }
  cbn [check_and_remove_scope_locks_loop].
  destruct (switch_subscription shell sub' current s) as [[current'|e] s1] eqn:Hsw.
  2:{ rewrite (bind_Raise _ _ _ _ _ Hsw). eauto. }
  rewrite (bind_Ok _ _ _ _ _ Hsw).
  destruct (run_az_command_shell_ran shell (lock_list_command rg') s1)
    as (text & new & Hcmd & _ & Hreply).
  rewrite (bind_Ok _ _ _ _ _ Hcmd).
  destruct (json_loads_locks text) as [locks|] eqn:Hjson; [|unfold raise; eauto].
  apply elem_of_cons in Hin as [Heq|Hin].
  - injection Heq as -> ->. rewrite (Hbad _ _ Hreply) in Hjson. discriminate Hjson.
  - destruct (remove_locks_returns sub' rg' locks removed
                (mkState (S (ncalls s1)) (new ++ trace s1))) as (removed' & s3 & Hrm).
    rewrite (bind_Ok _ _ _ _ _ Hrm). apply IH. exact Hin.
Qed.

Lemma runs_only_process_snapshot_with Q (check : string → M bool) snapshot_id names :
  runs_only Q (check snapshot_id) →
  runs_only Q (process_snapshot_with check snapshot_id names).
Proof.
  intros Hcheck. unfold process_snapshot_with. apply runs_only_try_except.
  - cbv zeta. destruct (length (split "/" snapshot_id) <? 9)%nat.
    + apply runs_only_bind; [apply runs_only_logging_error|].
      intros _. apply runs_only_ret.
    + apply runs_only_bind; [exact Hcheck|].
      intros found. destruct (negb found); apply runs_only_ret.
  - intros e. apply runs_only_bind; [apply runs_only_logging_error|].
    intros _. apply runs_only_ret.
Qed.

Lemma runs_only_answered_pre_validate_snapshots snapshot_ids names :
  runs_only (answered_by shell)
    (pre_validate_snapshots shell as_completed snapshot_ids names).
Proof.
  unfold pre_validate_snapshots, pre_validate_dispatch. apply runs_only_bind.
  - apply runs_only_submit_all. intros item _. unfold process_snapshot.
    apply runs_only_process_snapshot_with. unfold check_snapshot_exists.
    apply runs_only_bind; [|intros result; apply runs_only_ret].
    apply runs_only_run_az_command. intros n. exists n. reflexivity.
  - intros futures. apply runs_only_pre_validate_loop.
Qed.

End StopsShort.

(** X7. When the lock listing of the resource group of some valid
    snapshot never parses (as when [az lock list] fails there), the delete
    pipeline ends in an exception during the lock removal: after the
    pre-validation it has run subscription switches, lock listings and lock
    deletions only, so no snapshot is deleted and no lock removed so far is
    re-created. *)
Theorem unparsable_lock_listing_aborts
    (shell : Oracle) (json_loads_locks : string → option (list Lock))
    (as_completed : ∀ A : Type, list A → list A) (sigint : option nat)
    (snapshot_ids : list string) (names : gmap string string) (s : State)
    (valid_snapshots : list string) (pre : Aggregate) (s1 : State)
    (snapshot_id subscription_id resource_group : string) :
  pre_validate_snapshots shell as_completed snapshot_ids names s
  = (Ok (valid_snapshots, pre), s1) →
  snapshot_id ∈ valid_snapshots →
  split "/" snapshot_id !! 2%nat = Some subscription_id →
  split "/" snapshot_id !! 4%nat = Some resource_group →
  (∀ n text,
     reply (Shell (lock_list_command resource_group))
       (shell n (Shell (lock_list_command resource_group))) = Ok text →
     json_loads_locks text = None) →
  ∃ e s2 new,
    delete_snapshots shell json_loads_locks as_completed sigint snapshot_ids names s
    = (Raise e, s2)
    ∧ trace s2 = new ++ trace s1
    ∧ Forall removal_run (ran new).
Proof.
  intros Hpre Hin H2 H4 Hbad.
  assert (Hrg : (subscription_id, resource_group)
                ∈ elements (get_resource_groups_from_snapshots valid_snapshots)).
  { apply elem_of_elements. unfold get_resource_groups_from_snapshots.
    apply resource_groups_fold. right. exists snapshot_id.
    split; [exact Hin|]. split; [|auto].
    apply lookup_lt_Some in H4. lia. }
  destruct (removal_raises shell json_loads_locks _ _ _ Hbad Hrg None [] s1)
    as (e & s2 & Hraise).
  destruct (runs_only_removal shell json_loads_locks
              (elements (get_resource_groups_from_snapshots valid_snapshots)) None [] s1)
    as (new & Htr & HQ).
  rewrite Hraise in Htr. cbn [snd] in Htr.
  exists e, s2, new. split; [|auto].
  unfold delete_snapshots. rewrite (bind_Ok _ _ _ _ _ Hpre). cbn [fst snd].
  destruct valid_snapshots as [|v rest]; [apply elem_of_nil in Hin; contradiction|].
  unfold check_and_remove_scope_locks. rewrite (bind_Raise _ _ _ _ _ Hraise). reflexivity.
Qed.

Lemma unparsable_lock_listing_aborts_witness :
  ∃ e s2,
    delete_snapshots all_succeed no_listing in_order None [snap_1] ∅ initial_state
    = (Raise e, s2).
Proof.
  destruct (unparsable_lock_listing_aborts all_succeed no_listing in_order None
              [snap_1] ∅ initial_state [snap_1]
              {[ "sub-1" := {[ "valid" := [Name "snap-1"] ]} ]}
              (mkState 1 [Ran (Shell (snapshot_show_command snap_1)) (Exited "[lock]" "" 0)])
              snap_1 "sub-1" "rg-1")
    as (e & s2 & new & Hrun & _).
  - vm_compute. reflexivity.
  - apply list_elem_of_here.
  - vm_compute. reflexivity.
  - vm_compute. reflexivity.
  - intros n text _. reflexivity.
  - exists e, s2. exact Hrun.
Defined.

(** X8. When every existence check comes back error-tagged, the delete
    pipeline returns the pre-validation aggregate as it is, hands nothing
    over to deletion, and runs the existence checks of the well-formed
    identifiers, in whatever order the pool takes them, and nothing else:
    no lock is listed or removed, no snapshot deleted. *)
Theorem nothing_found_nothing_touched
    (shell : Oracle) (json_loads_locks : string → option (list Lock))
    (as_completed : ∀ A : Type, list A → list A) (sigint : option nat)
    (snapshot_ids : list string) (names : gmap string string) (s : State) :
  (∀ (A : Type) (l : list A), as_completed A l ≡ₚ l) →
  (∀ n snapshot_id,
     error_tagged (Shell (snapshot_show_command snapshot_id),
                   shell n (Shell (snapshot_show_command snapshot_id))) = true) →
  ∃ results s' new,
    delete_snapshots shell json_loads_locks as_completed sigint snapshot_ids names s
    = (Ok results, s')
    ∧ pre_validate_snapshots shell as_completed snapshot_ids names s
      = (Ok ([], results), s')
    ∧ trace s' = new ++ trace s
    ∧ map fst (ran new)
      ≡ₚ map (λ i, Shell (snapshot_show_command i))
           (filter (λ i, ¬ malformed i) snapshot_ids).
Proof.
  intros Hperm Hfail.
  destruct (pre_validate_snapshots_run shell as_completed Hperm snapshot_ids names s)
    as (valid & pre & s1 & new & Hpre & Htr & Hcmd & Hvalid).
  destruct (runs_only_answered_pre_validate_snapshots shell as_completed
              snapshot_ids names s) as (new' & Htr' & Hans).
  rewrite Hpre in Htr'. cbn [snd] in Htr'. rewrite Htr in Htr'.
  apply app_inv_tail in Htr'. subst new'.
  assert (Hnone : valid = []).
  { destruct valid as [|v rest]; [reflexivity|]. exfalso.
    destruct (Hvalid v (list_elem_of_here _ _)) as (_ & _ & out & Hin & Hok).
    rewrite Forall_forall in Hans. destruct (Hans _ Hin) as [n Hn].
    cbn [fst snd] in Hn. subst out. rewrite Hfail in Hok. discriminate Hok. }
  subst valid. exists pre, s1, new.
  split; [|auto].
  unfold delete_snapshots. rewrite (bind_Ok _ _ _ _ _ Hpre). reflexivity.
Qed.

Lemma nothing_found_nothing_touched_witness :
  ∃ results s' new,
    delete_snapshots all_fail one_lock in_order None [snap_1] ∅ initial_state
    = (Ok results, s')
    ∧ pre_validate_snapshots all_fail in_order [snap_1] ∅ initial_state
      = (Ok ([], results), s')
    ∧ trace s' = new ++ trace initial_state
    ∧ map fst (ran new)
      ≡ₚ map (λ i, Shell (snapshot_show_command i))
           (filter (λ i, ¬ malformed i) [snap_1]).
Proof.
  apply (nothing_found_nothing_touched all_fail one_lock in_order None [snap_1] ∅
           initial_state).
  - intros A l. reflexivity.
  - intros n snapshot_id. reflexivity.
Defined.

(** ** Which locks are removed *)

Lemma listed_blocking_mono json_loads_locks tr tr' rg lock :
  (∀ run, run ∈ ran tr → run ∈ ran tr') →
  listed_blocking json_loads_locks tr rg lock →
  listed_blocking json_loads_locks tr' rg lock.
Proof.
  intros Hsub (out & text & locks & Hin & Hrest).
  exists out, text, locks. split; [apply Hsub; exact Hin|exact Hrest].
Qed.

Section RemovedLocks.
Variable shell : Oracle.
Variable json_loads_locks : string → option (list Lock).

Lemma runs_only_blocking_remove_locks sub rg locks : ∀ removed,
  runs_only
    (λ run, ∃ lock,
       lock ∈ locks ∧ lock_level lock = "CanNotDelete"
       ∧ run.1 = Shell (lock_delete_command (lock_name lock) rg))
    (remove_locks shell sub rg locks removed).
Proof.
  induction locks as [|lock rest IH]; intros removed; [apply runs_only_ret|].
  assert (Hrest : ∀ removed',
            runs_only
              (λ run, ∃ lock0,
                 lock0 ∈ lock :: rest ∧ lock_level lock0 = "CanNotDelete"
                 ∧ run.1 = Shell (lock_delete_command (lock_name lock0) rg))
              (remove_locks shell sub rg rest removed')).
  { intros removed'. eapply runs_only_mono; [|apply IH].
    intros run (lock0 & Hin & Hrest). exists lock0.
    split; [apply list_elem_of_further; exact Hin|exact Hrest]. }
  cbn [remove_locks].
  destruct (String.eqb (lock_level lock) "CanNotDelete") eqn:Hlevel; [|apply Hrest].
  apply String.eqb_eq in Hlevel.
  apply runs_only_bind.
  - apply runs_only_run_az_command. intros n. exists lock.
    split; [apply list_elem_of_here|]. split; [exact Hlevel|reflexivity].
  - intros result. destruct (negb (startswith result "Error:")); apply Hrest.
Qed.

Lemma removal_history resource_groups : ∀ current removed s,
  ∃ new,
    trace (check_and_remove_scope_locks_loop shell json_loads_locks resource_groups
             current removed s).2 = new ++ trace s
    ∧ ∀ run, run ∈ ran new →
        is_argv run
        ∨ (∃ rg, run.1 = Shell (lock_list_command rg))
        ∨ (∃ sub rg lock,
             (sub, rg) ∈ resource_groups
             ∧ listed_blocking json_loads_locks new rg lock
             ∧ run.1 = Shell (lock_delete_command (lock_name lock) rg)).
Proof.
  induction resource_groups as [|[sub rg] rest IH]; intros current removed s.
  { exists []. split; [reflexivity|]. intros run Hin.
    apply elem_of_nil in Hin. contradiction. }
  cbn [check_and_remove_scope_locks_loop].
  destruct (runs_only_switch_subscription shell sub current s) as (new1 & Htr1 & Hargv).
  rewrite Forall_forall in Hargv.
  destruct (switch_subscription shell sub current s) as [[current'|e] s1] eqn:Hsw;
    cbn [snd] in Htr1.
  2:{ rewrite (bind_Raise _ _ _ _ _ Hsw). exists new1. split; [exact Htr1|].
      intros run Hin. left. apply Hargv. exact Hin. }
  rewrite (bind_Ok _ _ _ _ _ Hsw).
  destruct (run_az_command_shell_ran shell (lock_list_command rg) s1)
    as (text & new2 & Hcmd & Hran2 & Hreply).
  rewrite (bind_Ok _ _ _ _ _ Hcmd).
  set (s2 := mkState (S (ncalls s1)) (new2 ++ trace s1)) in *.
  destruct (json_loads_locks text) as [locks|] eqn:Hjson.
  2:{ exists (new2 ++ new1). split.
      - unfold raise, s2. cbn [snd trace]. rewrite Htr1, app_assoc. reflexivity.
      - intros run Hin. rewrite ran_app in Hin. apply elem_of_app in Hin as [Hin|Hin].
        + rewrite Hran2 in Hin. apply list_elem_of_singleton in Hin as ->.
          right. left. exists rg. reflexivity.
        + left. apply Hargv. exact Hin. }
  destruct (remove_locks_returns shell sub rg locks removed s2) as (removed' & s3 & Hrm).
  destruct (runs_only_blocking_remove_locks sub rg locks removed s2)
    as (new3 & Htr3 & Hblocking).
  rewrite Hrm in Htr3. cbn [snd] in Htr3. rewrite Forall_forall in Hblocking.
  rewrite (bind_Ok _ _ _ _ _ Hrm).
  destruct (IH current' removed' s3) as (new4 & Htr4 & Hrest).
  exists (new4 ++ new3 ++ new2 ++ new1). split.
  { rewrite Htr4, Htr3. unfold s2. cbn [trace]. rewrite Htr1, <- !app_assoc. reflexivity. }
  intros run Hin. rewrite !ran_app in Hin.
  apply elem_of_app in Hin as [Hin|Hin]; [|apply elem_of_app in Hin as [Hin|Hin];
    [|apply elem_of_app in Hin as [Hin|Hin]]].
  - destruct (Hrest run Hin) as [H|[H|(sub' & rg' & lock & Hrg & Hlisted & Hrun)]];
      [left; exact H|right; left; exact H|].
    right. right. exists sub', rg', lock.
    split; [apply list_elem_of_further; exact Hrg|]. split; [|exact Hrun].
    eapply listed_blocking_mono; [|exact Hlisted].
    intros r Hr. rewrite ran_app. apply elem_of_app. left. exact Hr.
  - destruct (Hblocking run Hin) as (lock & Hlock & Hlevel & Hrun).
    right. right. exists sub, rg, lock.
    split; [apply list_elem_of_here|]. split; [|exact Hrun].
    exists (shell (ncalls s1) (Shell (lock_list_command rg))), text, locks.
    split; [|auto].
    rewrite !ran_app, Hran2. apply elem_of_app. right. apply elem_of_app. right.
    apply elem_of_app. left. apply list_elem_of_here.
  - rewrite Hran2 in Hin. apply list_elem_of_singleton in Hin as ->.
    right. left. exists rg. reflexivity.
  - left. apply Hargv. exact Hin.
Qed.

End RemovedLocks.

(** X9. Whatever its outcome, the lock removal deletes only locks that
    block deletion: every [az lock delete] command it runs names a lock of
    level [CanNotDelete] that a parsed [az lock list] of the same resource
    group, one of the resource groups at hand, reported. *)
Theorem only_blocking_locks_are_removed
    (shell : Oracle) (json_loads_locks : string → option (list Lock))
    (resource_groups : gset (string * string)) (s : State) :
  ∃ new,
    trace (check_and_remove_scope_locks shell json_loads_locks resource_groups s).2
    = new ++ trace s
    ∧ ∀ run, run ∈ lock_deletes new →
        ∃ subscription_id resource_group lock,
          (subscription_id, resource_group) ∈ resource_groups
          ∧ listed_blocking json_loads_locks new resource_group lock
          ∧ run.1 = Shell (lock_delete_command (lock_name lock) resource_group).
Proof.
  unfold check_and_remove_scope_locks.
  destruct (removal_history shell json_loads_locks (elements resource_groups) None [] s)
    as (new & Htr & Hruns).
  exists new. split; [exact Htr|].
  intros run Hin. unfold lock_deletes in Hin.
  apply list_elem_of_In, in_rev, list_elem_of_In in Hin.
  apply list_elem_of_filter in Hin as [Hdel Hin].
  destruct (Hruns run Hin) as [[args Hargv]|[[rg Hlist]|(sub & rg & lock & Hrg & Hrest)]].
  - unfold is_lock_delete in Hdel. rewrite Hargv in Hdel. discriminate Hdel.
  - unfold is_lock_delete in Hdel. rewrite Hlist in Hdel. discriminate Hdel.
  - exists sub, rg, lock. split; [apply elem_of_elements; exact Hrg|exact Hrest].
Qed.

(** * The batch of snapshot creations *)

Section CreateBatchFacts.
Variable shell : Oracle.
Variable json_loads_snapshot : string → SnapshotJson.
Variable now : datetime.


(** A resource path with fewer than three segments. *)
Lemma process_vm_short_path resource_id vm_name chg_number s :
  (length (split "/" resource_id) < 3)%nat →
  ∃ s',
    process_vm shell json_loads_snapshot now resource_id vm_name chg_number s
    = (Raise (Exception "IndexError" "list index out of range"), s').
Proof.
  intros Hlen. unfold process_vm. rewrite !log_bind.
  rewrite (lookup_ge_None_2 (split "/" resource_id) 2%nat) by lia.
  eexists. reflexivity.
Qed.

(** A line that does not have two fields. *)
Lemma create_step_invalid chg_number line successful failed s :
  length (split_whitespace line) ≠ 2%nat →
  create_step shell json_loads_snapshot now chg_number line successful failed s
  = (Ok (successful, failed ++ [(line, "Invalid line format")]),
     log_lines ["Error: Invalid line format in snapshot_vmlist.txt: " +:+ line] s).
Proof.
  intros Hlen. unfold create_step, try_except_ValueError.
  destruct (split_whitespace line) as [|rid [|vm [|x l]]]; try reflexivity.
  exfalso. apply Hlen. reflexivity.
Qed.



(** A line with a short resource path stops the loop, wherever it is. *)
Lemma create_loop_short_path chg_number line resource_id vm_name vm_list :
  split_whitespace line = [resource_id; vm_name] →
  (length (split "/" resource_id) < 3)%nat →
  line ∈ vm_list →
  ∀ successful failed s,
    ∃ e s',
      create_loop shell json_loads_snapshot now chg_number vm_list successful failed s
      = (Raise e, s').
Proof.
  intros Hfields Hshort.
  induction vm_list as [|line0 rest IH]; intros Hin successful failed s.
  { apply elem_of_nil in Hin. contradiction. }
  cbn [create_loop].
  destruct (create_step shell json_loads_snapshot now chg_number line0 successful failed s)
    as [[acc|e] s1] eqn:Hstep.
  2:{ rewrite (bind_Raise _ _ _ _ _ Hstep). eauto. }
  rewrite (bind_Ok _ _ _ _ _ Hstep).
  apply elem_of_cons in Hin as [<-|Hin]; [|apply IH; exact Hin].
  exfalso. unfold create_step, try_except_ValueError in Hstep.
  rewrite Hfields in Hstep. unfold unpack_pair in Hstep.
  rewrite (bind_Ok (ret (resource_id, vm_name)) _ s (resource_id, vm_name) s eq_refl)
    in Hstep.
  destruct (process_vm_short_path resource_id vm_name chg_number s Hshort) as [s2 Hvm].
  rewrite (bind_Raise _ _ _ _ _ Hvm) in Hstep. discriminate Hstep.
Qed.

End CreateBatchFacts.



(** X11. A line of the VM list that does not consist of exactly two
    fields starts no child process: it goes to the failed list as the pair
    of the whole line and ["Invalid line format"], with one line in the
    detail log, and the loop goes on. *)
Theorem invalid_line_is_reported
    (shell : Oracle) (json_loads_snapshot : string → SnapshotJson) (now : datetime)
    (chg_number line : string) (successful failed : list (string * string)) (s : State) :
  length (split_whitespace line) ≠ 2%nat →
  create_step shell json_loads_snapshot now chg_number line successful failed s
  = (Ok (successful, failed ++ [(line, "Invalid line format")]),
     log_lines ["Error: Invalid line format in snapshot_vmlist.txt: " +:+ line] s).
Proof.
  apply create_step_invalid.
Qed.

Lemma invalid_line_is_reported_witness :
  create_step vm_all_succeed unparsable a_clock "CHG1" "garbage" [] [] initial_state
  = (Ok ([], [("garbage", "Invalid line format")]),
     log_lines ["Error: Invalid line format in snapshot_vmlist.txt: garbage"] initial_state).
Proof.
  apply (invalid_line_is_reported vm_all_succeed unparsable a_clock "CHG1" "garbage" [] []
           initial_state).
  vm_compute. discriminate.
Defined.

(** X12. A two-field line whose resource path has fewer than three
    segments is not caught by the loop: the [IndexError] of [process_vm]
    is no [ValueError], so [create_snapshots] ends in an exception wherever
    the line stands in the list, and no report or summary is produced. *)
Theorem short_resource_path_aborts_batch
    (shell : Oracle) (json_loads_snapshot : string → SnapshotJson) (now : datetime)
    (chg_number : string) (lines : list string) (line resource_id vm_name : string)
    (s : State) :
  line ∈ read_vm_list lines →
  split_whitespace line = [resource_id; vm_name] →
  (length (split "/" resource_id) < 3)%nat →
  ∃ e s',
    create_snapshots shell json_loads_snapshot now chg_number (Some lines) s
    = (Raise e, s').
Proof.
  intros Hin Hfields Hshort. unfold create_snapshots.
  destruct (create_loop_short_path shell json_loads_snapshot now chg_number line
              resource_id vm_name (read_vm_list lines) Hfields Hshort Hin [] [] s)
    as (e & s' & Hloop).
  rewrite (bind_Raise _ _ _ _ _ Hloop). eauto.
Qed.

Lemma short_resource_path_aborts_batch_witness :
  ∃ e s',
    create_snapshots vm_all_succeed unparsable a_clock "CHG1"
      (Some [vm_1 +:+ " vm-1"; "vm-2 vm-2"]) initial_state = (Raise e, s').
Proof.
  apply (short_resource_path_aborts_batch vm_all_succeed unparsable a_clock "CHG1"
           [vm_1 +:+ " vm-1"; "vm-2 vm-2"] "vm-2 vm-2" "vm-2" "vm-2" initial_state).
  - vm_compute. apply list_elem_of_further. apply list_elem_of_here.
  - vm_compute. reflexivity.
  - vm_compute. lia.
Defined.

(** * The shape of the results and their export *)

Lemma well_shaped_empty : well_shaped ∅.
Proof.
  intros key status item Hin. unfold buckets_of, bucket in Hin.
  rewrite lookup_empty in Hin. cbn in Hin. rewrite lookup_empty in Hin.
  apply elem_of_nil in Hin. contradiction.
Qed.

Lemma well_shaped_append key status item (results : Aggregate) :
  shape_ok status item → well_shaped results →
  well_shaped (append_outcome key status item results).
Proof.
  intros Hitem Hres key' status' item' Hin. rewrite bucket_append in Hin.
  destruct (decide (key = key' ∧ status = status')) as [[<- <-]|_];
    [|exact (Hres _ _ _ Hin)].
  apply elem_of_app in Hin as [Hin|Hin]; [exact (Hres _ _ _ Hin)|].
  apply list_elem_of_singleton in Hin as ->. exact Hitem.
Qed.

Lemma well_shaped_merge (pre del : Aggregate) :
  well_shaped pre → well_shaped del → well_shaped (merge_results pre del).
Proof.
  intros Hpre Hdel key status item Hin. rewrite bucket_merge in Hin.
  destruct (buckets_of del key !! status) as [l|] eqn:Hl; [|exact (Hpre _ _ _ Hin)].
  apply (Hdel key). unfold bucket. rewrite Hl. exact Hin.
Qed.

Lemma shape_ok_name status snapshot :
  status ∈ name_statuses → shape_ok status (Name snapshot).
Proof. intros H. unfold shape_ok. rewrite bool_decide_eq_true_2 by exact H. eauto. Qed.

Lemma shape_ok_pair status snapshot error :
  status ∉ name_statuses → shape_ok status (WithError snapshot error).
Proof. intros H. unfold shape_ok. rewrite bool_decide_eq_false_2 by exact H. eauto. Qed.

Section ShapeFacts.
Variable shell : Oracle.
Variable json_loads_locks : string → option (list Lock).
Variable as_completed : ∀ A : Type, list A → list A.
Variable sigint : option nat.
Hypothesis as_completed_perm : ∀ (A : Type) (l : list A), as_completed A l ≡ₚ l.

(** What [process_snapshot] returns has the shape its status wants. *)
Lemma process_snapshot_shape snapshot_id names s sub status data :
  (process_snapshot shell snapshot_id names s).1 = Ok (sub, status, data) →
  shape_ok status data.
Proof.
  unfold process_snapshot.
  destruct (decide (malformed snapshot_id)) as [Hbad|Hgood].
  - rewrite process_snapshot_with_malformed by exact Hbad.
    intros [= <- <- <-]. apply shape_ok_pair. vm_compute. intros H.
    repeat (apply elem_of_cons in H as [H|H]; [discriminate H|]).
    apply elem_of_nil in H. exact H.
  - rewrite process_snapshot_with_wellformed by exact Hgood.
    destruct (check_snapshot_exists_returns shell snapshot_id s) as (found & s' & ->).
    destruct found; intros [= <- <- <-]; apply shape_ok_name.
    + apply list_elem_of_further, list_elem_of_further, list_elem_of_here.
    + apply list_elem_of_further, list_elem_of_here.
Qed.

Lemma pre_fold_shape completed : ∀ acc,
  Forall (λ p : string * Future Classification,
            ∀ sub status data, p.2 = Ok (sub, status, data) → shape_ok status data)
    completed →
  well_shaped acc.2 → well_shaped (pre_fold completed acc).2.
Proof.
  induction completed as [|item rest IH]; intros acc Hall Hacc; [exact Hacc|].
  apply Forall_cons in Hall as [Hitem Hrest].
  apply (IH (pre_record item acc) Hrest).
  unfold pre_record. destruct item.2 as [[[sub status] data]|e] eqn:Hi; [|exact Hacc].
  cbn [snd]. apply well_shaped_append; [|exact Hacc]. exact (Hitem _ _ _ eq_refl).
Qed.

Lemma pre_validate_snapshots_shape snapshot_ids names s valid results s' :
  pre_validate_snapshots shell as_completed snapshot_ids names s
  = (Ok (valid, results), s') →
  well_shaped results.
Proof.
  intros Hrun. unfold pre_validate_snapshots in Hrun.
  destruct (pre_validate_dispatch_spec as_completed as_completed_perm
              (λ i, process_snapshot shell i names) snapshot_ids s
              (process_snapshot_uninterrupted shell names))
    as (futures & s1 & s2 & _ & Hall & Hrun').
  rewrite Hrun' in Hrun. injection Hrun as Hfold _.
  assert (Hres : results = (pre_fold (as_completed _ futures) ([], ∅)).2)
    by (rewrite Hfold; reflexivity).
  rewrite Hres. apply pre_fold_shape; [|apply well_shaped_empty].
  rewrite as_completed_perm.
  eapply Forall_impl; [exact (futures_of_items _ _ _ Hall)|].
  intros p [_ [s0 Hp]] sub status data Hok. cbn beta in Hp. rewrite Hp in Hok.
  exact (process_snapshot_shape _ _ _ _ _ _ Hok).
Qed.

Lemma delete_record_shape names item (results : Aggregate) :
  well_shaped results → well_shaped (delete_record names item results).
Proof.
  intros Hres. unfold delete_record.
  assert (Hdeleted : "deleted" ∈ name_statuses) by apply list_elem_of_here.
  assert (Hfailed : "failed" ∉ name_statuses).
  { intros H. repeat (apply elem_of_cons in H as [H|H]; [discriminate H|]).
    apply elem_of_nil in H. exact H. }
  assert (Herror : "error" ∉ name_statuses).
  { intros H. repeat (apply elem_of_cons in H as [H|H]; [discriminate H|]).
    apply elem_of_nil in H. exact H. }
  destruct item.2 as [[|]|e], (split "/" item.1 !! 2%nat);
    apply well_shaped_append; try exact Hres;
    first [apply shape_ok_name; exact Hdeleted
          |apply shape_ok_pair; first [exact Hfailed|exact Herror]].
Qed.

Lemma delete_loop_shape names completed : ∀ pending (results : Aggregate) s results' s',
  delete_loop names pending completed results s = (Ok results', s') →
  well_shaped results → well_shaped results'.
Proof.
  induction completed as [|item rest IH]; intros pending results s results' s' Hrun Hres.
  - injection Hrun as <- _. exact Hres.
  - cbn [delete_loop] in Hrun.
    assert (Hstep : bind (delete_step names item results)
                      (λ r, delete_loop names (Nat.pred <$> pending) rest r) s
                    = (Ok results', s')).
    { destruct pending as [[|n]|]; [discriminate Hrun|exact Hrun|exact Hrun]. }
    apply bind_Ok_inv in Hstep as (r & s1 & Hstep & Hrest).
    apply (IH _ _ _ _ _ Hrest).
    assert (Hset : settled item).
    { unfold settled. intros Hint. unfold delete_step, try_except in Hstep.
      rewrite Hint in Hstep. discriminate Hstep. }
    destruct (delete_step_spec names item results s Hset) as [s2 Hspec].
    rewrite Hspec in Hstep. injection Hstep as <- _.
    apply delete_record_shape. exact Hres.
Qed.

Lemma delete_snapshots_shape snapshot_ids names s results s' :
  delete_snapshots shell json_loads_locks as_completed sigint snapshot_ids names s
  = (Ok results, s') →
  well_shaped results.
Proof.
  intros Hrun. unfold delete_snapshots in Hrun.
  apply bind_Ok_inv in Hrun as ([valid pre] & s1 & Hpre & Hrun). cbn [fst snd] in Hrun.
  apply pre_validate_snapshots_shape in Hpre.
  destruct valid as [|v rest]; [injection Hrun as <- _; exact Hpre|].
  apply bind_Ok_inv in Hrun as (removed & s2 & _ & Hrun).
  apply bind_Ok_inv in Hrun as (deletion & s3 & Hdel & Hrun).
  apply bind_Ok_inv in Hrun as (restored & s4 & _ & Hrun).
  injection Hrun as <- _.
  apply well_shaped_merge; [exact Hpre|].
  unfold delete_valid_snapshots, delete_dispatch in Hdel.
  apply bind_Ok_inv in Hdel as (futures & s5 & _ & Hloop).
  apply (delete_loop_shape _ _ _ _ _ _ _ Hloop). apply well_shaped_empty.
Qed.

End ShapeFacts.

(** ** The rows of the export *)

Lemma export_pairs_ok subscription status snapshots :
  (∀ item, item ∈ snapshots → ∃ snapshot error, item = WithError snapshot error) →
  export_pairs subscription status snapshots
  = (map (row_of subscription status) snapshots, None).
Proof.
  induction snapshots as [|item rest IH]; intros Hall; [reflexivity|].
  destruct (Hall item (list_elem_of_here _ _)) as (snapshot & error & ->).
  cbn [export_pairs unpack_payload]. rewrite IH; [reflexivity|].
  intros i Hi. apply Hall. apply list_elem_of_further. exact Hi.
Qed.

Lemma export_bucket_ok subscription status snapshots :
  (∀ item, item ∈ snapshots → shape_ok status item) →
  export_bucket subscription status snapshots
  = (map (row_of subscription status) snapshots, None).
Proof.
  unfold export_bucket, shape_ok.
  destruct (bool_decide (status ∈ name_statuses)); intros Hall.
  - f_equal. apply map_ext_in. intros item Hin. apply list_elem_of_In in Hin.
    destruct (Hall item Hin) as [snapshot ->]. reflexivity.
  - apply export_pairs_ok. exact Hall.
Qed.

Lemma export_each_ok {A} (body : A → Export) (rows : A → list CsvRow) items :
  (∀ item, item ∈ items → body item = (rows item, None)) →
  export_each body items = (concat (map rows items), None).
Proof.
  induction items as [|item rest IH]; intros Hall; [reflexivity|].
  cbn [export_each map concat]. rewrite (Hall item (list_elem_of_here _ _)).
  rewrite IH; [reflexivity|].
  intros i Hi. apply Hall. apply list_elem_of_further. exact Hi.
Qed.

Lemma export_to_csv_ok (results : Aggregate) :
  well_shaped results → export_to_csv results = (csv_header :: rows_of results, None).
Proof.
  intros Hres. unfold export_to_csv, rows_of.
  rewrite (export_each_ok _
             (λ entry : string * Buckets,
                concat (map (λ b : string * list Payload, map (row_of entry.1 b.1) b.2)
                          (map_to_list entry.2)))); [reflexivity|].
  intros [key data] Hentry. apply elem_of_map_to_list in Hentry. cbn [fst snd].
  apply (export_each_ok _ (λ b : string * list Payload, map (row_of key b.1) b.2)).
  intros [status l] Hb. apply elem_of_map_to_list in Hb. cbn [fst snd].
  apply export_bucket_ok. intros item Hin. apply (Hres key).
  unfold buckets_of, bucket. rewrite Hentry. cbn. rewrite Hb. exact Hin.
Qed.

Lemma map_sum_list {A} (w : A → nat) (m : gmap string A) :
  map_sum w m = sum_list (map (λ p, w p.2) (map_to_list m)).
Proof.
  unfold map_sum. rewrite map_fold_foldr.
  induction (map_to_list m) as [|[k x] l IH]; [reflexivity|].
  cbn [foldr map sum_list uncurry fst snd]. rewrite IH. cbn. lia.
Qed.

Lemma length_concat_map {A B} (f : A → list B) (l : list A) :
  length (concat (map f l)) = sum_list (map (λ x, length (f x)) l).
Proof.
  induction l as [|x l IH]; [reflexivity|].
  cbn [map concat sum_list]. rewrite length_app, IH. reflexivity.
Qed.

Lemma length_rows_of (results : Aggregate) :
  length (rows_of results) = aggregate_size results.
Proof.
  unfold rows_of, aggregate_size. rewrite length_concat_map, map_sum_list.
  f_equal. apply map_ext. intros [key data]. cbn [fst snd].
  rewrite length_concat_map, map_sum_list. f_equal. apply map_ext.
  intros [status l]. cbn [fst snd]. apply length_map.
Qed.

Lemma elem_of_concat_map {A B} (f : A → list B) (l : list A) y :
  y ∈ concat (map f l) ↔ ∃ x, x ∈ l ∧ y ∈ f x.
Proof.
  induction l as [|x l IH]; cbn [map concat].
  - split; [intros H; apply elem_of_nil in H; contradiction|].
    intros (x & H & _). apply elem_of_nil in H. contradiction.
  - rewrite elem_of_app, IH. split.
    + intros [H|(x0 & H0 & H1)].
      * exists x. split; [apply list_elem_of_here|exact H].
      * exists x0. split; [apply list_elem_of_further; exact H0|exact H1].
    + intros (x0 & H0 & H1). apply elem_of_cons in H0 as [->|H0]; [left; exact H1|].
      right. exists x0. auto.
Qed.

Lemma elem_of_rows_of (results : Aggregate) row :
  row ∈ rows_of results
  ↔ ∃ item,
      item ∈ bucket (buckets_of results (row_subscription row)) (row_status row)
      ∧ row = row_of (row_subscription row) (row_status row) item.
Proof.
  unfold rows_of. rewrite elem_of_concat_map. split.
  - intros ([key data] & Hentry & Hrow). cbn [fst snd] in Hrow.
    apply elem_of_map_to_list in Hentry.
    apply elem_of_concat_map in Hrow as ([status l] & Hb & Hrow). cbn [fst snd] in Hrow.
    apply elem_of_map_to_list in Hb.
    apply list_elem_of_fmap in Hrow as (item & -> & Hin).
    assert (Hkeys : row_subscription (row_of key status item) = key
                    ∧ row_status (row_of key status item) = status)
      by (destruct item; split; reflexivity).
    destruct Hkeys as [-> ->]. exists item. split; [|reflexivity].
    unfold buckets_of, bucket. rewrite Hentry. cbn. rewrite Hb. exact Hin.
  - intros (item & Hin & Hrow). unfold buckets_of, bucket in Hin.
    destruct (results !! row_subscription row) as [data|] eqn:Hentry; cbn in Hin.
    2:{ rewrite lookup_empty in Hin. apply elem_of_nil in Hin. contradiction. }
    destruct (data !! row_status row) as [l|] eqn:Hb; try rewrite Hb in Hin; cbn in Hin;
      [|apply elem_of_nil in Hin; contradiction].
    exists (row_subscription row, data). split; [apply elem_of_map_to_list; exact Hentry|].
    cbn [fst snd]. apply elem_of_concat_map. exists (row_status row, l).
    split; [apply elem_of_map_to_list; exact Hb|]. cbn [fst snd].
    apply list_elem_of_fmap. exists item. auto.
Qed.

Lemma bucket_touch tag (data : Buckets) tag' :
  bucket (touch tag data) tag' = bucket data tag'.
Proof.
  unfold touch. rewrite bucket_insert.
  destruct (decide (tag = tag')) as [->|_]; reflexivity.
Qed.

Lemma map_sum_touch tag (data : Buckets) :
  map_sum (length (A:=Payload)) (touch tag data) = map_sum (length (A:=Payload)) data.
Proof.
  unfold touch.
  pose proof (map_sum_insert (length (A:=Payload)) data tag (bucket data tag)) as H.
  unfold bucket in *. destruct (data !! tag) as [l|]; cbn in H |- *; lia.
Qed.

Lemma bucket_after_reports (results : Aggregate) key tag :
  bucket (buckets_of (after_reports results) key) tag
  = bucket (buckets_of results key) tag.
Proof.
  unfold after_reports, buckets_of. rewrite lookup_fmap.
  destruct (results !! key) as [data|]; cbn; [|reflexivity].
  rewrite !bucket_touch. reflexivity.
Qed.

Lemma well_shaped_after_reports (results : Aggregate) :
  well_shaped results → well_shaped (after_reports results).
Proof.
  intros Hres key status item Hin. rewrite bucket_after_reports in Hin.
  exact (Hres _ _ _ Hin).
Qed.

Lemma aggregate_size_after_reports (results : Aggregate) :
  aggregate_size (after_reports results) = aggregate_size results.
Proof.
  unfold aggregate_size, after_reports. rewrite !map_sum_list, map_to_list_fmap.
  rewrite <- list_fmap_compose. f_equal. apply map_ext. intros [key data].
  cbn [compose fst snd prod_map].
  rewrite !map_sum_touch. reflexivity.
Qed.

(** X13. The aggregate that the delete pipeline returns is well-shaped:
    under ["deleted"], ["non-existent"] and ["valid"] it holds snapshot
    names, under every other tag pairs of an identifier and an error text.
    So the export that follows the two reports does not fail on unpacking
    an item: it returns, having written the header and one row for each
    item of the results. *)
Theorem delete_snapshots_results_can_be_exported
    (shell : Oracle) (json_loads_locks : string → option (list Lock))
    (as_completed : ∀ A : Type, list A → list A) (sigint : option nat)
    (snapshot_ids : list string) (names : gmap string string)
    (s s' : State) (results : Aggregate) :
  (∀ (A : Type) (l : list A), as_completed A l ≡ₚ l) →
  delete_snapshots shell json_loads_locks as_completed sigint snapshot_ids names s
  = (Ok results, s') →
  well_shaped results
  ∧ ∃ rows,
      export_to_csv (after_reports results) = (csv_header :: rows, None)
      ∧ length rows = aggregate_size results.
Proof.
  intros Hperm Hrun.
  assert (Hres : well_shaped results)
    by exact (delete_snapshots_shape shell json_loads_locks as_completed sigint Hperm
                _ _ _ _ _ Hrun).
  split; [exact Hres|]. exists (rows_of (after_reports results)).
  split; [apply export_to_csv_ok, well_shaped_after_reports; exact Hres|].
  rewrite length_rows_of. apply aggregate_size_after_reports.
Qed.

Lemma delete_snapshots_results_can_be_exported_witness :
  ∃ results,
    returned (delete_snapshots all_succeed one_lock in_order None
                [snap_1; "not/a/snapshot"] ∅ initial_state) = Some results
    ∧ well_shaped results
    ∧ ∃ rows,
        export_to_csv (after_reports results) = (csv_header :: rows, None)
        ∧ length rows = aggregate_size results.
Proof.
  assert (Hret : is_Some (returned (delete_snapshots all_succeed one_lock in_order None
                                      [snap_1; "not/a/snapshot"] ∅ initial_state))).
  { refine (bool_decide_unpack _ _). vm_compute. exact I. }
  destruct Hret as [results Hret]. exists results. split; [exact Hret|].
  apply returned_Ok in Hret as [s' Hrun].
  apply (delete_snapshots_results_can_be_exported all_succeed one_lock in_order None
           [snap_1; "not/a/snapshot"] ∅ initial_state s' results); [|exact Hrun].
  intros A l. reflexivity.
Defined.

(** X14. On a well-shaped aggregate [export_to_csv] returns.  After the
    header it has written as many rows as the aggregate holds items, and a
    row is written exactly when its subscription and status are the keys of
    a bucket that holds its item: a name with an empty error cell, or the
    two components of a pair. *)
Theorem export_to_csv_rows (results : Aggregate) :
  well_shaped results →
  ∃ rows,
    export_to_csv results = (csv_header :: rows, None)
    ∧ length rows = aggregate_size results
    ∧ ∀ row,
        row ∈ rows
        ↔ ∃ item,
            item ∈ bucket (buckets_of results (row_subscription row)) (row_status row)
            ∧ row = row_of (row_subscription row) (row_status row) item.
Proof.
  intros Hres. exists (rows_of results).
  split; [apply export_to_csv_ok; exact Hres|].
  split; [apply length_rows_of|apply elem_of_rows_of].
Qed.

Lemma export_to_csv_rows_witness :
  ∃ rows,
    export_to_csv exported_results = (csv_header :: rows, None)
    ∧ length rows = aggregate_size exported_results.
Proof.
  destruct (export_to_csv_rows exported_results) as (rows & Hrun & Hlen & _).
  - unfold exported_results.
    apply well_shaped_append; [vm_compute; eauto|].
    apply well_shaped_append; [vm_compute; eauto|].
    apply well_shaped_empty.
  - exists rows. auto.
Defined.

(** * The validation of snapshots *)

Lemma length_filter_split {A} (f : A → bool) (l : list A) :
  (length (List.filter f l) + length (List.filter (λ x, negb (f x)) l) = length l)%nat.
Proof.
  induction l as [|x l IH]; [reflexivity|].
  cbn [List.filter]. destruct (f x); cbn [negb length]; lia.
Qed.

Lemma history_app new2 new1 : history (new2 ++ new1) = history new1 ++ history new2.
Proof. unfold history. rewrite ran_app. apply rev_app_distr. Qed.

Section ValidationFacts.
Variable shell : Oracle.
Variable json_loads_details : string → DetailsJson.

(** One pass of the loop: one command, and one entry when it returns. *)
Lemma validate_step_run snapshot_id validated errors s :
  ∃ text new,
    reply (Shell (details_command snapshot_id))
      (shell (ncalls s) (Shell (details_command snapshot_id))) = Ok text
    ∧ ran new = [(Shell (details_command snapshot_id),
                  shell (ncalls s) (Shell (details_command snapshot_id)))]
    ∧ trace (validate_step shell json_loads_details snapshot_id validated errors s).2
      = new ++ trace s
    ∧ match (validate_step shell json_loads_details snapshot_id validated errors s).1 with
      | Ok acc =>
          ∃ snapshot,
            acc.1 = validated ++ [snapshot]
            ∧ validated_as json_loads_details snapshot_id
                (shell (ncalls s) (Shell (details_command snapshot_id))) snapshot
      | Raise e =>
          truthy text = true ∧ startswith text "Error:" = false
          ∧ ((∃ key, json_loads_details text = DetailsMissingKey key
                     ∧ e = Exception "KeyError" ("'" +:+ key +:+ "'"))
             ∨ (∃ what, json_loads_details text = DetailsOther what
                        ∧ e = Exception "TypeError" what))
      end.
Proof.
  unfold validate_step.
  destruct (run_az_command_shell_ran shell (details_command snapshot_id) s)
    as (text & new & Hcmd & Hran & Hreply).
  exists text, new. split; [exact Hreply|]. split; [exact Hran|].
  rewrite (bind_Ok _ _ _ _ _ Hcmd).
  assert (Hnone : ¬ (truthy text = true ∧ startswith text "Error:" = false
                     ∧ ∃ found, json_loads_details text = DetailsObject found) →
                  validated_as json_loads_details snapshot_id
                    (shell (ncalls s) (Shell (details_command snapshot_id)))
                    (mkSnapshotInfo snapshot_id None)).
  { intros Hno. split; [reflexivity|]. intros found. split; [discriminate|].
    intros (text' & Hreply' & Htruthy & Herr & Hjson). exfalso. apply Hno.
    rewrite Hreply in Hreply'. injection Hreply' as <-. eauto. }
  destruct (truthy text) eqn:Htruthy; cbn [andb].
  2:{ split; [reflexivity|]. eexists. split; [reflexivity|].
      apply Hnone. intros [H _]. discriminate H. }
  destruct (startswith text "Error:") eqn:Herr; cbn [negb].
  { split; [reflexivity|]. eexists. split; [reflexivity|].
    apply Hnone. intros (_ & H & _). discriminate H. }
  destruct (json_loads_details text) as [|found|key|what] eqn:Hjson.
  - split; [reflexivity|]. eexists. split; [reflexivity|].
    apply Hnone. intros (_ & _ & found & H). discriminate H.
  - split; [reflexivity|]. eexists. split; [reflexivity|].
    split; [reflexivity|]. intros found'. cbn [info_details]. split.
    + intros [= <-]. exists text. auto.
    + intros (text' & Hreply' & _ & _ & Hjson').
      rewrite Hreply in Hreply'. injection Hreply' as <-.
      rewrite Hjson in Hjson'. injection Hjson' as <-. reflexivity.
  - split; [reflexivity|]. split; [reflexivity|]. split; [reflexivity|]. left. eauto.
  - split; [reflexivity|]. split; [reflexivity|]. split; [reflexivity|]. right. eauto.
Qed.

Lemma validate_loop_run snapshot_ids : ∀ validated errors s validated' errors' s',
  validate_loop shell json_loads_details snapshot_ids validated errors s
  = (Ok (validated', errors'), s') →
  ∃ new more,
    trace s' = new ++ trace s
    ∧ validated' = validated ++ more
    ∧ map info_id more = snapshot_ids
    ∧ Forall2 (λ (run : Command * ProcOutcome) snapshot,
                 run.1 = Shell (details_command (info_id snapshot))
                 ∧ validated_as json_loads_details (info_id snapshot) run.2 snapshot)
        (history new) more.
Proof.
  induction snapshot_ids as [|snapshot_id rest IH];
    intros validated errors s validated' errors' s' Hrun.
  - injection Hrun as <- <- <-. exists [], []. rewrite app_nil_r.
    split; [reflexivity|]. split; [reflexivity|]. split; [reflexivity|constructor].
  - cbn [validate_loop] in Hrun. apply bind_Ok_inv in Hrun as (acc & s1 & Hstep & Hrun).
    destruct (validate_step_run snapshot_id validated errors s)
      as (text & new1 & _ & Hran1 & Htr1 & Hacc).
    rewrite Hstep in Htr1, Hacc. cbn [fst snd] in Htr1, Hacc.
    destruct Hacc as (snapshot & Hacc & Hsnapshot).
    apply IH in Hrun as (new2 & more & Htr2 & Hv & Hids & Hall).
    exists (new2 ++ new1), (snapshot :: more).
    split; [rewrite Htr2, Htr1, app_assoc; reflexivity|].
    split; [rewrite Hv, Hacc, <- app_assoc; reflexivity|].
    pose proof Hsnapshot as [Hid _].
    split; [cbn [map]; rewrite Hid, Hids; reflexivity|].
    rewrite history_app. unfold history at 1. rewrite Hran1. cbn [rev app].
    constructor; [|exact Hall]. cbn [fst snd]. rewrite Hid. split; [reflexivity|exact Hsnapshot].
Qed.

(** An identifier whose details never have the expected form stops the loop. *)
Lemma validate_loop_raises snapshot_id snapshot_ids :
  (∀ n, ∃ text,
     reply (Shell (details_command snapshot_id))
       (shell n (Shell (details_command snapshot_id))) = Ok text
     ∧ truthy text = true ∧ startswith text "Error:" = false
     ∧ ((∃ key, json_loads_details text = DetailsMissingKey key)
        ∨ (∃ what, json_loads_details text = DetailsOther what))) →
  snapshot_id ∈ snapshot_ids →
  ∀ validated errors s,
    ∃ name text s',
      validate_loop shell json_loads_details snapshot_ids validated errors s
      = (Raise (Exception name text), s')
      ∧ name ∈ ["KeyError"; "TypeError"].
Proof.
  intros Hbad.
  induction snapshot_ids as [|i rest IH]; intros Hin validated errors s.
  { apply elem_of_nil in Hin. contradiction. }
  cbn [validate_loop].
  destruct (validate_step_run i validated errors s) as (text & new & Hreply & _ & _ & Hacc).
  destruct (validate_step shell json_loads_details i validated errors s)
    as [[acc|e] s1] eqn:Hstep; cbn [fst] in Hacc.
  2:{ rewrite (bind_Raise _ _ _ _ _ Hstep).
      destruct Hacc as (_ & _ & [(key & _ & ->)|(what & _ & ->)]);
        eexists _, _, _; (split; [reflexivity|]).
      - apply list_elem_of_here.
      - apply list_elem_of_further, list_elem_of_here. }
  rewrite (bind_Ok _ _ _ _ _ Hstep).
  apply elem_of_cons in Hin as [<-|Hin]; [|apply IH; exact Hin].
  exfalso. destruct Hacc as (snapshot & _ & _ & Hfound).
  destruct (Hbad (ncalls s)) as (text' & Hreply' & Htruthy & Herr & Hjson).
  rewrite Hreply in Hreply'. injection Hreply' as <-.
  unfold validate_step in Hstep.
  destruct (run_az_command_shell_ran shell (details_command snapshot_id) s)
    as (text2 & new2 & Hcmd & _ & Hreply2).
  rewrite Hreply in Hreply2. injection Hreply2 as <-.
  rewrite (bind_Ok _ _ _ _ _ Hcmd), Htruthy, Herr in Hstep. cbn [andb negb] in Hstep.
  destruct Hjson as [[key Hjson]|[what Hjson]]; rewrite Hjson in Hstep; discriminate Hstep.
Qed.

End ValidationFacts.

(** X15. When [validate_snapshots] gets through the list, it has run one
    [az snapshot show] for each line of the list file, blank lines
    included, in the order of the file, and no other command.  The
    validated entries are the identifiers in that order; an entry exists,
    with the five values shown, exactly when the reply to its command was
    not empty, not error-tagged and parsed as an object with the five
    keys.  The counts of existing and missing snapshots add up to the
    total. *)
Theorem validate_snapshots_checks_every_line
    (shell : Oracle) (json_loads_details : string → DetailsJson)
    (snapshot_ids : list string) (s s' : State) (report : ValidationReport) :
  validate_snapshots shell json_loads_details (Some snapshot_ids) s
  = (Ok (Some report), s') →
  ∃ new,
    trace s' = new ++ trace s
    ∧ map info_id (validated_snapshots report) = snapshot_ids
    ∧ Forall2 (λ (run : Command * ProcOutcome) snapshot,
                 run.1 = Shell (details_command (info_id snapshot))
                 ∧ validated_as json_loads_details (info_id snapshot) run.2 snapshot)
        (history new) (validated_snapshots report)
    ∧ total_snapshots report = length snapshot_ids
    ∧ (existing_snapshots report + missing_snapshots report = total_snapshots report)%nat.
Proof.
  intros Hrun. unfold validate_snapshots in Hrun.
  destruct snapshot_ids as [|i rest]; [discriminate Hrun|].
  apply bind_Ok_inv in Hrun as ([validated errors] & s1 & Hloop & Hret).
  injection Hret as <- <-.
  cbn [total_snapshots validated_snapshots existing_snapshots missing_snapshots fst snd].
  apply validate_loop_run in Hloop as (new & more & Htr & -> & Hids & Hall).
  cbn [app]. exists new. split; [exact Htr|]. split; [exact Hids|].
  split; [exact Hall|]. split; [reflexivity|].
  rewrite length_filter_split, <- (length_map info_id more), Hids. reflexivity.
Qed.

Lemma validate_snapshots_checks_every_line_witness :
  ∃ report,
    returned (validate_snapshots all_succeed details_found (Some [snap_1; ""; snap_2])
                initial_state) = Some (Some report)
    ∧ map info_id (validated_snapshots report) = [snap_1; ""; snap_2]
    ∧ (existing_snapshots report + missing_snapshots report = 3)%nat.
Proof.
  assert (Hret : is_Some (returned (validate_snapshots all_succeed details_found
                                      (Some [snap_1; ""; snap_2]) initial_state))).
  { refine (bool_decide_unpack _ _). vm_compute. exact I. }
  destruct Hret as [[report|] Hret].
  - exists report. split; [exact Hret|].
    apply returned_Ok in Hret as [s' Hrun].
    destruct (validate_snapshots_checks_every_line all_succeed details_found
                [snap_1; ""; snap_2] initial_state s' report Hrun)
      as (new & _ & Hids & _ & Htotal & Hsum).
    rewrite Htotal in Hsum. split; [exact Hids|exact Hsum].
  - exfalso. apply returned_Ok in Hret as [s' Hrun].
    unfold validate_snapshots in Hrun.
    apply bind_Ok_inv in Hrun as (acc & s1 & _ & Hrun). discriminate Hrun.
Defined.

(** X16. A snapshot whose details parse but lack one of the five keys, or
    are no object at all, is not handled by the loop: the [KeyError] or
    [TypeError] of the look-up is no [JSONDecodeError], so
    [validate_snapshots] ends in that exception wherever the identifier
    stands in the list, and shows no results. *)
Theorem validate_snapshots_aborts_on_unexpected_details
    (shell : Oracle) (json_loads_details : string → DetailsJson)
    (snapshot_ids : list string) (snapshot_id : string) (s : State) :
  snapshot_id ∈ snapshot_ids →
  (∀ n, ∃ text,
     reply (Shell (details_command snapshot_id))
       (shell n (Shell (details_command snapshot_id))) = Ok text
     ∧ truthy text = true ∧ startswith text "Error:" = false
     ∧ ((∃ key, json_loads_details text = DetailsMissingKey key)
        ∨ (∃ what, json_loads_details text = DetailsOther what))) →
  ∃ name text s',
    validate_snapshots shell json_loads_details (Some snapshot_ids) s
    = (Raise (Exception name text), s')
    ∧ name ∈ ["KeyError"; "TypeError"].
Proof.
  intros Hin Hbad. unfold validate_snapshots.
  destruct (validate_loop_raises shell json_loads_details snapshot_id snapshot_ids
              Hbad Hin [] [] s) as (name & text & s' & Hloop & Hname).
  destruct snapshot_ids as [|i rest]; [apply elem_of_nil in Hin; contradiction|].
  rewrite (bind_Raise _ _ _ _ _ Hloop). eauto.
Qed.

Lemma validate_snapshots_aborts_on_unexpected_details_witness :
  ∃ name text s',
    validate_snapshots all_succeed details_incomplete (Some [snap_1; snap_2]) initial_state
    = (Raise (Exception name text), s')
    ∧ name ∈ ["KeyError"; "TypeError"].
Proof.
  apply (validate_snapshots_aborts_on_unexpected_details all_succeed details_incomplete
           [snap_1; snap_2] snap_2 initial_state).
  - apply list_elem_of_further, list_elem_of_here.
  - intros n. exists "[lock]". split; [reflexivity|]. split; [reflexivity|].
    split; [reflexivity|]. left. exists "diskSizeGb". reflexivity.
Defined.

(** * The login check and the subscription names *)

Lemma foldl_insert_last (entries : list (string * string)) : ∀ id name,
  foldl (λ (names : gmap string string) (sub : string * string), <[sub.1 := sub.2]> names)
    ∅ entries !! id = Some name
  ↔ last_entry entries id name.
Proof.
  unfold last_entry.
  induction entries as [|[k v] l IH] using rev_ind; intros id name.
  - cbn [foldl]. rewrite lookup_empty. split; [discriminate|].
    intros (i & Hi & _). rewrite lookup_nil in Hi. discriminate Hi.
  - rewrite foldl_app. cbn [foldl fst snd].
    destruct (decide (k = id)) as [->|Hne].
    + rewrite lookup_insert_eq. split.
      * intros [= <-]. exists (length l). split.
        -- rewrite lookup_app_r by lia. rewrite Nat.sub_diag. reflexivity.
        -- intros j name' Hj. rewrite lookup_ge_None_2; [discriminate|].
           rewrite length_app. cbn [length]. lia.
      * intros (i & Hi & Hlast).
        destruct (decide (i < length l)%nat) as [Hlt|Hge].
        -- exfalso. apply (Hlast (length l) v Hlt).
           rewrite lookup_app_r by lia. rewrite Nat.sub_diag. reflexivity.
        -- assert (Hlen : (i < length (l ++ [(id, v)]))%nat)
             by (eapply lookup_lt_Some; exact Hi).
           rewrite length_app in Hlen. cbn [length] in Hlen.
           assert (i = length l) as -> by lia.
           rewrite lookup_app_r in Hi by lia. rewrite Nat.sub_diag in Hi.
           injection Hi as <-. reflexivity.
    + rewrite lookup_insert_ne by exact Hne. rewrite IH. split.
      * intros (i & Hi & Hlast). exists i.
        pose proof (lookup_lt_Some _ _ _ Hi) as Hlt.
        split; [rewrite lookup_app_l by exact Hlt; exact Hi|].
        intros j name' Hj. destruct (decide (j < length l)%nat) as [Hjl|Hjl].
        -- rewrite lookup_app_l by exact Hjl. apply Hlast. exact Hj.
        -- destruct (decide (j = length l)) as [->|Hjn].
           ++ rewrite lookup_app_r by lia. rewrite Nat.sub_diag. cbn.
              intros [= H _]. exact (Hne H).
           ++ rewrite lookup_ge_None_2; [discriminate|].
              rewrite length_app. cbn [length]. lia.
      * intros (i & Hi & Hlast).
        assert (Hlt : (i < length l)%nat).
        { pose proof (lookup_lt_Some _ _ _ Hi) as Hlen.
          rewrite length_app in Hlen. cbn [length] in Hlen.
          destruct (decide (i = length l)) as [->|Hn]; [|lia].
          rewrite lookup_app_r in Hi by lia. rewrite Nat.sub_diag in Hi.
          injection Hi as H _. exfalso. exact (Hne H). }
        exists i. rewrite lookup_app_l in Hi by exact Hlt. split; [exact Hi|].
        intros j name' Hj Hjl. apply (Hlast j name' Hj).
        pose proof (lookup_lt_Some _ _ _ Hjl) as Hjlt.
        rewrite lookup_app_l by exact Hjlt. exact Hjl.
Qed.

Lemma reply_of_failure line out :
  gave_nothing out →
  ∃ text, reply (Shell line) out = Ok text
          ∧ truthy text && negb (startswith text "Error:") = false.
Proof.
  destruct out as [stdout stderr rc|name text]; cbn [gave_nothing reply].
  - destruct (rc =? 0)%Z eqn:Hrc; cbn [negb].
    + apply Z.eqb_eq in Hrc. intros [H|H]; [contradiction|].
      exists (strip stdout). split; [reflexivity|]. rewrite H. reflexivity.
    + intros _. eexists. split; [reflexivity|]. reflexivity.
  - intros _. eexists. split; [reflexivity|]. reflexivity.
Qed.

(** X17. [check_az_login] always returns a truth value, whatever the
    command or the JSON library do, and runs [az account show] once.  With
    a JSON library that accepts neither the empty text nor a text that
    begins with ["Error:"], it reports a login only when the command left
    with exit code 0 and its output parsed and did not mention
    ["az login"] in any case. *)
Theorem check_az_login_true_only_after_success
    (shell : Oracle) (json_loads_account : string → option (string * string)) (s : State) :
  (∀ text, json_loads_account text = None →
           truthy text = true ∧ startswith text "Error:" = false) →
  ∃ logged_in new,
    check_az_login shell json_loads_account s
    = (Ok logged_in, mkState (S (ncalls s)) (new ++ trace s))
    ∧ ran new = [(Shell "az account show", shell (ncalls s) (Shell "az account show"))]
    ∧ (logged_in = true →
       ∃ stdout stderr,
         shell (ncalls s) (Shell "az account show") = Exited stdout stderr 0
         ∧ str_contains "az login" (str_lower (strip stdout)) = false
         ∧ json_loads_account (strip stdout) = None).
Proof.
  intros Hjson. unfold check_az_login, try_except.
  destruct (run_az_command_shell_ran shell "az account show" s)
    as (text & new & Hcmd & Hran & Hreply).
  rewrite (bind_Ok _ _ _ _ _ Hcmd).
  destruct (str_contains "az login" (str_lower text)) eqn:Hmention.
  { exists false, new. split; [reflexivity|]. split; [exact Hran|discriminate]. }
  unfold try_except_JSONDecodeError, json_loads_unit.
  destruct (json_loads_account text) as [[name message]|] eqn:Hparse.
  { exists false, new. cbn [bind raise].
    destruct (String.eqb name "JSONDecodeError");
      (split; [reflexivity|]); (split; [exact Hran|discriminate]). }
  exists true, new. split; [reflexivity|]. split; [exact Hran|]. intros _.
  destruct (Hjson _ Hparse) as [Htruthy Herr].
  destruct (shell (ncalls s) (Shell "az account show")) as [stdout stderr rc|name message];
    cbn [reply] in Hreply.
  - destruct (rc =? 0)%Z eqn:Hrc; cbn [negb] in Hreply; injection Hreply as <-.
    + apply Z.eqb_eq in Hrc as ->. eauto.
    + discriminate Herr.
  - injection Hreply as <-. discriminate Herr.
Qed.

Lemma check_az_login_true_only_after_success_witness :
  ∃ logged_in new,
    check_az_login all_succeed strict_json initial_state
    = (Ok logged_in, mkState 1 (new ++ []))
    ∧ ran new = [(Shell "az account show", Exited "[lock]" "" 0)].
Proof.
  destruct (check_az_login_true_only_after_success all_succeed strict_json initial_state)
    as (logged_in & new & Hrun & Hran & _).
  - intros text. unfold strict_json.
    destruct (truthy text); [|discriminate].
    destruct (startswith text "Error:"); [discriminate|auto].
  - exists logged_in, new. split; [exact Hrun|exact Hran].
Defined.

(** X18. When [az account list] gives nothing to parse (it cannot be
    started, leaves with a non-zero exit code, or prints only white space),
    [get_subscription_names] does not raise: it returns the empty
    dictionary, having run that one command, and the JSON library is not
    consulted. *)
Theorem get_subscription_names_without_listing (shell : Oracle) (s : State) :
  gave_nothing (shell (ncalls s) (Shell account_list_command)) →
  ∃ new,
    (∀ json_loads,
       get_subscription_names shell json_loads s
       = (Ok ∅, mkState (S (ncalls s)) (new ++ trace s)))
    ∧ ran new = [(Shell account_list_command,
                  shell (ncalls s) (Shell account_list_command))].
Proof.
  intros Hfail.
  destruct (run_az_command_shell_ran shell account_list_command s)
    as (text & new & Hcmd & Hran & Hreply).
  destruct (reply_of_failure account_list_command _ Hfail) as (text' & Hreply' & Hskip).
  rewrite Hreply in Hreply'. injection Hreply' as <-.
  exists new. split; [|exact Hran]. intros json_loads.
  unfold get_subscription_names. rewrite (bind_Ok _ _ _ _ _ Hcmd), Hskip. reflexivity.
Qed.

Lemma get_subscription_names_without_listing_witness :
  ∃ new,
    (∀ json_loads,
       get_subscription_names all_fail json_loads initial_state
       = (Ok ∅, mkState 1 (new ++ [])))
    ∧ ran new = [(Shell account_list_command, Exited "" "busy " 1)].
Proof.
  apply (get_subscription_names_without_listing all_fail initial_state).
  left. discriminate.
Defined.

(** X19. The dictionary that [get_subscription_names] returns maps an
    identifier to a name exactly when the command's output was not empty,
    not error-tagged and parsed, and the pair is the last entry of the
    listing with that identifier: of two entries with the same identifier
    the later one wins. *)
Theorem get_subscription_names_last_entry_wins
    (shell : Oracle) (json_loads_subscriptions : string → SubscriptionsJson)
    (s s' : State) (names : gmap string string) :
  get_subscription_names shell json_loads_subscriptions s = (Ok names, s') →
  ∀ id name,
    names !! id = Some name
    ↔ ∃ text entries,
        reply (Shell account_list_command) (shell (ncalls s) (Shell account_list_command))
        = Ok text
        ∧ truthy text = true ∧ startswith text "Error:" = false
        ∧ json_loads_subscriptions text = Subscriptions entries
        ∧ last_entry entries id name.
Proof.
  intros Hrun id name. unfold get_subscription_names in Hrun.
  destruct (run_az_command_shell_ran shell account_list_command s)
    as (text & new & Hcmd & _ & Hreply).
  rewrite (bind_Ok _ _ _ _ _ Hcmd) in Hrun.
  assert (Hnone : names = ∅ →
                  (∀ entries, truthy text = true → startswith text "Error:" = false →
                              json_loads_subscriptions text ≠ Subscriptions entries) →
                  names !! id = Some name
                  ↔ ∃ text0 entries,
                      reply (Shell account_list_command)
                        (shell (ncalls s) (Shell account_list_command)) = Ok text0
                      ∧ truthy text0 = true ∧ startswith text0 "Error:" = false
                      ∧ json_loads_subscriptions text0 = Subscriptions entries
                      ∧ last_entry entries id name).
  { intros -> Hno. rewrite lookup_empty. split; [discriminate|].
    intros (text0 & entries & Hreply0 & Htruthy & Herr & Hjson & _). exfalso.
    rewrite Hreply in Hreply0. injection Hreply0 as <-.
    exact (Hno entries Htruthy Herr Hjson). }
  destruct (truthy text) eqn:Htruthy; cbn [andb] in Hrun.
  2:{ injection Hrun as <- _. apply Hnone; [reflexivity|]. intros entries H. discriminate H. }
  destruct (startswith text "Error:") eqn:Herr; cbn [negb] in Hrun.
  { injection Hrun as <- _. apply Hnone; [reflexivity|]. intros entries _ H. discriminate H. }
  destruct (json_loads_subscriptions text) as [ename etext|entries] eqn:Hjson;
    [discriminate Hrun|].
  injection Hrun as <- _. rewrite foldl_insert_last. split.
  - intros Hlast. exists text, entries. auto.
  - intros (text0 & entries0 & Hreply0 & _ & _ & Hjson0 & Hlast).
    rewrite Hreply in Hreply0. injection Hreply0 as <-.
    rewrite Hjson in Hjson0. injection Hjson0 as <-. exact Hlast.
Qed.

Lemma get_subscription_names_last_entry_wins_witness :
  ∃ names,
    returned (get_subscription_names all_succeed two_subscriptions initial_state)
    = Some names
    ∧ names !! "sub-1" = Some "Production".
Proof.
  assert (Hret : is_Some (returned (get_subscription_names all_succeed two_subscriptions
                                      initial_state))).
  { refine (bool_decide_unpack _ _). vm_compute. exact I. }
  destruct Hret as [names Hret]. exists names. split; [exact Hret|].
  apply returned_Ok in Hret as [s' Hrun].
  apply (get_subscription_names_last_entry_wins all_succeed two_subscriptions
           initial_state s' names Hrun "sub-1" "Production").
  exists "[lock]", [("sub-1", "Old name"); ("sub-2", "Test"); ("sub-1", "Production")].
  split; [reflexivity|]. split; [reflexivity|]. split; [reflexivity|].
  split; [reflexivity|]. exists 2%nat. split; [reflexivity|].
  intros j name' Hj. rewrite lookup_ge_None_2; [discriminate|]. cbn [length]. lia.
Defined.

(** * The patch of the Azure CLI *)

Lemma append_cons c a b : String c a +:+ b = String c (a +:+ b).
Proof. reflexivity. Qed.

Lemma append_empty_l b : "" +:+ b = b.
Proof. reflexivity. Qed.

Lemma length_append a b : String.length (a +:+ b) = (String.length a + String.length b)%nat.
Proof.
  induction a as [|c a IH]; [reflexivity|].
  rewrite append_cons. cbn [String.length]. rewrite IH. reflexivity.
Qed.

Lemma prefix_cons c p d s :
  String.prefix (String c p) (String d s) = true ↔ c = d ∧ String.prefix p s = true.
Proof.
  cbn [String.prefix]. destruct (ascii_dec c d) as [->|Hne].
  - split; [auto|]. intros [_ H]. exact H.
  - split; [discriminate|]. intros [H _]. contradiction.
Qed.

Lemma prefix_empty_l s : String.prefix "" s = true.
Proof. destruct s; reflexivity. Qed.

Lemma prefix_empty_r p : String.prefix p "" = true → p = "".
Proof. destruct p; [reflexivity|discriminate]. Qed.

Lemma prefix_append p s : String.prefix p (p +:+ s) = true.
Proof.
  induction p as [|c p IH]; [apply prefix_empty_l|].
  rewrite append_cons. apply prefix_cons. auto.
Qed.

Lemma prefix_split p : ∀ s, String.prefix p s = true → ∃ s', s = p +:+ s'.
Proof.
  induction p as [|c p IH]; intros s H; [exists s; reflexivity|].
  destruct s as [|d s]; [discriminate H|].
  apply prefix_cons in H as [-> H]. destruct (IH s H) as [s' ->].
  exists s'. reflexivity.
Qed.

(** A prefix of [a ++ t] lies within [a] or goes beyond it. *)
Lemma prefix_append_cases q : ∀ a t,
  String.prefix q (a +:+ t) = true → String.prefix q a = true ∨ String.prefix a q = true.
Proof.
  induction q as [|c q IH]; intros a t H; [left; apply prefix_empty_l|].
  destruct a as [|d a]; [right; reflexivity|].
  rewrite append_cons in H. apply prefix_cons in H as [-> H].
  destruct (IH a t H) as [H'|H']; [left|right]; apply prefix_cons; auto.
Qed.

Section Replace.
Variables old new : string.
Hypothesis old_not_empty : old ≠ "".

Lemma replace_go_skip u : ∀ s, 
  replace_go old new (String.length u) (u +:+ s) = replace_go old new 0 s.
Proof.
  induction u as [|c u IH]; intros s; [reflexivity|].
  rewrite append_cons. cbn [String.length replace_go]. apply IH.
Qed.

Lemma str_replace_match s :
  str_replace old new (old +:+ s) = new +:+ str_replace old new s.
Proof.
  assert (Hex : ∃ c p, old = String c p)
    by (destruct old as [|c p]; [contradiction|eauto]).
  destruct Hex as (c & p & Hold). unfold str_replace.
  assert (Hs : old +:+ s = String c (p +:+ s)) by (rewrite Hold; reflexivity).
  rewrite Hs. cbn [replace_go]. rewrite <- Hs, prefix_append.
  replace (String.length old - 1)%nat with (String.length p)
    by (rewrite Hold; cbn [String.length]; lia).
  rewrite replace_go_skip. reflexivity.
Qed.

Lemma str_replace_no_match c s :
  String.prefix old (String c s) = false →
  str_replace old new (String c s) = String c (str_replace old new s).
Proof. intros H. unfold str_replace. cbn [replace_go]. rewrite H. reflexivity. Qed.

(** Induction along the scan of [str_replace]. *)
Lemma replace_ind (P : string → Prop) :
  P "" →
  (∀ s, P s → P (old +:+ s)) →
  (∀ c s, String.prefix old (String c s) = false → P s → P (String c s)) →
  ∀ s, P s.
Proof.
  intros Hnil Hmatch Hstep s.
  assert (H : ∀ n s, (String.length s < n)%nat → P s).
  { clear s. induction n as [|n IH]; intros s Hlen; [lia|].
    destruct s as [|c s]; [exact Hnil|].
    destruct (String.prefix old (String c s)) eqn:Hp.
    - apply prefix_split in Hp as [s' Hs]. rewrite Hs. apply Hmatch. apply IH.
      assert (Hl : String.length (String c s) = String.length (old +:+ s'))
        by (rewrite Hs; reflexivity).
      rewrite length_append in Hl. cbn [String.length] in Hlen, Hl.
      assert (String.length old ≠ 0)%nat by (destruct old; [contradiction|discriminate]).
      lia.
    - apply Hstep; [exact Hp|]. apply IH. cbn [String.length] in Hlen. lia. }
  apply (H (S (String.length s))). lia.
Qed.

(** Where the text has no occurrence, nothing is replaced. *)
Lemma str_replace_absent s :
  str_contains old s = false → str_replace old new s = s.
Proof.
  induction s as [|c s IH]; intros H; [reflexivity|].
  cbn [str_contains] in H. apply orb_false_iff in H as [Hp Hrest].
  rewrite str_replace_no_match by exact Hp. rewrite IH by exact Hrest. reflexivity.
Qed.

Hypothesis new_old : no_overlap new old = true.
Hypothesis old_new : no_overlap old new = true.

Lemma no_overlap_suffix a b c :
  no_overlap (String c a) b = true →
  String.prefix (String c a) b = false ∧ String.prefix b (String c a) = false
  ∧ no_overlap a b = true.
Proof.
  unfold no_overlap. cbn [suffixes forallb]. intros H.
  apply andb_true_iff in H as [H Hrest]. apply andb_true_iff in H as [H1 H2].
  apply negb_true_iff in H1, H2. auto.
Qed.

(** What is written in place of an occurrence brings no occurrence. *)
Lemma contains_after a : ∀ t,
  no_overlap a old = true →
  str_contains old t = false → str_contains old (a +:+ t) = false.
Proof.
  induction a as [|c a IH]; intros t Ha Ht; [exact Ht|].
  apply (no_overlap_suffix a old c) in Ha as (H1 & H2 & Hrest).
  rewrite append_cons. cbn [str_contains]. apply orb_false_iff. split.
  - destruct (String.prefix old (String c (a +:+ t))) eqn:Hp; [|reflexivity].
    change (String c (a +:+ t)) with (String c a +:+ t) in Hp.
    apply prefix_append_cases in Hp as [Hp|Hp]; congruence.
  - apply IH; assumption.
Qed.

(** A prefix of the result is a prefix of the text, unless it runs into a
    replacement. *)
Lemma prefix_of_replaced s : ∀ q,
  String.prefix q (str_replace old new s) = true →
  String.prefix q s = true
  ∨ ∃ q1 q2, q = q1 +:+ q2 ∧ q2 ≠ ""
             ∧ (String.prefix q2 new = true ∨ String.prefix new q2 = true).
Proof.
  induction s as [|s IH|c s Hno IH] using replace_ind; intros q H.
  - left. exact H.
  - destruct q as [|d q]; [left; apply prefix_empty_l|].
    right. exists "", (String d q). split; [reflexivity|]. split; [discriminate|].
    rewrite str_replace_match in H. eapply prefix_append_cases. exact H.
  - rewrite str_replace_no_match in H by exact Hno.
    destruct q as [|d q]; [left; apply prefix_empty_l|].
    apply prefix_cons in H as [-> H].
    destruct (IH q H) as [Hq|(q1 & q2 & -> & Hq2 & Hcompat)].
    + left. apply prefix_cons. auto.
    + right. exists (String c q1), q2. split; [reflexivity|]. auto.
Qed.

Lemma no_overlap_spec a b : ∀ q1 q2,
  no_overlap a b = true → a = q1 +:+ q2 → q2 ≠ "" →
  String.prefix q2 b = false ∧ String.prefix b q2 = false.
Proof.
  induction a as [|c a IH]; intros q1 q2 Ha Heq Hq2.
  - destruct q1; [|discriminate Heq]. rewrite append_empty_l in Heq. congruence.
  - apply (no_overlap_suffix a b c) in Ha as (H1 & H2 & Hrest).
    destruct q1 as [|d q1].
    + rewrite append_empty_l in Heq. subst q2. auto.
    + rewrite append_cons in Heq. injection Heq as _ Heq. exact (IH q1 q2 Hrest Heq Hq2).
Qed.

(** After the replacement the text has no occurrence left. *)
Lemma str_replace_removes s : str_contains old (str_replace old new s) = false.
Proof.
  induction s as [|s IH|c s Hno IH] using replace_ind.
  - destruct old; [contradiction|reflexivity].
  - rewrite str_replace_match. apply contains_after; assumption.
  - pose proof (prefix_of_replaced (String c s) old) as Hq.
    rewrite str_replace_no_match in Hq |- * by exact Hno.
    cbn [str_contains]. apply orb_false_iff. split; [|exact IH].
    destruct (String.prefix old (String c (str_replace old new s))) eqn:Hp; [|reflexivity].
    destruct (Hq eq_refl) as [H|(q1 & q2 & Heq & Hq2 & Hcompat)]; [congruence|].
    destruct (no_overlap_spec old new q1 q2 old_new Heq Hq2) as [H1 H2].
    destruct Hcompat; congruence.
Qed.

End Replace.

Lemma patch_texts_do_not_overlap :
  old_import ≠ "" ∧ no_overlap new_def old_import = true
  ∧ no_overlap old_import new_def = true.
Proof. split; [discriminate|]. split; vm_compute; reflexivity. Qed.

(** X20. When [patch_azure_cli] returns, it has rewritten one file, the
    [azure/cli/core/extension/__init__.py] of the first entry of the module
    search path that contains ["site-packages"], and left every other file
    as it was.  The file now holds its former content with the imports
    replaced, and no occurrence of the [distutils] import is left in it. *)
Theorem patch_azure_cli_removes_the_import
    (sys_path : list string) (files files' : FileSystem) :
  patch_azure_cli sys_path files = (Ok tt, files') →
  ∃ site_packages content,
    List.find (str_contains "site-packages") sys_path = Some site_packages
    ∧ files !! file_to_patch site_packages = Some content
    ∧ files' !! file_to_patch site_packages
      = Some (str_replace old_import new_def content)
    ∧ str_contains old_import (str_replace old_import new_def content) = false
    ∧ ∀ path, path ≠ file_to_patch site_packages → files' !! path = files !! path.
Proof.
  unfold patch_azure_cli. intros Hrun.
  destruct (List.find (str_contains "site-packages") sys_path) as [site_packages|];
    [|discriminate Hrun].
  destruct (files !! file_to_patch site_packages) as [content|] eqn:Hfile;
    [|discriminate Hrun].
  injection Hrun as <-. exists site_packages, content.
  split; [reflexivity|]. split; [exact Hfile|].
  split; [apply lookup_insert_eq|].
  destruct patch_texts_do_not_overlap as (H0 & H1 & H2).
  split; [apply str_replace_removes; assumption|].
  intros path Hpath. apply lookup_insert_ne. congruence.
Qed.

Lemma patch_azure_cli_removes_the_import_witness :
  ∃ content,
    (patch_azure_cli python_path unpatched_files).2
    !! "/usr/lib/python3/site-packages/azure/cli/core/extension/__init__.py"
    = Some content
    ∧ str_contains old_import content = false.
Proof.
  destruct (patch_azure_cli_removes_the_import python_path unpatched_files
              (patch_azure_cli python_path unpatched_files).2)
    as (site_packages & content & Hfind & _ & Hfile & Hgone & _).
  - reflexivity.
  - injection Hfind as <-. eexists. split; [exact Hfile|exact Hgone].
Defined.

(** X21. [patch_azure_cli] can be run again: on the files a first run
    has left, a second run returns as well and changes nothing. *)
Theorem patch_azure_cli_twice (sys_path : list string) (files files' : FileSystem) :
  patch_azure_cli sys_path files = (Ok tt, files') →
  patch_azure_cli sys_path files' = (Ok tt, files').
Proof.
  unfold patch_azure_cli. intros Hrun.
  destruct (List.find (str_contains "site-packages") sys_path) as [site_packages|];
    [|discriminate Hrun].
  destruct (files !! file_to_patch site_packages) as [content|] eqn:Hfile;
    [|discriminate Hrun].
  injection Hrun as <-. rewrite lookup_insert_eq. cbv zeta.
  destruct patch_texts_do_not_overlap as (H0 & H1 & H2).
  rewrite (str_replace_absent old_import new_def (str_replace old_import new_def content))
    by (apply str_replace_removes; assumption).
  rewrite insert_insert_eq. reflexivity.
Qed.

Lemma patch_azure_cli_twice_witness :
  patch_azure_cli python_path (patch_azure_cli python_path unpatched_files).2
  = (Ok tt, (patch_azure_cli python_path unpatched_files).2).
Proof.
  apply (patch_azure_cli_twice python_path unpatched_files).
  reflexivity.
Defined.

(** * The delete command as a whole *)

Section DeleteCommandFacts.
Variable shell : Oracle.
Variable json_loads_account : string → option (string * string).
Variable json_loads_subscriptions : string → SubscriptionsJson.
Variable json_loads_locks : string → option (list Lock).
Variable as_completed : ∀ A : Type, list A → list A.
Variable sigint : option nat.

Lemma check_az_login_run s :
  ∃ logged_in new,
    check_az_login shell json_loads_account s
    = (Ok logged_in, mkState (S (ncalls s)) (new ++ trace s))
    ∧ ran new = [(Shell "az account show", shell (ncalls s) (Shell "az account show"))].
Proof.
  unfold check_az_login, try_except.
  destruct (run_az_command_shell_ran shell "az account show" s)
    as (text & new & Hcmd & Hran & _).
  rewrite (bind_Ok _ _ _ _ _ Hcmd).
  destruct (str_contains "az login" (str_lower text)); [eexists _, new; split; eauto|].
  unfold try_except_JSONDecodeError, json_loads_unit.
  destruct (json_loads_account text) as [[name message]|]; cbn [bind raise ret];
    [destruct (String.eqb name "JSONDecodeError")|]; eexists _, new; split; eauto.
Qed.

Lemma get_subscription_names_run s :
  ∃ r new,
    get_subscription_names shell json_loads_subscriptions s
    = (r, mkState (S (ncalls s)) (new ++ trace s))
    ∧ ran new = [(Shell account_list_command,
                  shell (ncalls s) (Shell account_list_command))].
Proof.
  unfold get_subscription_names.
  destruct (run_az_command_shell_ran shell account_list_command s)
    as (text & new & Hcmd & Hran & _).
  rewrite (bind_Ok _ _ _ _ _ Hcmd).
  destruct (truthy text && negb (startswith text "Error:"));
    [destruct (json_loads_subscriptions text)|]; eexists _, new; split; eauto.
Qed.

Lemma delete_snapshots_extends snapshot_ids names s :
  ∃ new,
    trace (delete_snapshots shell json_loads_locks as_completed sigint snapshot_ids names
             s).2 = new ++ trace s.
Proof.
  assert (H : runs_only (λ _, True)
                (delete_snapshots shell json_loads_locks as_completed sigint
                   snapshot_ids names)).
  { unfold delete_snapshots. apply runs_only_bind.
    - eapply runs_only_mono;
        [|apply (runs_only_answered_pre_validate_snapshots shell as_completed)].
      intros run _. exact I.
    - intros [valid pre]. cbn [fst snd]. destruct valid as [|v rest]; [apply runs_only_ret|].
      eapply runs_only_mono;
        [|apply (runs_only_after_pre_validation shell json_loads_locks as_completed sigint)].
      intros run _. exact I. }
  destruct (H s) as (new & Htr & _). exists new. exact Htr.
Qed.

Lemma report_and_export_trace session results s :
  trace (report_and_export session results s).2 = trace s.
Proof.
  unfold report_and_export. cbv zeta.
  destruct (String.eqb (str_lower (export_answer session)) "y"); [|reflexivity].
  destruct (export_to_csv (after_reports results)) as [rows [e|]]; reflexivity.
Qed.

Lemma delete_snapshots_session_guard session s :
  let r := delete_snapshots_session shell json_loads_account json_loads_subscriptions
             json_loads_locks as_completed sigint session s in
  ∃ new,
    trace r.2 = new ++ trace s
    ∧ ((Forall account_run (ran new) ∧ ∀ report, r.1 ≠ Ok (Some report))
       ∨ ((check_az_login shell json_loads_account s).1 = Ok true ∧ cleared session)).
Proof.
  cbv zeta. unfold delete_snapshots_session.
  destruct (check_az_login_run s) as (logged_in & new1 & Hlogin & Hran1).
  rewrite (bind_Ok _ _ _ _ _ Hlogin).
  assert (H1 : Forall account_run (ran new1)).
  { rewrite Hran1. constructor; [left; reflexivity|constructor]. }
  destruct logged_in; cbn [negb];
    [|exists new1; split; [reflexivity|left; split; [exact H1|discriminate]]].
  destruct (filename_is_file session) eqn:Hfile; cbn [negb];
    [|exists new1; split; [reflexivity|left; split; [exact H1|discriminate]]].
  set (s1 := mkState (S (ncalls s)) (new1 ++ trace s)).
  destruct (get_subscription_names_run s1) as (r & new2 & Hnames & Hran2).
  assert (H2 : Forall account_run (ran (new2 ++ new1))).
  { rewrite ran_app, Hran2. constructor; [right; reflexivity|exact H1]. }
  assert (Htr2 : trace (mkState (S (ncalls s1)) (new2 ++ trace s1))
                 = (new2 ++ new1) ++ trace s).
  { unfold s1. cbn [trace]. rewrite app_assoc. reflexivity. }
  destruct r as [names|e].
  2:{ rewrite (bind_Raise _ _ _ _ _ Hnames). exists (new2 ++ new1).
      split; [exact Htr2|left; split; [exact H2|discriminate]]. }
  rewrite (bind_Ok _ _ _ _ _ Hnames).
  destruct (file_lines session) as [snapshot_ids|[name text|]] eqn:Hlines;
    [|exists (new2 ++ new1); split; [exact Htr2|left; split; [exact H2|discriminate]]..].
  destruct ((100 <? length snapshot_ids)%nat
            && negb (String.eqb (str_lower (proceed_answer session)) "y")) eqn:Hstop.
  { exists (new2 ++ new1). split; [exact Htr2|left; split; [exact H2|discriminate]]. }
  destruct (delete_snapshots_extends snapshot_ids names
              (mkState (S (ncalls s1)) (new2 ++ trace s1))) as (new3 & Htr3).
  exists (new3 ++ new2 ++ new1). split.
  - unfold bind at 1.
    destruct (delete_snapshots shell json_loads_locks as_completed sigint snapshot_ids
                names (mkState (S (ncalls s1)) (new2 ++ trace s1))) as [[results|e] s3];
      cbn [snd] in Htr3 |- *.
    + rewrite report_and_export_trace, Htr3, Htr2, <- !app_assoc. reflexivity.
    + rewrite Htr3, Htr2, <- !app_assoc. reflexivity.
  - right. rewrite Hlogin. split; [reflexivity|]. split; [exact Hfile|].
    exists snapshot_ids. split; [exact Hlines|].
    apply andb_false_iff in Hstop as [Hlen|Hyes].
    + left. apply Nat.ltb_ge in Hlen. exact Hlen.
    + right. apply negb_false_iff, String.eqb_eq in Hyes. exact Hyes.
Qed.

End DeleteCommandFacts.

(** X23. Whatever its outcome, a run of the delete command looks at a
    snapshot, lists or touches a lock, or deletes anything only after all
    its checks have passed.  Unless [check_az_login] has answered [True],
    the list file exists and could be read, and the list has at most 100
    lines or the operator has answered [y] in some letter case, the only
    commands run are [az account show] and [az account list], and the run
    gives no report. *)
Theorem snapshots_are_touched_only_after_the_checks
    (shell : Oracle) (json_loads_account : string → option (string * string))
    (json_loads_subscriptions : string → SubscriptionsJson)
    (json_loads_locks : string → option (list Lock))
    (as_completed : ∀ A : Type, list A → list A) (sigint : option nat)
    (session : DeleteSession) (s : State) :
  let r := delete_snapshots_session shell json_loads_account json_loads_subscriptions
             json_loads_locks as_completed sigint session s in
  ∃ new,
    trace r.2 = new ++ trace s
    ∧ ((Forall account_run (ran new) ∧ ∀ report, r.1 ≠ Ok (Some report))
       ∨ ((check_az_login shell json_loads_account s).1 = Ok true ∧ cleared session)).
Proof. apply delete_snapshots_session_guard. Qed.

(** * The aggregate of the two passes *)

Lemma tag_absent_bucket tag (results : Aggregate) key :
  tag_absent tag results → buckets_of results key !! tag = None.
Proof.
  intros Habs. unfold buckets_of.
  destruct (results !! key) as [data|] eqn:Hkey; cbn.
  - exact (Habs key data Hkey).
  - apply lookup_empty.
Qed.

Lemma outcomes_of_fst completed :
  Forall (λ p : string * Future Classification, ∃ c, p.2 = Ok c) completed →
  map fst (outcomes_of completed) = map fst completed.
Proof.
  intros Hall. induction Hall as [|[i f] l [c Hc] _ IH]; [reflexivity|].
  cbn [snd] in Hc. subst f. cbn. unfold outcomes_of in IH. rewrite IH. reflexivity.
Qed.

Lemma elem_of_outcomes_of completed o :
  o ∈ outcomes_of completed → (o.1, Ok o.2) ∈ completed.
Proof.
  unfold outcomes_of. intros Hin. apply list_elem_of_omap in Hin as ([i f] & Hp & Ho).
  cbn [fst snd] in Ho. destruct f as [c|e]; [|discriminate Ho].
  injection Ho as <-. exact Hp.
Qed.

(** Every bucket holds the payloads of the outcomes filed under its key
    and tag, in the order they were collected. *)
Lemma pre_fold_buckets completed : ∀ acc key tag,
  bucket (buckets_of (pre_fold completed acc).2 key) tag
  = bucket (buckets_of acc.2 key) tag
    ++ map (λ o : string * Classification, o.2.2)
         (filter (λ o : string * Classification,
                    classify_key o.2.1.1 = key ∧ o.2.1.2 = tag)
            (outcomes_of completed)).
Proof.
  induction completed as [|[i f] rest IH]; intros acc key tag.
  - cbn. rewrite app_nil_r. reflexivity.
  - change (pre_fold ((i, f) :: rest) acc) with (pre_fold rest (pre_record (i, f) acc)).
    rewrite IH. unfold pre_record. cbn [fst snd].
    destruct f as [[[sub status] data]|e].
    + change (outcomes_of ((i, Ok (sub, status, data)) :: rest))
        with ((i, (sub, status, data)) :: outcomes_of rest).
      cbn [snd]. rewrite bucket_append.
      destruct (decide (classify_key sub = key ∧ status = tag)) as [[<- <-]|Hne].
      * rewrite filter_cons_True by (split; reflexivity).
        cbn [map fst snd]. rewrite <- app_assoc. reflexivity.
      * rewrite filter_cons_False by exact Hne. reflexivity.
    + reflexivity.
Qed.

Section PassFacts.
Variable shell : Oracle.
Variable as_completed : ∀ A : Type, list A → list A.
Hypothesis as_completed_perm : ∀ (A : Type) (l : list A), as_completed A l ≡ₚ l.

(** The pre-validation pass, outcome by outcome. *)
Lemma pre_validate_snapshots_outcomes snapshot_ids names s valid_snapshots pre s1 :
  pre_validate_snapshots shell as_completed snapshot_ids names s
  = (Ok (valid_snapshots, pre), s1) →
  ∃ outcomes,
    map fst outcomes ≡ₚ snapshot_ids
    ∧ Forall (λ o : string * Classification,
                ∃ s0, (process_snapshot shell o.1 names s0).1 = Ok o.2) outcomes
    ∧ (∀ key tag,
         bucket (buckets_of pre key) tag
         = map (λ o : string * Classification, o.2.2)
             (filter (λ o : string * Classification,
                        classify_key o.2.1.1 = key ∧ o.2.1.2 = tag) outcomes))
    ∧ ∀ tag, tag ∉ ["invalid"; "non-existent"; "valid"] → tag_absent tag pre.
Proof.
  intros Hpre.
  destruct (pre_validate_dispatch_spec as_completed as_completed_perm
              (λ i, process_snapshot shell i names) snapshot_ids s
              (process_snapshot_uninterrupted shell names))
    as (futures & s0 & s' & _ & HF2 & Hrun).
  unfold pre_validate_snapshots in Hpre. rewrite Hrun in Hpre.
  injection Hpre as Hfold _.
  assert (Hres : pre = (pre_fold (as_completed _ futures) ([], ∅)).2)
    by (rewrite Hfold; reflexivity).
  pose proof (futures_of_items _ _ _ HF2) as Hfut.
  assert (Hflight : Forall preflight_future (as_completed _ futures)).
  { rewrite as_completed_perm. eapply Forall_impl; [exact Hfut|].
    cbn beta. intros [i f] [_ [s2 Hf]]. cbn [fst snd] in Hf.
    destruct (process_snapshot_returns shell i names s2)
      as (sub & status & data & s2' & Hret & Hst & Hdel).
    rewrite Hret in Hf. exists sub, status, data. cbn [fst snd]. auto. }
  assert (Hok : Forall (λ p : string * Future Classification, ∃ c, p.2 = Ok c)
                  (as_completed _ futures)).
  { eapply Forall_impl; [exact Hflight|]. intros p (sub & status & data & Hp & _). eauto. }
  exists (outcomes_of (as_completed _ futures)). split; [|split; [|split]].
  - rewrite (outcomes_of_fst _ Hok), as_completed_perm.
    assert (Hids : map fst futures = snapshot_ids).
    { clear -HF2. induction HF2 as [|i p l l' [Hi _] _ IH]; [reflexivity|].
      cbn [map]. rewrite Hi, IH. reflexivity. }
    rewrite Hids. reflexivity.
  - apply Forall_forall. intros o Ho. apply elem_of_outcomes_of in Ho.
    rewrite as_completed_perm in Ho. rewrite Forall_forall in Hfut.
    destruct (Hfut _ Ho) as [_ [s2 Hs2]]. cbn [fst snd] in Hs2.
    exists s2. symmetry. exact Hs2.
  - intros key tag. rewrite Hres, pre_fold_buckets. cbn [snd].
    unfold buckets_of at 1. rewrite lookup_empty. cbn. rewrite bucket_empty. reflexivity.
  - intros tag Htag. rewrite Hres.
    destruct (pre_fold_counts _ ([], ∅) Hflight) as (_ & _ & _ & Ht).
    apply Ht; [exact Htag|apply tag_absent_empty].
Qed.

End PassFacts.

Lemma delete_record_tags names item (results : Aggregate) tag :
  tag ∉ ["deleted"; "failed"; "error"] →
  tag_absent tag results → tag_absent tag (delete_record names item results).
Proof.
  intros Htag Habs. unfold delete_record.
  destruct item.2 as [[|]|e], (split "/" item.1 !! 2%nat);
    (apply tag_absent_append; [exact Habs|]); intros <-; apply Htag;
    repeat first [apply list_elem_of_here|apply list_elem_of_further].
Qed.

Lemma delete_loop_tags names completed tag :
  tag ∉ ["deleted"; "failed"; "error"] →
  ∀ pending (results : Aggregate) s results' s',
    delete_loop names pending completed results s = (Ok results', s') →
    tag_absent tag results → tag_absent tag results'.
Proof.
  intros Htag.
  induction completed as [|item rest IH]; intros pending results s results' s' Hrun Habs.
  - injection Hrun as <- _. exact Habs.
  - cbn [delete_loop] in Hrun.
    assert (Hstep : bind (delete_step names item results)
                      (λ r, delete_loop names (Nat.pred <$> pending) rest r) s
                    = (Ok results', s')).
    { destruct pending as [[|n]|]; [discriminate Hrun|exact Hrun|exact Hrun]. }
    apply bind_Ok_inv in Hstep as (r & s1 & Hstep & Hrest).
    apply (IH _ _ _ _ _ Hrest).
    assert (Hset : settled item).
    { unfold settled. intros Hint. unfold delete_step, try_except in Hstep.
      rewrite Hint in Hstep. discriminate Hstep. }
    destruct (delete_step_spec names item results s Hset) as [s2 Hspec].
    rewrite Hspec in Hstep. injection Hstep as <- _.
    apply delete_record_tags; assumption.
Qed.

Lemma delete_valid_snapshots_tags shell as_completed sigint to_delete names s del s' :
  delete_valid_snapshots shell as_completed sigint to_delete names s = (Ok del, s') →
  ∀ tag, tag ∉ ["deleted"; "failed"; "error"] → tag_absent tag del.
Proof.
  intros Hrun tag Htag. unfold delete_valid_snapshots, delete_dispatch in Hrun.
  apply bind_Ok_inv in Hrun as (futures & s1 & _ & Hloop).
  apply (delete_loop_tags _ _ _ Htag _ _ _ _ _ Hloop). apply tag_absent_empty.
Qed.

(** The merge of two aggregates whose tags are kept apart. *)
Lemma bucket_merge_apart (pre del : Aggregate) key tag :
  (∀ t, t ∉ ["invalid"; "non-existent"; "valid"] → tag_absent t pre) →
  (∀ t, t ∉ ["deleted"; "failed"; "error"] → tag_absent t del) →
  bucket (buckets_of (merge_results pre del) key) tag
  = bucket (buckets_of pre key) tag ++ bucket (buckets_of del key) tag
  ∧ (bucket (buckets_of pre key) tag ≠ [] → tag ∈ ["invalid"; "non-existent"; "valid"])
  ∧ (bucket (buckets_of del key) tag ≠ [] → tag ∈ ["deleted"; "failed"; "error"]).
Proof.
  intros Hpre Hdel.
  assert (Hp : bucket (buckets_of pre key) tag ≠ [] →
               tag ∈ ["invalid"; "non-existent"; "valid"]).
  { intros Hne. destruct (decide (tag ∈ ["invalid"; "non-existent"; "valid"])) as [H|H];
      [exact H|].
    exfalso. apply Hne. unfold bucket.
    rewrite (tag_absent_bucket _ _ key (Hpre tag H)). reflexivity. }
  assert (Hd : bucket (buckets_of del key) tag ≠ [] →
               tag ∈ ["deleted"; "failed"; "error"]).
  { intros Hne. destruct (decide (tag ∈ ["deleted"; "failed"; "error"])) as [H|H];
      [exact H|].
    exfalso. apply Hne. unfold bucket.
    rewrite (tag_absent_bucket _ _ key (Hdel tag H)). reflexivity. }
  split; [|split; assumption].
  rewrite bucket_merge.
  destruct (buckets_of del key !! tag) as [l|] eqn:Hl.
  - assert (Hb : bucket (buckets_of del key) tag = l) by (unfold bucket; rewrite Hl; reflexivity).
    rewrite Hb.
    destruct (decide (tag ∈ ["deleted"; "failed"; "error"])) as [H|H].
    + assert (Hnot : tag ∉ ["invalid"; "non-existent"; "valid"]).
      { intros H'.
        repeat (apply elem_of_cons in H as [->|H];
                [repeat (apply elem_of_cons in H' as [H'|H']; [discriminate H'|]);
                 apply elem_of_nil in H'; exact H'|]).
        apply elem_of_nil in H. exact H. }
      unfold bucket at 1. rewrite (tag_absent_bucket _ _ key (Hpre tag Hnot)). reflexivity.
    + rewrite (tag_absent_bucket _ _ key (Hdel tag H)) in Hl. discriminate Hl.
  - unfold bucket at 3. rewrite Hl. cbn. rewrite app_nil_r. reflexivity.
Qed.

(** C1. The merge at the end of the delete pipeline keeps every bucket of
    both passes.  The pre-validation pass files under ["invalid"],
    ["non-existent"] and ["valid"] only, the deletion pass under
    ["deleted"], ["failed"] and ["error"] only, so for every key and tag
    the merged bucket is the bucket of the first pass followed by that of
    the second, one of the two being empty: no bucket of either aggregate
    is lost or overwritten.  This holds for any aggregate of a
    pre-validation pass with any aggregate of a deletion pass, and the
    aggregate that [delete_snapshots] returns is such a merge, or the
    pre-validation aggregate itself when nothing is valid. *)
Theorem merge_results_keeps_both_passes
    (shell shell' : Oracle) (json_loads_locks : string → option (list Lock))
    (as_completed : ∀ A : Type, list A → list A) (sigint : option nat) :
  (∀ (A : Type) (l : list A), as_completed A l ≡ₚ l) →
  (∀ snapshot_ids names s valid_snapshots pre s1 to_delete names' s2 del s3,
     pre_validate_snapshots shell as_completed snapshot_ids names s
     = (Ok (valid_snapshots, pre), s1) →
     delete_valid_snapshots shell' as_completed sigint to_delete names' s2
     = (Ok del, s3) →
     ∀ key tag,
       bucket (buckets_of (merge_results pre del) key) tag
       = bucket (buckets_of pre key) tag ++ bucket (buckets_of del key) tag
       ∧ (bucket (buckets_of pre key) tag ≠ [] →
          tag ∈ ["invalid"; "non-existent"; "valid"])
       ∧ (bucket (buckets_of del key) tag ≠ [] →
          tag ∈ ["deleted"; "failed"; "error"]))
  ∧ (∀ snapshot_ids names s results s',
       delete_snapshots shell json_loads_locks as_completed sigint snapshot_ids names s
       = (Ok results, s') →
       ∃ valid_snapshots pre s1,
         pre_validate_snapshots shell as_completed snapshot_ids names s
         = (Ok (valid_snapshots, pre), s1)
         ∧ ((valid_snapshots = [] ∧ results = pre)
            ∨ ∃ s2 del s3,
                delete_valid_snapshots shell as_completed sigint valid_snapshots names s2
                = (Ok del, s3)
                ∧ results = merge_results pre del)).
Proof.
  intros Hperm. split.
  - intros snapshot_ids names s valid pre s1 to_delete names' s2 del s3 Hpre Hdel key tag.
    destruct (pre_validate_snapshots_outcomes shell as_completed Hperm _ _ _ _ _ _ Hpre)
      as (_ & _ & _ & _ & Htags).
    apply bucket_merge_apart; [exact Htags|].
    exact (delete_valid_snapshots_tags _ _ _ _ _ _ _ _ Hdel).
  - intros snapshot_ids names s results s' Hrun. unfold delete_snapshots in Hrun.
    apply bind_Ok_inv in Hrun as ([valid pre] & s1 & Hpre & Hrun). cbn [fst snd] in Hrun.
    exists valid, pre, s1. split; [exact Hpre|].
    destruct valid as [|v rest]; [left; injection Hrun as <- _; auto|].
    apply bind_Ok_inv in Hrun as (removed & s2 & _ & Hrun).
    apply bind_Ok_inv in Hrun as (del & s3 & Hdel & Hrun).
    apply bind_Ok_inv in Hrun as (restored & s4 & _ & Hrun).
    injection Hrun as <- _. right. exists s2, del, s3. auto.
Qed.

Lemma merge_results_keeps_both_passes_witness :
  ∃ valid_snapshots pre del,
    returned (pre_validate_snapshots all_succeed in_order [snap_1] ∅ initial_state)
    = Some (valid_snapshots, pre)
    ∧ returned (delete_valid_snapshots all_succeed in_order None [snap_1] ∅ initial_state)
      = Some del
    ∧ ∀ key tag,
        bucket (buckets_of (merge_results pre del) key) tag
        = bucket (buckets_of pre key) tag ++ bucket (buckets_of del key) tag.
Proof.
  assert (Hp : is_Some (returned (pre_validate_snapshots all_succeed in_order [snap_1] ∅
                                    initial_state))).
  { refine (bool_decide_unpack _ _). vm_compute. exact I. }
  assert (Hd : is_Some (returned (delete_valid_snapshots all_succeed in_order None
                                    [snap_1] ∅ initial_state))).
  { refine (bool_decide_unpack _ _). vm_compute. exact I. }
  destruct Hp as [[valid pre] Hp], Hd as [del Hd].
  exists valid, pre, del. split; [exact Hp|]. split; [exact Hd|].
  apply returned_Ok in Hp as [s1 Hpre]. apply returned_Ok in Hd as [s3 Hdel].
  destruct (merge_results_keeps_both_passes all_succeed all_succeed one_lock in_order None)
    as [Hmerge _]; [intros A l; reflexivity|].
  intros key tag. exact (proj1 (Hmerge _ _ _ _ _ _ _ _ _ _ _ Hpre Hdel key tag)).
Defined.

(** C2, as the code has it. When the delete pipeline returns, every input
    identifier has exactly one outcome in the pre-validation aggregate:
    the outcomes of the pass are one classification of [process_snapshot]
    per identifier of the input, and every bucket holds the payloads of
    the outcomes filed under its key and tag, and nothing else.  The
    totals row counts the ["valid"] and ["non-existent"] outcomes of that
    pass but not the ["invalid"] ones, and counts every snapshot handed to
    deletion a second time as ["deleted"] or ["failed"]. *)
Theorem delete_snapshots_totals
    (shell : Oracle) (json_loads_locks : string → option (list Lock))
    (as_completed : ∀ A : Type, list A → list A)
    (snapshot_ids : list string) (names : gmap string string)
    (s s' : State) (results : Aggregate) :
  (∀ (A : Type) (l : list A), as_completed A l ≡ₚ l) →
  delete_snapshots shell json_loads_locks as_completed None snapshot_ids names s
  = (Ok results, s') →
  ∃ valid_snapshots pre s1 outcomes,
    pre_validate_snapshots shell as_completed snapshot_ids names s
    = (Ok (valid_snapshots, pre), s1)
    ∧ map fst outcomes ≡ₚ snapshot_ids
    ∧ Forall (λ o : string * Classification,
                ∃ s0, (process_snapshot shell o.1 names s0).1 = Ok o.2) outcomes
    ∧ (∀ key tag,
         bucket (buckets_of pre key) tag
         = map (λ o : string * Classification, o.2.2)
             (filter (λ o : string * Classification,
                        classify_key o.2.1.1 = key ∧ o.2.1.2 = tag) outcomes))
    ∧ aggregate_size pre = length snapshot_ids
    ∧ (total_valid (print_summary results) + total_non_existent (print_summary results)
       + count_tag "invalid" pre = length snapshot_ids)%nat
    ∧ (total_deleted (print_summary results) + total_failed (print_summary results)
       = length valid_snapshots)%nat
    ∧ (length valid_snapshots ≤ total_valid (print_summary results))%nat.
Proof.
  intros Hperm Hrun.
  destruct (pre_validate_snapshots_spec shell as_completed Hperm snapshot_ids names s)
    as (valid & pre & s1 & Hpre & Hsize & Hc3 & Hv & Hwf & Hd & Hf).
  destruct (pre_validate_snapshots_outcomes shell as_completed Hperm _ _ _ _ _ _ Hpre)
    as (outcomes & Hids & Hworker & Hbuckets & _).
  exists valid, pre, s1, outcomes. split; [exact Hpre|]. split; [exact Hids|].
  split; [exact Hworker|]. split; [exact Hbuckets|]. split; [exact Hsize|].
  unfold delete_snapshots in Hrun. rewrite (bind_Ok _ _ _ _ _ Hpre) in Hrun.
  cbn [fst snd] in Hrun. unfold counted3 in Hc3.
  destruct valid as [|v valid].
  - injection Hrun as <- <-.
    rewrite print_summary_counts.
    cbn [total_valid total_non_existent total_deleted total_failed length].
    rewrite (count_tag_absent _ _ Hd), (count_tag_absent _ _ Hf). lia.
  - apply bind_Ok_inv in Hrun as (removed & s2 & _ & Hrun).
    destruct (delete_valid_snapshots_spec shell as_completed Hperm (v :: valid) names s2 Hwf)
      as (del & s3 & Hdel & _ & Hcd & Hv' & Hn').
    rewrite (bind_Ok _ _ _ _ _ Hdel) in Hrun.
    apply bind_Ok_inv in Hrun as (restored & s4 & _ & Hrun).
    injection Hrun as <- <-.
    rewrite (print_summary_merge pre del Hd Hf Hv' Hn').
    cbn [total_valid total_non_existent total_deleted total_failed].
    lia.
Qed.

Lemma delete_snapshots_totals_witness :
  ∃ valid_snapshots pre s1 (outcomes : list (string * Classification)),
    pre_validate_snapshots all_succeed in_order [snap_1; "not/a/snapshot"] ∅ initial_state
    = (Ok (valid_snapshots, pre), s1)
    ∧ map fst outcomes ≡ₚ [snap_1; "not/a/snapshot"]
    ∧ aggregate_size pre = 2%nat.
Proof.
  assert (Hret : is_Some (returned (delete_snapshots all_succeed one_lock in_order None
                                      [snap_1; "not/a/snapshot"] ∅ initial_state))).
  { refine (bool_decide_unpack _ _). vm_compute. exact I. }
  destruct Hret as [results Hret]. apply returned_Ok in Hret as [s' Hrun].
  destruct (delete_snapshots_totals all_succeed one_lock in_order
              [snap_1; "not/a/snapshot"] ∅ initial_state s' results)
    as (valid & pre & s1 & outcomes & Hpre & Hids & _ & _ & Hsize & _).
  - intros A l. reflexivity.
  - exact Hrun.
  - exists valid, pre, s1, outcomes. split; [exact Hpre|]. split; [exact Hids|exact Hsize].
Defined.

(** C2 as stated fails: for one existing snapshot the totals row adds up
    to two, and for one malformed identifier to zero. *)
Lemma totals_row_is_not_input_length :
  (∃ results s',
     delete_snapshots all_succeed one_lock in_order None [snap_1] ∅ initial_state
     = (Ok results, s')
     ∧ totals_sum (print_summary results) = 2%nat
     ∧ totals_sum (print_summary results) ≠ length [snap_1])
  ∧ (∃ results s',
       delete_snapshots all_succeed one_lock in_order None ["not/a/snapshot"] ∅
         initial_state = (Ok results, s')
       ∧ totals_sum (print_summary results) = 0%nat
       ∧ totals_sum (print_summary results) ≠ length ["not/a/snapshot"]).
Proof.
  split.
  - assert (Hsum : (totals_sum ∘ print_summary)
                     <$> returned (delete_snapshots all_succeed one_lock in_order None
                                     [snap_1] ∅ initial_state) = Some 2%nat)
      by (vm_compute; reflexivity).
    destruct (returned _) as [results|] eqn:Hret; [|discriminate Hsum].
    apply returned_Ok in Hret as [s' Hrun]. injection Hsum as Hsum. cbn in Hsum.
    exists results, s'. split; [exact Hrun|]. rewrite Hsum.
    split; [reflexivity|]. cbn. lia.
  - assert (Hsum : (totals_sum ∘ print_summary)
                     <$> returned (delete_snapshots all_succeed one_lock in_order None
                                     ["not/a/snapshot"] ∅ initial_state) = Some 0%nat)
      by (vm_compute; reflexivity).
    destruct (returned _) as [results|] eqn:Hret; [|discriminate Hsum].
    apply returned_Ok in Hret as [s' Hrun]. injection Hsum as Hsum. cbn in Hsum.
    exists results, s'. split; [exact Hrun|]. rewrite Hsum.
    split; [reflexivity|]. cbn. lia.
Qed.

(** * The lock guard, from removal to restoration *)

Lemma lock_deletes_app new2 new1 :
  lock_deletes (new2 ++ new1) = lock_deletes new1 ++ lock_deletes new2.
Proof. unfold lock_deletes. rewrite ran_app, filter_app, rev_app_distr. reflexivity. Qed.


Lemma confirmed_removals_app new2 new1 :
  confirmed_removals (new2 ++ new1) = confirmed_removals new1 ++ confirmed_removals new2.
Proof. unfold confirmed_removals. rewrite lock_deletes_app, filter_app. reflexivity. Qed.

Lemma lock_deletes_none new :
  Forall (λ run, is_lock_delete run = false) (ran new) → lock_deletes new = [].
Proof.
  unfold lock_deletes. intros Hall.
  induction Hall as [|run l Hrun _ IH]; [reflexivity|].
  rewrite filter_cons_False by (rewrite Hrun; discriminate). exact IH.
Qed.


Lemma confirmed_removals_none new :
  Forall (λ run, is_lock_delete run = false) (ran new) → confirmed_removals new = [].
Proof. intros H. unfold confirmed_removals. rewrite (lock_deletes_none _ H). reflexivity. Qed.

Section GuardFacts.
Variable shell : Oracle.
Variable json_loads_locks : string → option (list Lock).
Variable as_completed : ∀ A : Type, list A → list A.
Variable sigint : option nat.

Lemma runs_only_switch_subscription_any (Q : Command * ProcOutcome → Prop)
    subscription current :
  (∀ args out, Q (Argv args, out)) →
  runs_only Q (switch_subscription shell subscription current).
Proof.
  intros HQ. eapply runs_only_mono; [|apply runs_only_switch_subscription].
  intros [cmd out] [args Hargs]. cbn [fst] in Hargs. subst cmd. apply HQ.
Qed.

(** The removal of the locks of one resource group: the records appended
    are, one for one and in order, the lock-delete commands whose reply
    is not error-tagged. *)
Lemma remove_locks_records sub rg locks : ∀ removed s removed' s',
  remove_locks shell sub rg locks removed s = (Ok removed', s') →
  ∃ new more,
    trace s' = new ++ trace s
    ∧ removed' = removed ++ more
    ∧ map fst (confirmed_removals new) = map removal_command more.
Proof.
  induction locks as [|lock rest IH]; intros removed s removed' s' Hrun.
  - injection Hrun as <- <-. exists [], []. rewrite app_nil_r.
    split; [reflexivity|]. split; reflexivity.
  - cbn [remove_locks] in Hrun.
    destruct (String.eqb (lock_level lock) "CanNotDelete"); [|exact (IH _ _ _ _ Hrun)].
    destruct (run_az_command_shell_ran shell (lock_delete_command (lock_name lock) rg) s)
      as (text & new1 & Hcmd & Hran1 & Hreply).
    rewrite (bind_Ok _ _ _ _ _ Hcmd) in Hrun.
    assert (Hdel : lock_deletes new1
                   = [(Shell (lock_delete_command (lock_name lock) rg),
                       shell (ncalls s) (Shell (lock_delete_command (lock_name lock) rg)))]).
    { unfold lock_deletes. rewrite Hran1. reflexivity. }
    destruct (negb (startswith text "Error:")) eqn:Herr;
      destruct (IH _ _ _ _ Hrun) as (new2 & more & Htr2 & Hmore & Hcmds).
    + exists (new2 ++ new1), ((sub, rg, lock_name lock) :: more).
      split; [rewrite Htr2; cbn [trace]; rewrite <- app_assoc; reflexivity|].
      split; [rewrite Hmore, <- app_assoc; reflexivity|].
      rewrite confirmed_removals_app, map_app, Hcmds.
      unfold confirmed_removals at 1. rewrite Hdel.
      rewrite filter_cons_True.
      * reflexivity.
      * unfold error_tagged. cbn [fst snd]. rewrite Hreply.
        apply negb_true_iff. exact Herr.
    + exists (new2 ++ new1), more.
      split; [rewrite Htr2; cbn [trace]; rewrite <- app_assoc; reflexivity|].
      split; [exact Hmore|].
      rewrite confirmed_removals_app, map_app, Hcmds.
      unfold confirmed_removals at 1. rewrite Hdel.
      rewrite filter_cons_False.
      * reflexivity.
      * unfold error_tagged. cbn [fst snd]. rewrite Hreply.
        apply negb_false_iff in Herr. rewrite Herr. discriminate.
Qed.

Lemma check_and_remove_scope_locks_records resource_groups :
  ∀ current removed s removed' s',
  check_and_remove_scope_locks_loop shell json_loads_locks resource_groups current
    removed s = (Ok removed', s') →
  ∃ new more,
    trace s' = new ++ trace s
    ∧ removed' = removed ++ more
    ∧ map fst (confirmed_removals new) = map removal_command more.
Proof.
  induction resource_groups as [|[sub rg] rest IH]; intros current removed s removed' s' Hrun.
  - injection Hrun as <- <-. exists [], []. rewrite app_nil_r.
    split; [reflexivity|]. split; reflexivity.
  - cbn [check_and_remove_scope_locks_loop] in Hrun.
    apply bind_Ok_inv in Hrun as (current' & s1 & Hsw & Hrun).
    destruct (runs_only_switch_subscription_any (λ run, is_lock_delete run = false)
                sub current (λ _ _, eq_refl) s) as (new1 & Htr1 & Hnone1).
    rewrite Hsw in Htr1. cbn [snd] in Htr1.
    destruct (run_az_command_shell_ran shell (lock_list_command rg) s1)
      as (text & new2 & Hcmd & Hran2 & _).
    rewrite (bind_Ok _ _ _ _ _ Hcmd) in Hrun.
    destruct (json_loads_locks text) as [locks|]; [|discriminate Hrun].
    apply bind_Ok_inv in Hrun as (removed1 & s3 & Hrm & Hrun).
    destruct (remove_locks_records _ _ _ _ _ _ _ Hrm) as (new3 & more3 & Htr3 & Hm3 & Hc3).
    destruct (IH _ _ _ _ _ Hrun) as (new4 & more4 & Htr4 & Hm4 & Hc4).
    exists (new4 ++ new3 ++ new2 ++ new1), (more3 ++ more4).
    split; [rewrite Htr4, Htr3; cbn [trace]; rewrite Htr1, <- !app_assoc; reflexivity|].
    split; [rewrite Hm4, Hm3, <- app_assoc; reflexivity|].
    rewrite !confirmed_removals_app, !map_app, Hc3, Hc4.
    rewrite (confirmed_removals_none _ Hnone1).
    assert (Hlist : confirmed_removals new2 = []).
    { apply confirmed_removals_none. rewrite Hran2. repeat constructor. }
    rewrite Hlist. reflexivity.
Qed.







End GuardFacts.

(** C7. When the restoration returns its count, the count is the number
    of lock-create commands whose reply is not error-tagged; one such
    command was run per removed lock, so the count never exceeds the number
    of removed locks and equals it when no lock-create command fails. The
    list of removed locks is, one for one and in the order of the commands,
    the list of the lock-delete commands whose reply is not error-tagged:
    every such removal is recorded, and nothing else is. So the count
    returned for the recorded list never exceeds the number of locks the
    removal did remove, and equals it when no lock-create command fails. *)
Theorem lock_restoration_count
    (shell : Oracle) (json_loads_locks : string → option (list Lock)) :
  (∀ removed_locks s restored s',
     restore_scope_locks shell removed_locks s = (Ok restored, s') →
     ∃ new,
       trace s' = new ++ trace s
       ∧ length (lock_creates new) = length removed_locks
       ∧ restored = length (filter (λ run, error_tagged run = false) (lock_creates new))
       ∧ (restored ≤ length removed_locks)%nat
       ∧ (Forall (λ run, error_tagged run = false) (lock_creates new) →
          restored = length removed_locks))
  ∧ (∀ resource_groups s removed_locks s',
       check_and_remove_scope_locks shell json_loads_locks resource_groups s
       = (Ok removed_locks, s') →
       ∃ new,
         trace s' = new ++ trace s
         ∧ map fst (confirmed_removals new) = map removal_command removed_locks
         ∧ ∀ record, record ∈ removed_locks →
             ∃ out,
               (Shell (lock_delete_command record.2 record.1.2), out) ∈ lock_deletes new
               ∧ error_tagged (Shell (lock_delete_command record.2 record.1.2), out)
                 = false)
  ∧ (∀ resource_groups s removed_locks s1 s2 restored s3,
       check_and_remove_scope_locks shell json_loads_locks resource_groups s
       = (Ok removed_locks, s1) →
       restore_scope_locks shell removed_locks s2 = (Ok restored, s3) →
       ∃ removal restoration,
         trace s1 = removal ++ trace s
         ∧ trace s3 = restoration ++ trace s2
         ∧ map fst (confirmed_removals removal) = map removal_command removed_locks
         ∧ map fst (lock_creates restoration) = map restore_command removed_locks
         ∧ restored
           = length (filter (λ run, error_tagged run = false) (lock_creates restoration))
         ∧ (restored ≤ length (confirmed_removals removal))%nat
         ∧ (Forall (λ run, error_tagged run = false) (lock_creates restoration) →
            restored = length (confirmed_removals removal))).
Proof.
  assert (Hrestore : ∀ removed_locks s restored s',
     restore_scope_locks shell removed_locks s = (Ok restored, s') →
     ∃ new,
       trace s' = new ++ trace s
       ∧ map fst (lock_creates new) = map restore_command removed_locks
       ∧ length (lock_creates new) = length removed_locks
       ∧ restored = length (filter (λ run, error_tagged run = false) (lock_creates new))
       ∧ (restored ≤ length removed_locks)%nat
       ∧ (Forall (λ run, error_tagged run = false) (lock_creates new) →
          restored = length removed_locks)).
  { intros removed s restored s' Hrun.
    destruct (restore_scope_locks_loop_spec shell removed None 0%nat s restored s' Hrun)
      as (new & Htr & Hcmds & Hn).
    assert (Hlen : length (lock_creates new) = length removed).
    { rewrite <- (length_map fst), Hcmds, length_map. reflexivity. }
    exists new. split; [exact Htr|]. split; [exact Hcmds|]. split; [exact Hlen|].
    split; [lia|]. split.
    + rewrite Hn, <- Hlen. cbn. apply length_filter.
    + intros Hall. rewrite Hn, (filter_all _ _ Hall), Hlen. reflexivity. }
  assert (Hremoval : ∀ resource_groups s removed_locks s',
       check_and_remove_scope_locks shell json_loads_locks resource_groups s
       = (Ok removed_locks, s') →
       ∃ new,
         trace s' = new ++ trace s
         ∧ map fst (confirmed_removals new) = map removal_command removed_locks
         ∧ ∀ record, record ∈ removed_locks →
             ∃ out,
               (Shell (lock_delete_command record.2 record.1.2), out) ∈ lock_deletes new
               ∧ error_tagged (Shell (lock_delete_command record.2 record.1.2), out)
                 = false).
  { intros resource_groups s removed s' Hrun.
    destruct (check_and_remove_scope_locks_loop_spec shell json_loads_locks
                _ _ _ _ _ _ Hrun) as (new & Htr & Hrec).
    destruct (check_and_remove_scope_locks_records shell json_loads_locks
                _ _ _ _ _ _ Hrun) as (new' & more & Htr' & Hmore & Hcmds).
    cbn [app] in Hmore. subst more.
    rewrite Htr in Htr'. apply app_inv_tail in Htr'. subst new'.
    exists new. split; [exact Htr|]. split; [exact Hcmds|].
    intros record Hin. destruct (Hrec record Hin) as [Hnil|Hout]; [|exact Hout].
    apply elem_of_nil in Hnil. contradiction. }
  split; [|split].
  - intros removed s restored s' Hrun.
    destruct (Hrestore _ _ _ _ Hrun) as (new & Htr & _ & Hrest).
    exists new. split; [exact Htr|exact Hrest].
  - exact Hremoval.
  - intros resource_groups s removed s1 s2 restored s3 Hrm Hrs.
    destruct (Hremoval _ _ _ _ Hrm) as (removal & Htr1 & Hcmds & _).
    destruct (Hrestore _ _ _ _ Hrs) as (restoration & Htr3 & Hcreates & _ & Hn & Hle & Hall).
    assert (Hlen : length (confirmed_removals removal) = length removed).
    { rewrite <- (length_map fst), Hcmds, length_map. reflexivity. }
    exists removal, restoration. rewrite Hlen.
    split; [exact Htr1|]. split; [exact Htr3|]. split; [exact Hcmds|].
    split; [exact Hcreates|]. split; [exact Hn|]. split; [exact Hle|exact Hall].
Qed.

Lemma lock_restoration_count_witness :
  ∃ removed_locks restored removal restoration,
    returned (check_and_remove_scope_locks all_succeed one_lock {[("sub-1", "rg-1")]}
                initial_state) = Some removed_locks
    ∧ returned (restore_scope_locks all_succeed removed_locks initial_state)
      = Some restored
    ∧ trace (check_and_remove_scope_locks all_succeed one_lock {[("sub-1", "rg-1")]}
               initial_state).2 = removal ++ trace initial_state
    ∧ trace (restore_scope_locks all_succeed removed_locks initial_state).2
      = restoration ++ trace initial_state
    ∧ map fst (confirmed_removals removal) = map removal_command removed_locks
    ∧ (restored ≤ length (confirmed_removals removal))%nat.
Proof.
  destruct (check_and_remove_scope_locks all_succeed one_lock {[("sub-1", "rg-1")]}
              initial_state) as [[removed|e] s1] eqn:Hrm.
  - destruct (restore_scope_locks all_succeed removed initial_state)
      as [[restored|e] s3] eqn:Hrs.
    + destruct (proj2 (proj2 (lock_restoration_count all_succeed one_lock))
                  _ _ _ _ _ _ _ Hrm Hrs)
        as (removal & restoration & Htr1 & Htr3 & Hcmds & _ & _ & Hle & _).
      exists removed, restored, removal, restoration. rewrite Hrs.
      split; [reflexivity|]. split; [reflexivity|]. split; [exact Htr1|].
      split; [exact Htr3|]. split; [exact Hcmds|exact Hle].
    + exfalso.
      assert (Hremoved : removed = [("sub-1", "rg-1", "keep")]).
      { assert (Hret : returned (check_and_remove_scope_locks all_succeed one_lock
                                   {[("sub-1", "rg-1")]} initial_state)
                       = Some [("sub-1", "rg-1", "keep")]) by (vm_compute; reflexivity).
        rewrite Hrm in Hret. injection Hret as ->. reflexivity. }
      subst removed.
      assert (Hret : is_Some (returned (restore_scope_locks all_succeed
                                          [("sub-1", "rg-1", "keep")] initial_state))).
      { refine (bool_decide_unpack _ _). vm_compute. exact I. }
      rewrite Hrs in Hret. destruct Hret as [x Hx]. discriminate Hx.
  - exfalso.
    assert (Hret : is_Some (returned (check_and_remove_scope_locks all_succeed one_lock
                                        {[("sub-1", "rg-1")]} initial_state))).
    { refine (bool_decide_unpack _ _). vm_compute. exact I. }
    rewrite Hrm in Hret. destruct Hret as [x Hx]. discriminate Hx.
Defined.



